(** * Magnum Extras user-interface core: handles, dirty-state bits, text and
    base layer bookkeeping, and event dispatch

    A shallow embedding of the parts of the Magnum::Whee / Magnum::Ui sources
    that the specification talks about, with the properties proved about
    them.  Machine integers are [Z] with the wrap-around written out, arrays
    are lists accessed with stdpp's lookup and insert, out-of-range accesses
    and failed assertions are [None] in the option monad. *)

From Stdlib Require Import ZArith QArith Lia Bool List.
From stdpp Require Import base tactics option list numbers.

Local Open Scope Z_scope.

(** ** Machine integers *)

(** [UnsignedByte], [UnsignedShort], [UnsignedInt] and [std::size_t]
    arithmetic wraps around. *)
Definition u16 (x : Z) : Z := x mod 2 ^ 16.
Definition u32 (x : Z) : Z := x mod 2 ^ 32.
Definition u64 (x : Z) : Z := x mod 2 ^ 64.

(** [~UnsignedInt{}] *)
Definition UnsignedIntMax : Z := 2 ^ 32 - 1.

Lemma u32_small x : 0 <= x < 2 ^ 32 -> u32 x = x.
Proof. intros H. unfold u32. apply Z.mod_small. exact H. Qed.

Lemma u64_small x : 0 <= x < 2 ^ 64 -> u64 x = x.
Proof. intros H. unfold u64. apply Z.mod_small. exact H. Qed.

Lemma u16_small x : 0 <= x < 2 ^ 16 -> u16 x = x.
Proof. intros H. unfold u16. apply Z.mod_small. exact H. Qed.

(** Bit containment, [a & b == b], the test the enum sets are built on. *)
Definition contains (a b : Z) : Prop := Z.land a b = b.

Lemma contains_refl a : contains a a.
Proof. unfold contains. apply Z.land_diag. Qed.

Lemma contains_trans a b c : contains a b -> contains b c -> contains a c.
Proof.
  unfold contains. intros Hab Hbc.
  rewrite <- Hbc at 1. rewrite Z.land_assoc, Hab. exact Hbc.
Qed.

(** ** UserInterfaceState (Ui/AbstractUserInterface.h) *)

Module UserInterfaceState.

Definition NeedsDataUpdate : Z := Z.shiftl 1 0.
Definition NeedsDataAttachmentUpdate : Z := Z.lor NeedsDataUpdate (Z.shiftl 1 1).
Definition NeedsNodeEnabledUpdate : Z := Z.lor NeedsDataAttachmentUpdate (Z.shiftl 1 2).
Definition NeedsNodeClipUpdate : Z := Z.lor NeedsNodeEnabledUpdate (Z.shiftl 1 3).
Definition NeedsLayoutUpdate : Z := Z.lor NeedsNodeClipUpdate (Z.shiftl 1 4).
Definition NeedsLayoutAssignmentUpdate : Z := Z.lor NeedsLayoutUpdate (Z.shiftl 1 5).
Definition NeedsNodeOpacityUpdate : Z := Z.lor NeedsDataUpdate (Z.shiftl 1 6).
Definition NeedsNodeUpdate : Z :=
  Z.lor (Z.lor NeedsLayoutAssignmentUpdate NeedsNodeOpacityUpdate) (Z.shiftl 1 7).
Definition NeedsDataClean : Z := Z.shiftl 1 8.
Definition NeedsNodeClean : Z :=
  Z.lor (Z.lor NeedsNodeUpdate NeedsDataClean) (Z.shiftl 1 9).
Definition NeedsAnimationAdvance : Z := Z.shiftl 1 10.

(** The enumerators, by name. *)
Inductive flag : Set :=
  | DataUpdate
  | DataAttachmentUpdate
  | NodeEnabledUpdate
  | NodeClipUpdate
  | LayoutUpdate
  | LayoutAssignmentUpdate
  | NodeOpacityUpdate
  | NodeUpdate
  | DataClean
  | NodeClean
  | AnimationAdvance.

Definition value (f : flag) : Z :=
  match f with
  | DataUpdate => NeedsDataUpdate
  | DataAttachmentUpdate => NeedsDataAttachmentUpdate
  | NodeEnabledUpdate => NeedsNodeEnabledUpdate
  | NodeClipUpdate => NeedsNodeClipUpdate
  | LayoutUpdate => NeedsLayoutUpdate
  | LayoutAssignmentUpdate => NeedsLayoutAssignmentUpdate
  | NodeOpacityUpdate => NeedsNodeOpacityUpdate
  | NodeUpdate => NeedsNodeUpdate
  | DataClean => NeedsDataClean
  | NodeClean => NeedsNodeClean
  | AnimationAdvance => NeedsAnimationAdvance
  end.

(** The links of the implication chain
    NeedsNodeClean ⊇ NeedsNodeUpdate ⊇ NeedsLayoutAssignmentUpdate ⊇
    NeedsLayoutUpdate ⊇ NeedsNodeClipUpdate ⊇ NeedsNodeEnabledUpdate ⊇
    NeedsDataAttachmentUpdate ⊇ NeedsDataUpdate, and the separate branch
    NeedsNodeClean ⊇ NeedsDataClean. *)
Inductive link : flag -> flag -> Prop :=
  | link_NodeClean_NodeUpdate : link NodeClean NodeUpdate
  | link_NodeUpdate_LayoutAssignmentUpdate : link NodeUpdate LayoutAssignmentUpdate
  | link_LayoutAssignmentUpdate_LayoutUpdate : link LayoutAssignmentUpdate LayoutUpdate
  | link_LayoutUpdate_NodeClipUpdate : link LayoutUpdate NodeClipUpdate
  | link_NodeClipUpdate_NodeEnabledUpdate : link NodeClipUpdate NodeEnabledUpdate
  | link_NodeEnabledUpdate_DataAttachmentUpdate : link NodeEnabledUpdate DataAttachmentUpdate
  | link_DataAttachmentUpdate_DataUpdate : link DataAttachmentUpdate DataUpdate
  | link_NodeClean_DataClean : link NodeClean DataClean.

(** [implies X Y]: the chain says X implies Y (zero or more links). *)
Inductive implies : flag -> flag -> Prop :=
  | implies_refl X : implies X X
  | implies_link X Y W : link X Y -> implies Y W -> implies X W.

(** A state bitset has a flag set when it contains all of the flag's bits,
    [states >= flag] of [Containers::EnumSet]. *)
Definition has (states : Z) (f : flag) : Prop := contains states (value f).

Lemma link_contains X Y : link X Y -> contains (value X) (value Y).
Proof. intros H. destruct H; vm_compute; reflexivity. Qed.

Lemma value_fits f : 0 <= value f < 2 ^ 16.
Proof. destruct f; vm_compute; split; congruence. Qed.

(** C1: along the chain NeedsNodeClean ⊇ NeedsNodeUpdate ⊇
    NeedsLayoutAssignmentUpdate ⊇ NeedsLayoutUpdate ⊇ NeedsNodeClipUpdate ⊇
    NeedsNodeEnabledUpdate ⊇ NeedsDataAttachmentUpdate ⊇ NeedsDataUpdate and
    the branch NeedsNodeClean ⊇ NeedsDataClean, whenever X implies Y the
    enum constant of X bit-contains the one of Y (X & Y == Y), so every state
    bitset that has X set has Y set. *)
Theorem implication_lattice_in_bits (X Y : flag) :
  implies X Y ->
  Z.land (value X) (value Y) = value Y /\
  (forall states : Z, has states X -> has states Y).
Proof.
  intros H.
  assert (Hc : contains (value X) (value Y)).
  { induction H as [X | X Y W Hl _ IH].
    - apply contains_refl.
    - eapply contains_trans; [apply link_contains; exact Hl | exact IH]. }
  split; [exact Hc |].
  intros states Hs. unfold has in *. eapply contains_trans; eassumption.
Qed.

Lemma implication_lattice_in_bits_witness :
  implies NodeClean DataUpdate /\
  Z.land (value NodeClean) (value DataUpdate) = value DataUpdate /\
  has 1023 DataUpdate.
Proof.
  assert (Hi : implies NodeClean DataUpdate)
    by (repeat (eapply implies_link; [constructor |]); apply implies_refl).
  split; [exact Hi |].
  destruct (implication_lattice_in_bits NodeClean DataUpdate Hi) as [Hb Hs].
  split; [exact Hb |].
  apply (Hs 1023). vm_compute. reflexivity.
Defined.

(** C3, as the specification states it, fails: NeedsNodeOpacityUpdate is
    [NeedsDataUpdate|(1 << 6)], which does not bit-contain NeedsLayoutUpdate,
    and the bitset consisting of NeedsNodeOpacityUpdate alone has none of
    NeedsLayoutUpdate, NeedsNodeClipUpdate, NeedsNodeEnabledUpdate and
    NeedsDataAttachmentUpdate set. *)
Lemma opacity_update_does_not_contain_layout_update :
  ~ (Z.land NeedsNodeOpacityUpdate NeedsLayoutUpdate = NeedsLayoutUpdate /\
     (forall states : Z, has states NodeOpacityUpdate ->
        has states LayoutUpdate /\ has states NodeClipUpdate /\
        has states NodeEnabledUpdate /\ has states DataAttachmentUpdate)).
Proof.
  intros [H _]. vm_compute in H. discriminate H.
Qed.

Lemma opacity_update_state_without_layout_update :
  has NeedsNodeOpacityUpdate NodeOpacityUpdate /\
  ~ has NeedsNodeOpacityUpdate LayoutUpdate /\
  ~ has NeedsNodeOpacityUpdate NodeClipUpdate /\
  ~ has NeedsNodeOpacityUpdate NodeEnabledUpdate /\
  ~ has NeedsNodeOpacityUpdate DataAttachmentUpdate.
Proof.
  repeat split; vm_compute; congruence.
Qed.

(** C3, amended: NeedsNodeOpacityUpdate implies NeedsDataUpdate only.  Its
    enum value bit-contains NeedsDataUpdate, so every state bitset with
    NeedsNodeOpacityUpdate set has NeedsDataUpdate set; the bits it shares
    with NeedsLayoutUpdate are exactly those of NeedsDataUpdate; and it is
    itself bit-contained in NeedsNodeUpdate and NeedsNodeClean. *)
Theorem opacity_update_implies_data_update (states : Z) :
  has states NodeOpacityUpdate ->
  has states DataUpdate /\
  Z.land NeedsNodeOpacityUpdate NeedsDataUpdate = NeedsDataUpdate /\
  Z.land NeedsNodeOpacityUpdate NeedsLayoutUpdate = NeedsDataUpdate /\
  Z.land NeedsNodeUpdate NeedsNodeOpacityUpdate = NeedsNodeOpacityUpdate /\
  Z.land NeedsNodeClean NeedsNodeOpacityUpdate = NeedsNodeOpacityUpdate.
Proof.
  intros Hs. split.
  - unfold has in *. eapply contains_trans; [exact Hs |].
    vm_compute. reflexivity.
  - repeat split; vm_compute; reflexivity.
Qed.

Lemma opacity_update_implies_data_update_witness :
  has 65 NodeOpacityUpdate /\ has 65 DataUpdate.
Proof.
  assert (H : has 65 NodeOpacityUpdate) by (vm_compute; reflexivity).
  split; [exact H |].
  exact (proj1 (opacity_update_implies_data_update 65 H)).
Defined.

(** *** The enumerators each enumerator is defined with *)

(** The enumerators that appear in the definition of an enumerator, as the
    enum lists them, and the bit the definition adds. *)
Definition definedWith (f : flag) : list flag :=
  match f with
  | DataUpdate => []
  | DataAttachmentUpdate => [DataUpdate]
  | NodeEnabledUpdate => [DataAttachmentUpdate]
  | NodeClipUpdate => [NodeEnabledUpdate]
  | LayoutUpdate => [NodeClipUpdate]
  | LayoutAssignmentUpdate => [LayoutUpdate]
  | NodeOpacityUpdate => [DataUpdate]
  | NodeUpdate => [LayoutAssignmentUpdate; NodeOpacityUpdate]
  | DataClean => []
  | NodeClean => [NodeUpdate; DataClean]
  | AnimationAdvance => []
  end.

Definition ownBit (f : flag) : Z :=
  match f with
  | DataUpdate => 0
  | DataAttachmentUpdate => 1
  | NodeEnabledUpdate => 2
  | NodeClipUpdate => 3
  | LayoutUpdate => 4
  | LayoutAssignmentUpdate => 5
  | NodeOpacityUpdate => 6
  | NodeUpdate => 7
  | DataClean => 8
  | NodeClean => 9
  | AnimationAdvance => 10
  end.

Definition flag_eqb (X Y : flag) : bool := ownBit X =? ownBit Y.

(** The enumerators reached from [f] through at most [depth] definitions. *)
Fixpoint reached (depth : nat) (f : flag) : list flag :=
  f :: match depth with
       | O => []
       | S depth => flat_map (reached depth) (definedWith f)
       end.

(** [includes X Y]: the definition of X mentions Y, directly or through
    the enumerators it is defined with (the enum has eleven enumerators, so
    no chain is longer than that). *)
Definition includes (X Y : flag) : bool :=
  existsb (flag_eqb Y) (reached 11 X).

Lemma value_definedWith f :
  value f =
  fold_right Z.lor (Z.shiftl 1 (ownBit f)) (map value (definedWith f)).
Proof. destruct f; reflexivity. Qed.

(** The bits of the enumerators say what the definitions say and nothing
    more: the value of X bit-contains the value of Y, so that a state with
    X set also has Y set, exactly when the definition of X includes Y.  In
    particular NeedsAnimationAdvance neither contains nor is contained in
    any other state, and NeedsDataClean is contained in NeedsNodeClean
    only. *)
Theorem contains_iff_includes (X Y : flag) :
  Z.land (value X) (value Y) = value Y <-> includes X Y = true.
Proof.
  destruct X, Y; vm_compute; split; congruence.
Qed.

End UserInterfaceState.

(** ** Handles *)

Module Handle.

(** *** Packing an id and a generation into an integer *)

(** The shape shared by all handle families: the id in the low [idBits]
    bits, the generation above it. *)
Definition compose (idBits id generation : Z) : Z :=
  Z.lor id (Z.shiftl generation idBits).
Definition extractId (idBits handle : Z) : Z :=
  Z.land handle (Z.shiftl 1 idBits - 1).
Definition extractGeneration (idBits handle : Z) : Z :=
  Z.shiftr handle idBits.

(** *** FontHandle (Whee/TextLayer.h) *)

Definition FontHandleIdBits : Z := 15.
Definition FontHandleGenerationBits : Z := 1.

(** [enum class FontHandle: UnsignedShort { Null = 0 }] *)
Definition FontHandle_Null : Z := 0.

(** The condition of the debug assertion in [fontHandle()]. *)
Definition fontHandleExpects (id generation : Z) : bool :=
  (id <? Z.shiftl 1 FontHandleIdBits) &&
  (generation <? Z.shiftl 1 FontHandleGenerationBits).

(** [FontHandle(id|(generation << Implementation::FontHandleIdBits))], the
    shift and the or on [UnsignedInt], the cast to the [UnsignedShort]
    enum. *)
Definition fontHandle (id generation : Z) : Z :=
  u16 (Z.lor id (u32 (Z.shiftl generation FontHandleIdBits))).

(** [UnsignedInt(handle) & ((1 << Implementation::FontHandleIdBits) - 1)] *)
Definition fontHandleId (handle : Z) : Z :=
  Z.land handle (Z.shiftl 1 FontHandleIdBits - 1).

(** [UnsignedInt(handle) >> Implementation::FontHandleIdBits] *)
Definition fontHandleGeneration (handle : Z) : Z :=
  Z.shiftr handle FontHandleIdBits.

(** [Whee::isHandleValid(fonts, handle)] of TextLayer.cpp, which looks at
    the size of the font array only. *)
Definition isFontHandleValid (fontCount : Z) (handle : Z) : bool :=
  (fontHandleGeneration handle =? 1) && (fontHandleId handle <? fontCount).

(** *** Layer, node and data handles *)

(** Modelled from the spec: Whee/Handle.h is missing; only its test
    (Whee/Test/HandleTest.cpp) is present.  The specification gives the
    layouts: layer, layouter and animator handles have an 8-bit id and an
    8-bit generation, node handles a 20-bit id and a 12-bit generation, and a
    composite data handle embeds the layer handle above a local handle with a
    20-bit id and a 12-bit generation.  The values are checked against the
    expectations of the test below. *)
Definition LayerHandleIdBits : Z := 8.
Definition LayerHandleGenerationBits : Z := 8.
Definition NodeHandleIdBits : Z := 20.
Definition NodeHandleGenerationBits : Z := 12.
Definition LayerDataHandleIdBits : Z := 20.
Definition LayerDataHandleGenerationBits : Z := 12.

Definition LayerHandle_Null : Z := 0.
Definition NodeHandle_Null : Z := 0.
Definition LayerDataHandle_Null : Z := 0.
Definition DataHandle_Null : Z := 0.

Definition layerHandle (id generation : Z) : Z :=
  compose LayerHandleIdBits id generation.
Definition layerHandleId (handle : Z) : Z := extractId LayerHandleIdBits handle.
Definition layerHandleGeneration (handle : Z) : Z :=
  extractGeneration LayerHandleIdBits handle.

Definition nodeHandle (id generation : Z) : Z :=
  compose NodeHandleIdBits id generation.
Definition nodeHandleId (handle : Z) : Z := extractId NodeHandleIdBits handle.
Definition nodeHandleGeneration (handle : Z) : Z :=
  extractGeneration NodeHandleIdBits handle.

Definition layerDataHandle (id generation : Z) : Z :=
  compose LayerDataHandleIdBits id generation.
Definition layerDataHandleId (handle : Z) : Z :=
  extractId LayerDataHandleIdBits handle.
Definition layerDataHandleGeneration (handle : Z) : Z :=
  extractGeneration LayerDataHandleIdBits handle.

(** Modelled from the spec: the composite handle of Whee/Handle.h (missing),
    the layer handle above the 32 bits of the layer data handle. *)
Definition dataHandle (layer id generation : Z) : Z :=
  Z.lor (layerDataHandle id generation)
        (Z.shiftl layer (LayerDataHandleIdBits + LayerDataHandleGenerationBits)).
Definition dataHandleLayer (handle : Z) : Z :=
  Z.shiftr handle (LayerDataHandleIdBits + LayerDataHandleGenerationBits).
Definition dataHandleData (handle : Z) : Z :=
  Z.land handle
    (Z.shiftl 1 (LayerDataHandleIdBits + LayerDataHandleGenerationBits) - 1).
Definition dataHandleLayerId (handle : Z) : Z :=
  layerHandleId (dataHandleLayer handle).
Definition dataHandleLayerGeneration (handle : Z) : Z :=
  layerHandleGeneration (dataHandleLayer handle).
Definition dataHandleId (handle : Z) : Z :=
  layerDataHandleId (dataHandleData handle).
Definition dataHandleGeneration (handle : Z) : Z :=
  layerDataHandleGeneration (dataHandleData handle).

(** Modelled from the spec: the slot registries behind
    [isHandleValid(LayerHandle)], [isHandleValid(NodeHandle)] and
    [AbstractLayer::isHandleValid(LayerDataHandle)] are missing
    (AbstractUserInterface.cpp, AbstractLayer.cpp).  A handle is valid iff it
    is not Null, its id is below the capacity, the slot is occupied and the
    slot generation equals the handle generation. *)
Record Slot : Set := { slotGeneration : Z; slotUsed : bool }.

Definition isHandleValid (idBits : Z) (slots : list Slot) (handle : Z) : bool :=
  negb (handle =? 0) &&
  match slots !! Z.to_nat (extractId idBits handle) with
  | Some slot =>
      slotUsed slot && (slotGeneration slot =? extractGeneration idBits handle)
  | None => false
  end.

(** A data handle is valid when its layer handle is and its layer data handle
    is valid in that layer. *)
Definition isDataHandleValid (layers : list Slot) (layerData : Z -> list Slot)
    (handle : Z) : bool :=
  isHandleValid LayerHandleIdBits layers (dataHandleLayer handle) &&
  isHandleValid LayerDataHandleIdBits (layerData (dataHandleLayerId handle))
    (dataHandleData handle).

(** The expectations of HandleTest::layer(), ::layerData(), ::data() and
    ::node(). *)
Example HandleTest_layer :
  layerHandle 0 0 = LayerHandle_Null /\
  layerHandle 0xab 0x12 = 0x12ab /\
  layerHandle 0xff 0xff = 0xffff /\
  layerHandleId 0x12ab = 0xab /\
  layerHandleGeneration 0x12ab = 0x12.
Proof. repeat split. Qed.

Example HandleTest_layerData :
  layerDataHandle 0 0 = LayerDataHandle_Null /\
  layerDataHandle 0xabcde 0x123 = 0x123abcde /\
  layerDataHandle 0xfffff 0xfff = 0xffffffff /\
  layerDataHandleId 0x123abcde = 0xabcde /\
  layerDataHandleGeneration 0x123abcde = 0x123.
Proof. repeat split. Qed.

Example HandleTest_data :
  dataHandle LayerHandle_Null 0 0 = DataHandle_Null /\
  dataHandle 0x12ab 0x34567 0xcde = 0x12abcde34567 /\
  dataHandle 0xffff 0xfffff 0xfff = 0xffffffffffff /\
  dataHandleLayer 0x12abcde34567 = 0x12ab /\
  dataHandleData 0x12abcde34567 = 0xcde34567 /\
  dataHandleLayerId 0x12abcde34567 = 0xab /\
  dataHandleLayerGeneration 0x12abcde34567 = 0x12 /\
  dataHandleId 0x12abcde34567 = 0x34567 /\
  dataHandleGeneration 0x12abcde34567 = 0xcde.
Proof. repeat split. Qed.

Example HandleTest_node :
  nodeHandle 0 0 = NodeHandle_Null /\
  nodeHandle 0xabcde 0x123 = 0x123abcde /\
  nodeHandle 0xfffff 0xfff = 0xffffffff /\
  nodeHandleId 0x123abcde = 0xabcde /\
  nodeHandleGeneration 0x123abcde = 0x123.
Proof. repeat split. Qed.

(** *** Round trips *)

Lemma shiftl_1_ones n : 0 <= n -> Z.shiftl 1 n - 1 = Z.ones n.
Proof.
  intros Hn. rewrite Z.ones_equiv, Z.shiftl_1_l. lia.
Qed.

Lemma low_high_disjoint n a b :
  0 <= n -> 0 <= a < 2 ^ n -> Z.land a (Z.shiftl b n) = 0.
Proof.
  intros Hn Ha. apply Z.bits_inj'. intros i Hi.
  rewrite Z.land_spec, Z.bits_0.
  destruct (Z.lt_ge_cases i n) as [Hlt | Hge].
  - rewrite (Z.shiftl_spec_low b n i Hlt). apply andb_false_r.
  - replace (Z.testbit a i) with false; [reflexivity |].
    symmetry. rewrite <- (Z.mod_small a (2 ^ n)) by exact Ha.
    apply Z.mod_pow2_bits_high. lia.
Qed.

Lemma compose_add n a b :
  0 <= n -> 0 <= a < 2 ^ n -> compose n a b = a + b * 2 ^ n.
Proof.
  intros Hn Ha. unfold compose.
  pose proof (low_high_disjoint n a b Hn Ha) as Hd.
  rewrite <- Z.lxor_lor by exact Hd.
  rewrite <- Z.add_nocarry_lxor by exact Hd.
  rewrite Z.shiftl_mul_pow2 by exact Hn. reflexivity.
Qed.

Lemma extractId_compose n id generation :
  0 <= n -> 0 <= id < 2 ^ n -> extractId n (compose n id generation) = id.
Proof.
  intros Hn Hid. unfold extractId.
  rewrite shiftl_1_ones, Z.land_ones by exact Hn.
  rewrite compose_add by assumption.
  rewrite Z.mod_add by lia. apply Z.mod_small. exact Hid.
Qed.

Lemma extractGeneration_compose n id generation :
  0 <= n -> 0 <= id < 2 ^ n ->
  extractGeneration n (compose n id generation) = generation.
Proof.
  intros Hn Hid. unfold extractGeneration.
  rewrite Z.shiftr_div_pow2 by exact Hn.
  rewrite compose_add by assumption.
  rewrite Z.div_add by lia. rewrite Z.div_small by exact Hid. lia.
Qed.

Lemma compose_bound n m id generation :
  0 <= n -> 0 <= m -> 0 <= id < 2 ^ n -> 0 <= generation < 2 ^ m ->
  0 <= compose n id generation < 2 ^ (n + m).
Proof.
  intros Hn Hm Hid Hg. rewrite compose_add by assumption.
  rewrite Z.pow_add_r by assumption. nia.
Qed.

Lemma fontHandle_compose id generation :
  0 <= id < 2 ^ 15 -> 0 <= generation < 2 ^ 1 ->
  fontHandle id generation = compose FontHandleIdBits id generation.
Proof.
  intros Hid Hg. unfold fontHandle.
  assert (Hs : 0 <= Z.shiftl generation FontHandleIdBits < 2 ^ 32).
  { unfold FontHandleIdBits. rewrite Z.shiftl_mul_pow2 by lia.
    change (2 ^ 1) with 2 in Hg. change (2 ^ 15) with 32768.
    change (2 ^ 32) with 4294967296. lia. }
  rewrite (u32_small _ Hs). apply u16_small.
  change (Z.lor id (Z.shiftl generation FontHandleIdBits))
    with (compose FontHandleIdBits id generation).
  change 16 with (FontHandleIdBits + 1).
  apply compose_bound; unfold FontHandleIdBits; lia.
Qed.

Lemma fontHandleExpects_bounds id generation :
  0 <= id -> 0 <= generation -> fontHandleExpects id generation = true ->
  0 <= id < 2 ^ 15 /\ 0 <= generation < 2 ^ 1.
Proof.
  unfold fontHandleExpects. intros Hid Hg H.
  apply andb_true_iff in H. destruct H as [H1 H2].
  apply Z.ltb_lt in H1. apply Z.ltb_lt in H2.
  change (Z.shiftl 1 FontHandleIdBits) with (2 ^ 15) in H1.
  change (Z.shiftl 1 FontHandleGenerationBits) with (2 ^ 1) in H2.
  lia.
Qed.

Lemma fontHandle_round_trip id generation :
  0 <= id -> 0 <= generation -> fontHandleExpects id generation = true ->
  fontHandleId (fontHandle id generation) = id /\
  fontHandleGeneration (fontHandle id generation) = generation.
Proof.
  intros Hid Hg He.
  destruct (fontHandleExpects_bounds id generation Hid Hg He) as [Hi Hgen].
  rewrite (fontHandle_compose id generation Hi Hgen). split.
  - apply (extractId_compose FontHandleIdBits); [discriminate | exact Hi].
  - apply (extractGeneration_compose FontHandleIdBits);
      [discriminate | exact Hi].
Qed.

Lemma isHandleValid_Null idBits slots : isHandleValid idBits slots 0 = false.
Proof. reflexivity. Qed.

Lemma dataHandle_add layer id generation :
  0 <= id < 2 ^ 20 -> 0 <= generation < 2 ^ 12 ->
  dataHandle layer id generation =
  compose 32 (layerDataHandle id generation) layer /\
  0 <= layerDataHandle id generation < 2 ^ 32.
Proof.
  intros Hid Hg. split; [reflexivity |].
  unfold layerDataHandle. change 32 with (LayerDataHandleIdBits + 12).
  apply compose_bound; unfold LayerDataHandleIdBits; lia.
Qed.

Lemma dataHandleLayer_dataHandle layer id generation :
  0 <= id < 2 ^ 20 -> 0 <= generation < 2 ^ 12 ->
  dataHandleLayer (dataHandle layer id generation) = layer.
Proof.
  intros Hid Hg. destruct (dataHandle_add layer id generation Hid Hg) as [-> Hb].
  apply (extractGeneration_compose 32); [lia | exact Hb].
Qed.

Lemma dataHandleData_dataHandle layer id generation :
  0 <= id < 2 ^ 20 -> 0 <= generation < 2 ^ 12 ->
  dataHandleData (dataHandle layer id generation) = layerDataHandle id generation.
Proof.
  intros Hid Hg. destruct (dataHandle_add layer id generation Hid Hg) as [-> Hb].
  apply (extractId_compose 32); [lia | exact Hb].
Qed.

(** C2: handle round trip.  For the font handle of TextLayer.h, for the
    layer, node, layer data and composite data handles, and for any family
    packed the same way (layouter and animator handles are packed like layer
    handles, layout and animation handles like data handles), extracting
    the id and the generation from the handle composed of an id and a
    generation within the family's bit bounds gives the pair back; the Null
    handle of each family decomposes to (0, 0), is the handle composed from
    (0, 0), and is never reported valid. *)
Theorem handle_round_trip :
  (forall id generation, 0 <= id -> 0 <= generation ->
     fontHandleExpects id generation = true ->
     fontHandleId (fontHandle id generation) = id /\
     fontHandleGeneration (fontHandle id generation) = generation) /\
  (forall idBits id generation, 0 <= idBits -> 0 <= id < 2 ^ idBits ->
     extractId idBits (compose idBits id generation) = id /\
     extractGeneration idBits (compose idBits id generation) = generation) /\
  (forall id generation, 0 <= id < 2 ^ 8 -> 0 <= generation < 2 ^ 8 ->
     layerHandleId (layerHandle id generation) = id /\
     layerHandleGeneration (layerHandle id generation) = generation) /\
  (forall id generation, 0 <= id < 2 ^ 20 -> 0 <= generation < 2 ^ 12 ->
     nodeHandleId (nodeHandle id generation) = id /\
     nodeHandleGeneration (nodeHandle id generation) = generation) /\
  (forall id generation, 0 <= id < 2 ^ 20 -> 0 <= generation < 2 ^ 12 ->
     layerDataHandleId (layerDataHandle id generation) = id /\
     layerDataHandleGeneration (layerDataHandle id generation) = generation) /\
  (forall layerId layerGeneration id generation,
     0 <= layerId < 2 ^ 8 -> 0 <= layerGeneration < 2 ^ 8 ->
     0 <= id < 2 ^ 20 -> 0 <= generation < 2 ^ 12 ->
     let handle := dataHandle (layerHandle layerId layerGeneration) id generation in
     dataHandleLayerId handle = layerId /\
     dataHandleLayerGeneration handle = layerGeneration /\
     dataHandleId handle = id /\
     dataHandleGeneration handle = generation) /\
  (fontHandleId FontHandle_Null = 0 /\
   fontHandleGeneration FontHandle_Null = 0 /\
   fontHandle 0 0 = FontHandle_Null /\
   forall fontCount, isFontHandleValid fontCount FontHandle_Null = false) /\
  (layerHandleId LayerHandle_Null = 0 /\
   layerHandleGeneration LayerHandle_Null = 0 /\
   layerHandle 0 0 = LayerHandle_Null /\
   forall slots, isHandleValid LayerHandleIdBits slots LayerHandle_Null = false) /\
  (nodeHandleId NodeHandle_Null = 0 /\
   nodeHandleGeneration NodeHandle_Null = 0 /\
   nodeHandle 0 0 = NodeHandle_Null /\
   forall slots, isHandleValid NodeHandleIdBits slots NodeHandle_Null = false) /\
  (dataHandleLayerId DataHandle_Null = 0 /\
   dataHandleLayerGeneration DataHandle_Null = 0 /\
   dataHandleId DataHandle_Null = 0 /\
   dataHandleGeneration DataHandle_Null = 0 /\
   dataHandle LayerHandle_Null 0 0 = DataHandle_Null /\
   forall layers layerData,
     isDataHandleValid layers layerData DataHandle_Null = false).
Proof.
  split; [| split; [| split; [| split; [| split; [| split]]]]].
  - exact fontHandle_round_trip.
  - intros idBits id generation Hbits Hid. split.
    + apply extractId_compose; assumption.
    + apply extractGeneration_compose; assumption.
  - intros id generation Hid Hg. split.
    + apply extractId_compose; [discriminate | exact Hid].
    + apply extractGeneration_compose; [discriminate | exact Hid].
  - intros id generation Hid Hg. split.
    + apply extractId_compose; [discriminate | exact Hid].
    + apply extractGeneration_compose; [discriminate | exact Hid].
  - intros id generation Hid Hg. split.
    + apply extractId_compose; [discriminate | exact Hid].
    + apply extractGeneration_compose; [discriminate | exact Hid].
  - intros layerId layerGeneration id generation Hl Hlg Hid Hg handle.
    subst handle.
    unfold dataHandleLayerId, dataHandleLayerGeneration, dataHandleId,
      dataHandleGeneration.
    rewrite dataHandleLayer_dataHandle, dataHandleData_dataHandle by assumption.
    repeat split.
    + apply extractId_compose; [discriminate | exact Hl].
    + apply extractGeneration_compose; [discriminate | exact Hl].
    + apply extractId_compose; [discriminate | exact Hid].
    + apply extractGeneration_compose; [discriminate | exact Hid].
  - repeat split; reflexivity.
Qed.

Lemma handle_round_trip_witness :
  (fontHandleId (fontHandle 0x7abc 1) = 0x7abc /\
   fontHandleGeneration (fontHandle 0x7abc 1) = 1) /\
  (nodeHandleId (nodeHandle 0xabcde 0x123) = 0xabcde /\
   nodeHandleGeneration (nodeHandle 0xabcde 0x123) = 0x123) /\
  dataHandleId (dataHandle (layerHandle 0xab 0x12) 0x34567 0xcde) = 0x34567.
Proof.
  destruct handle_round_trip as (Hfont & _ & _ & Hnode & _ & Hdata & _).
  split; [| split].
  - apply Hfont; [lia | lia | reflexivity].
  - apply Hnode; lia.
  - apply (Hdata 0xab 0x12 0x34567 0xcde); lia.
Defined.

(** *** Font handles, from the handle to its parts *)

Lemma fontHandleId_mod handle :
  fontHandleId handle = handle mod 2 ^ 15.
Proof.
  unfold fontHandleId, FontHandleIdBits.
  rewrite shiftl_1_ones by lia. apply Z.land_ones. lia.
Qed.

Lemma fontHandleGeneration_div handle :
  fontHandleGeneration handle = handle / 2 ^ 15.
Proof.
  unfold fontHandleGeneration, FontHandleIdBits.
  apply Z.shiftr_div_pow2. lia.
Qed.

Lemma fontHandle_parts_bounds handle :
  0 <= handle < 2 ^ 16 ->
  0 <= fontHandleId handle < 2 ^ 15 /\
  0 <= fontHandleGeneration handle < 2 ^ 1.
Proof.
  intros H. rewrite fontHandleId_mod, fontHandleGeneration_div.
  change (2 ^ 16) with 65536 in H. change (2 ^ 15) with 32768.
  change (2 ^ 1) with 2.
  split; [apply Z.mod_pos_bound; lia |].
  split; [apply Z.div_pos; lia | apply Z.div_lt_upper_bound; lia].
Qed.

Lemma fontHandle_recompose handle :
  0 <= handle < 2 ^ 16 ->
  fontHandle (fontHandleId handle) (fontHandleGeneration handle) = handle.
Proof.
  intros H. destruct (fontHandle_parts_bounds handle H) as [Hid Hgen].
  rewrite (fontHandle_compose _ _ Hid Hgen).
  rewrite compose_add by (unfold FontHandleIdBits; first [lia | exact Hid]).
  rewrite fontHandleId_mod, fontHandleGeneration_div.
  unfold FontHandleIdBits.
  pose proof (Z.div_mod handle (2 ^ 15)). lia.
Qed.

(** Every value of the [UnsignedShort] behind [FontHandle] is the handle of
    its own id and generation: the two parts are within the 15 and 1 bits
    that the assertion of [fontHandle()] expects, and composing them gives
    the handle back. *)
Theorem fontHandle_of_parts handle :
  0 <= handle < 2 ^ 16 ->
  fontHandleExpects (fontHandleId handle) (fontHandleGeneration handle) = true /\
  fontHandle (fontHandleId handle) (fontHandleGeneration handle) = handle.
Proof.
  intros H. split; [| exact (fontHandle_recompose handle H)].
  destruct (fontHandle_parts_bounds handle H) as [Hid Hgen].
  unfold fontHandleExpects. apply andb_true_iff.
  change (Z.shiftl 1 FontHandleIdBits) with (2 ^ 15).
  change (Z.shiftl 1 FontHandleGenerationBits) with (2 ^ 1).
  split; apply Z.ltb_lt; lia.
Qed.

Lemma fontHandle_of_parts_witness :
  fontHandleExpects (fontHandleId 0xfabc) (fontHandleGeneration 0xfabc) = true /\
  fontHandle (fontHandleId 0xfabc) (fontHandleGeneration 0xfabc) = 0xfabc.
Proof.
  apply (fontHandle_of_parts 0xfabc). vm_compute. split; congruence.
Defined.

(** The font handles [isHandleValid()] of TextLayer.cpp accepts for an
    array of [fontCount] fonts are exactly the handles [fontHandle(id, 1)]
    with [id] below [fontCount], the ones [addFont()] has returned so far;
    [FontHandle::Null] is not among them. *)
Theorem isFontHandleValid_iff fontCount handle :
  0 <= fontCount <= 2 ^ 15 -> 0 <= handle < 2 ^ 16 ->
  isFontHandleValid fontCount handle = true <->
  exists id, 0 <= id < fontCount /\ handle = fontHandle id 1.
Proof.
  intros Hcount Hhandle. unfold isFontHandleValid. split.
  - intros H. apply andb_true_iff in H. destruct H as [Hgen Hid].
    apply Z.eqb_eq in Hgen. apply Z.ltb_lt in Hid.
    destruct (fontHandle_parts_bounds handle Hhandle) as [Hb _].
    exists (fontHandleId handle). split; [lia |].
    rewrite <- Hgen. symmetry. exact (fontHandle_recompose handle Hhandle).
  - intros (id & Hid & ->).
    assert (He : fontHandleExpects id 1 = true).
    { unfold fontHandleExpects. apply andb_true_iff.
      change (Z.shiftl 1 FontHandleIdBits) with (2 ^ 15).
      split; [apply Z.ltb_lt; lia | reflexivity]. }
    destruct (fontHandle_round_trip id 1) as [-> ->]; [lia | lia | exact He |].
    apply andb_true_iff. split; [reflexivity | apply Z.ltb_lt; lia].
Qed.

Lemma isFontHandleValid_iff_witness :
  isFontHandleValid 3 0x8002 = true <->
  exists id, 0 <= id < 3 /\ 0x8002 = fontHandle id 1.
Proof.
  apply (isFontHandleValid_iff 3 0x8002); vm_compute; split; congruence.
Defined.

End Handle.

(** ** TextLayer::Shared: the font registry (Whee/TextLayer.cpp) *)

Module TextLayerShared.

Import Handle.

(** Modelled from the spec: [Implementation::TextLayerStyle] of
    Whee/Implementation/textLayerState.h, which is missing; the fields are
    the ones TextLayer.cpp reads and writes. *)
Module TextLayerStyle.

Record t (Float : Type) : Type := {
  uniform : Z;
  font : Z;
  padding : Float * Float * Float * Float
}.

Arguments uniform {Float} _.
Arguments font {Float} _.
Arguments padding {Float} _.

Definition withUniform {Float} (value : Z) (style : t Float) : t Float :=
  {| uniform := value; font := font style; padding := padding style |}.

Definition withFont {Float} (value : Z) (style : t Float) : t Float :=
  {| uniform := uniform style; font := value; padding := padding style |}.

Definition withPadding {Float} (value : Float * Float * Float * Float)
    (style : t Float) : t Float :=
  {| uniform := uniform style; font := font style; padding := value |}.

End TextLayerStyle.

Section Fonts.

(** What the registry stores but never inspects: font objects
    ([Text::AbstractFont]), shapers, floats, and the glyph cache with its
    [findFont()]. *)
Variable Font : Type.
Variable Shaper : Type.
Variable Float : Type.
Variable GlyphCache : Type.
Variable fontSize : Font -> Float.
Variable fdiv : Float -> Float -> Float.
Variable findFont : GlyphCache -> Font -> option Z.

(** [Implementation::TextLayerFont], in the order [arrayAppend()] fills
    it in [addFont()]. *)
Record TextLayerFont : Type := {
  fontStorage : option Font;
  font : Font;
  shaper : option Shaper;
  scale : Float;
  glyphCacheFontId : Z
}.

(** The part of [TextLayer::Shared::State] the font functions use. *)
Record State : Type := {
  styleUniformCount : Z;
  styleCount : Z;
  glyphCache : option GlyphCache;
  fonts : list TextLayerFont
}.

Definition fontCount (state : State) : Z := Z.of_nat (length (fonts state)).

Definition isHandleValid (state : State) (handle : Z) : bool :=
  isFontHandleValid (Z.of_nat (length (fonts state))) handle.

(** [addFont(Text::AbstractFont&, Float)]; a failed assertion is [None]. *)
Definition addFont (state : State) (font : Font) (size : Float)
    : option (State * Z) :=
  cache ← glyphCache state;
  glyphCacheFontId ← findFont cache font;
  if negb (Z.of_nat (length (fonts state)) <? Z.shiftl 1 FontHandleIdBits)
  then None
  else
    let fonts' :=
      fonts state ++
      [ {| fontStorage := None; font := font; shaper := None;
           scale := fdiv size (fontSize font);
           glyphCacheFontId := glyphCacheFontId |} ] in
    let state' :=
      {| styleUniformCount := styleUniformCount state;
         styleCount := styleCount state;
         glyphCache := glyphCache state;
         fonts := fonts' |} in
    let id := u32 (u64 (Z.of_nat (length fonts') - 1)) in
    if fontHandleExpects id 1
    then Some (state', fontHandle id 1)
    else None.

(** [fonts.back().fontStorage = Utility::move(font)] *)
Definition setBackFontStorage (fonts : list TextLayerFont) (storage : Font)
    : list TextLayerFont :=
  match reverse fonts with
  | [] => fonts
  | back :: front =>
      reverse front ++
      [ {| fontStorage := Some storage; font := font back;
           shaper := shaper back; scale := scale back;
           glyphCacheFontId := glyphCacheFontId back |} ]
  end.

(** [addFont(Containers::Pointer<Text::AbstractFont>&&, Float)]; the
    pointer may be null. *)
Definition addFontOwned (state : State) (font : option Font) (size : Float)
    : option (State * Z) :=
  font ← font;
  '(state', handle) ← addFont state font size;
  Some ({| styleUniformCount := styleUniformCount state';
           styleCount := styleCount state';
           glyphCache := glyphCache state';
           fonts := setBackFontStorage (fonts state') font |}, handle).

(** What the specification says about a call: handles valid before stay
    valid, the new handle has the old font count as its id and generation
    1 and is valid, and the font count grows by one. *)
Definition grows (state state' : State) (handle : Z) : Prop :=
  (forall other : Z,
     isHandleValid state other = true -> isHandleValid state' other = true) /\
  fontHandleId handle = fontCount state /\
  fontHandleGeneration handle = 1 /\
  isHandleValid state' handle = true /\
  fontCount state' = fontCount state + 1.

(** *** Properties of the font registry *)

Lemma setBackFontStorage_length fonts storage :
  length (setBackFontStorage fonts storage) = length fonts.
Proof.
  unfold setBackFontStorage.
  destruct (reverse fonts) as [| back front] eqn:Hr; [reflexivity |].
  rewrite length_app, length_reverse. simpl.
  rewrite <- (length_reverse fonts), Hr. simpl. lia.
Qed.

Lemma isHandleValid_mono state state' handle :
  fontCount state <= fontCount state' ->
  isHandleValid state handle = true -> isHandleValid state' handle = true.
Proof.
  unfold isHandleValid, isFontHandleValid, fontCount. intros Hle H.
  apply andb_true_iff in H. destruct H as [Hg Hi].
  apply andb_true_iff. split; [exact Hg |].
  apply Z.ltb_lt. apply Z.ltb_lt in Hi. lia.
Qed.

Lemma addFont_grows state font size cache id :
  glyphCache state = Some cache ->
  findFont cache font = Some id ->
  fontCount state < 2 ^ 15 ->
  exists state' handle,
    addFont state font size = Some (state', handle) /\
    grows state state' handle /\
    fonts state' =
      fonts state ++
      [ {| fontStorage := None; font := font; shaper := None;
           scale := fdiv size (fontSize font); glyphCacheFontId := id |} ].
Proof.
  intros Hcache Hfind Hcount. unfold fontCount in Hcount.
  unfold addFont. rewrite Hcache. simpl. rewrite Hfind. simpl.
  change (Z.shiftl 1 FontHandleIdBits) with (2 ^ 15).
  destruct (Z.ltb_spec (Z.of_nat (length (fonts state))) (2 ^ 15)) as [_ | Hge];
    [| lia].
  simpl. rewrite length_app. simpl length.
  replace (Z.of_nat (length (fonts state) + 1) - 1)
    with (Z.of_nat (length (fonts state))) by lia.
  assert (Hn : 0 <= Z.of_nat (length (fonts state)) < 2 ^ 15) by lia.
  rewrite u64_small by (change (2 ^ 15) with 32768 in Hn;
                        change (2 ^ 64) with 18446744073709551616; lia).
  rewrite u32_small by (change (2 ^ 15) with 32768 in Hn;
                        change (2 ^ 32) with 4294967296; lia).
  assert (He : fontHandleExpects (Z.of_nat (length (fonts state))) 1 = true).
  { unfold fontHandleExpects. apply andb_true_iff. split; [| reflexivity].
    apply Z.ltb_lt. change (Z.shiftl 1 FontHandleIdBits) with (2 ^ 15). lia. }
  rewrite He. eexists _, _. split; [reflexivity |]. split; [| reflexivity].
  destruct (fontHandle_round_trip (Z.of_nat (length (fonts state))) 1)
    as [Hid Hgen]; [lia | lia | exact He |].
  unfold grows, isHandleValid, fontCount. simpl fonts.
  rewrite length_app. simpl length.
  split; [| split; [exact Hid | split; [exact Hgen | split]]].
  - intros other H. apply andb_true_iff in H. destruct H as [Hg Hi].
    unfold isFontHandleValid. apply andb_true_iff. split; [exact Hg |].
    apply Z.ltb_lt. apply Z.ltb_lt in Hi. lia.
  - unfold isFontHandleValid. rewrite Hid, Hgen.
    apply andb_true_iff. split; [reflexivity |]. apply Z.ltb_lt. lia.
  - lia.
Qed.

(** C4: registry growth never invalidates existing handles.  When the
    assertions of [addFont()] hold (a glyph cache is set, it knows the
    font, and there are fewer than 2^15 fonts), either overload returns;
    every font handle that was valid before the call is valid after it,
    the returned handle has the previous [fontCount()] as its id and
    generation 1 and is valid afterwards, and [fontCount()] has grown by
    exactly one. *)
Theorem addFont_keeps_handles_valid state font size cache id :
  glyphCache state = Some cache ->
  findFont cache font = Some id ->
  fontCount state < 2 ^ 15 ->
  (exists state' handle,
     addFont state font size = Some (state', handle) /\
     grows state state' handle) /\
  (exists state' handle,
     addFontOwned state (Some font) size = Some (state', handle) /\
     grows state state' handle).
Proof.
  intros Hcache Hfind Hcount.
  destruct (addFont_grows state font size cache id Hcache Hfind Hcount)
    as (state' & handle & Hadd & Hgrows & _).
  split; [exists state', handle; split; assumption |].
  unfold addFontOwned. simpl. rewrite Hadd. simpl.
  eexists _, _. split; [reflexivity |].
  destruct Hgrows as (Hold & Hid & Hgen & Hnew & Hsize).
  unfold grows, isHandleValid, fontCount in *. simpl fonts.
  rewrite setBackFontStorage_length.
  repeat split; assumption.
Qed.

(** *** The glyph cache, the font getters and the styles *)

(** What the style functions pass on and never inspect: the uniform
    structs ([TextLayerCommonStyleUniform], [TextLayerStyleUniform]), and
    the state of the subclass, which the pure virtual [doSetStyle()]
    updates.  [fzero] is the [Float] zero of a default-constructed vector,
    [uninitializedStyle] what an array created with [NoInit] holds. *)
Variable CommonUniform : Type.
Variable Uniform : Type.
Variable Derived : Type.
Variable doSetStyle : CommonUniform -> list Uniform -> Derived -> Derived.
Variable fzero : Float.
Variable uninitializedStyle : TextLayerStyle.t Float.

Abbreviation Vector4 := (Float * Float * Float * Float)%type.

(** [setGlyphCache()], which expects that no glyph cache is set yet. *)
Definition setGlyphCache (state : State) (cache : GlyphCache) : option State :=
  match glyphCache state with
  | Some _ => None
  | None =>
      Some {| styleUniformCount := styleUniformCount state;
              styleCount := styleCount state;
              glyphCache := Some cache;
              fonts := fonts state |}
  end.

Definition hasGlyphCache (state : State) : bool :=
  match glyphCache state with
  | Some _ => true
  | None => false
  end.

(** [glyphCacheFontId(FontHandle)] and [font(FontHandle)]: the assertion
    on the handle, then the array access. *)
Definition Shared_glyphCacheFontId (state : State) (handle : Z) : option Z :=
  if isHandleValid state handle
  then glyphCacheFontId <$> fonts state !! Z.to_nat (fontHandleId handle)
  else None.

Definition Shared_font (state : State) (handle : Z) : option Font :=
  if isHandleValid state handle
  then font <$> fonts state !! Z.to_nat (fontHandleId handle)
  else None.

(** [Utility::copy(src, stridedArrayView(styles).slice(field))], which
    expects the two views to have the same size; [set] stores into the
    field. *)
Definition copyInto {A}
    (set : A -> TextLayerStyle.t Float -> TextLayerStyle.t Float)
    (src : list A) (styles : list (TextLayerStyle.t Float))
    : option (list (TextLayerStyle.t Float)) :=
  if (length src =? length styles)%nat
  then Some (zip_with set src styles)
  else None.

(** [setStyleInternal()].  [State] above has the fields the font functions
    use; [state.styles] and the state of the subclass are passed and
    returned beside it. *)
Definition setStyleInternal (state : State) (commonUniform : CommonUniform)
    (uniforms : list Uniform) (styleFonts : list Z)
    (stylePaddings : list Vector4) (styles : list (TextLayerStyle.t Float))
    (derived : Derived)
    : option (list (TextLayerStyle.t Float) * Derived) :=
  let styles0 :=
    match styles with
    | [] => replicate (Z.to_nat (styleCount state)) uninitializedStyle
    | _ => styles
    end in
  if negb (Z.of_nat (length uniforms) =? styleUniformCount state) then None
  else if negb (Z.of_nat (length styleFonts) =? styleCount state) then None
  else if negb (match stylePaddings with [] => true | _ => false end ||
                (Z.of_nat (length stylePaddings) =? styleCount state))
  then None
  else if negb (forallb (isHandleValid state) styleFonts) then None
  else
    styles1 ← copyInto TextLayerStyle.withFont styleFonts styles0;
    styles2 ← match stylePaddings with
              | [] =>
                  Some (map (TextLayerStyle.withPadding
                               (fzero, fzero, fzero, fzero)) styles1)
              | _ => copyInto TextLayerStyle.withPadding stylePaddings styles1
              end;
    Some (styles2, doSetStyle commonUniform uniforms derived).

(** [setStyle()] with an explicit mapping from styles to uniforms. *)
Definition setStyle (state : State) (commonUniform : CommonUniform)
    (uniforms : list Uniform) (styleToUniform : list Z) (styleFonts : list Z)
    (stylePaddings : list Vector4) (styles : list (TextLayerStyle.t Float))
    (derived : Derived)
    : option (list (TextLayerStyle.t Float) * Derived) :=
  if negb (Z.of_nat (length styleToUniform) =? styleCount state) then None
  else
    '(styles1, derived1) ← setStyleInternal state commonUniform uniforms
                             styleFonts stylePaddings styles derived;
    styles2 ← copyInto TextLayerStyle.withUniform styleToUniform styles1;
    Some (styles2, derived1).

(** [for(UnsignedInt i = 0; i != state.styleCount; ++i)
    state.styles[i].uniform = i], over the indices still to visit. *)
Fixpoint setUniforms (indices : list nat)
    (styles : list (TextLayerStyle.t Float))
    : option (list (TextLayerStyle.t Float)) :=
  match indices with
  | [] => Some styles
  | i :: rest =>
      style ← styles !! i;
      setUniforms rest
        (<[i := TextLayerStyle.withUniform (Z.of_nat i) style]> styles)
  end.

(** [setStyle()] with the implicit mapping between styles and uniforms. *)
Definition setStyleImplicit (state : State) (commonUniform : CommonUniform)
    (uniforms : list Uniform) (fonts : list Z) (paddings : list Vector4)
    (styles : list (TextLayerStyle.t Float)) (derived : Derived)
    : option (list (TextLayerStyle.t Float) * Derived) :=
  if negb (styleUniformCount state =? styleCount state) then None
  else
    '(styles1, derived1) ← setStyleInternal state commonUniform uniforms
                             fonts paddings styles derived;
    styles2 ← setUniforms (seq 0 (Z.to_nat (styleCount state))) styles1;
    Some (styles2, derived1).

(** The start of [TextLayer::shapeInternal()]: the font is the one of the
    text properties or else the one of the style, and its entry in the
    font array is looked up. *)
Definition shapeFont (state : State) (styles : list (TextLayerStyle.t Float))
    (style : Z) (propertiesFont : Z) : option TextLayerFont :=
  handle ← (if propertiesFont =? FontHandle_Null then
              match styles with
              | [] => None
              | _ => TextLayerStyle.font <$> styles !! Z.to_nat style
              end
            else if isHandleValid state propertiesFont
                 then Some propertiesFont else None);
  fonts state !! Z.to_nat (fontHandleId handle).

(** The padding [setStyle()] stores for style [i]. *)
Definition paddingOf (stylePaddings : list Vector4) (i : nat) : option Vector4 :=
  match stylePaddings with
  | [] => Some (fzero, fzero, fzero, fzero)
  | _ => stylePaddings !! i
  end.

(** A style array that [setStyle()] has filled: one style per
    [styleCount()], each with a valid font handle. *)
Definition stylesSet (state : State) (styles : list (TextLayerStyle.t Float))
    : Prop :=
  Z.of_nat (length styles) = styleCount state /\
  Forall (fun style => isHandleValid state (TextLayerStyle.font style) = true)
    styles.

(** *** Properties of the glyph cache, the getters and the styles *)

Lemma forallb_Forall {A} (f : A -> bool) (l : list A) :
  forallb f l = true <-> Forall (fun x => f x = true) l.
Proof.
  induction l as [| x l IH]; simpl.
  - split; [constructor | reflexivity].
  - rewrite andb_true_iff, IH. split.
    + intros [Hx Hl]. constructor; assumption.
    + intros H. inversion H; subst. split; assumption.
Qed.

Lemma copyInto_Some {A} set (src : list A) styles :
  length src = length styles ->
  copyInto set src styles = Some (zip_with set src styles).
Proof.
  intros H. unfold copyInto. rewrite H, Nat.eqb_refl. reflexivity.
Qed.

Lemma copyInto_inv {A} set (src : list A) styles result :
  copyInto set src styles = Some result ->
  length src = length styles /\ result = zip_with set src styles.
Proof.
  unfold copyInto.
  destruct (Nat.eqb_spec (length src) (length styles)) as [H | H];
    [| discriminate].
  intros Hr. injection Hr as <-. split; [exact H | reflexivity].
Qed.

Lemma zip_with_same_length {A B C} (f : A -> B -> C) l k :
  length l = length k -> length (zip_with f l k) = length k.
Proof. intros H. rewrite length_zip_with. lia. Qed.

(** The array [setStyleInternal()] writes to: the one there is, or a
    fresh one of [styleCount] styles. *)
Definition allocated (state : State) (styles : list (TextLayerStyle.t Float))
    : list (TextLayerStyle.t Float) :=
  match styles with
  | [] => replicate (Z.to_nat (styleCount state)) uninitializedStyle
  | _ => styles
  end.

Lemma allocated_length state styles :
  styles = [] \/ Z.of_nat (length styles) = styleCount state ->
  length (allocated state styles) = Z.to_nat (styleCount state).
Proof.
  intros [-> | H]; simpl.
  - apply length_replicate.
  - destruct styles; simpl in *; [rewrite <- H; reflexivity | lia].
Qed.

(** What the two copies of [setStyleInternal()] leave. *)
Definition withFontsAndPaddings (styleFonts : list Z)
    (stylePaddings : list Vector4) (styles : list (TextLayerStyle.t Float))
    : list (TextLayerStyle.t Float) :=
  match stylePaddings with
  | [] => map (TextLayerStyle.withPadding (fzero, fzero, fzero, fzero))
            (zip_with TextLayerStyle.withFont styleFonts styles)
  | _ => zip_with TextLayerStyle.withPadding stylePaddings
           (zip_with TextLayerStyle.withFont styleFonts styles)
  end.

Lemma withFontsAndPaddings_length styleFonts stylePaddings styles :
  length styleFonts = length styles ->
  stylePaddings = [] \/ length stylePaddings = length styles ->
  length (withFontsAndPaddings styleFonts stylePaddings styles) = length styles.
Proof.
  intros Hf Hp. unfold withFontsAndPaddings.
  destruct stylePaddings as [| p ps].
  - rewrite length_map. apply zip_with_same_length. exact Hf.
  - destruct Hp as [Hp | Hp]; [discriminate |].
    rewrite !length_zip_with. lia.
Qed.

Lemma withFontsAndPaddings_lookup styleFonts stylePaddings styles i f p old :
  styleFonts !! i = Some f -> paddingOf stylePaddings i = Some p ->
  styles !! i = Some old ->
  withFontsAndPaddings styleFonts stylePaddings styles !! i =
  Some {| TextLayerStyle.uniform := TextLayerStyle.uniform old;
          TextLayerStyle.font := f; TextLayerStyle.padding := p |}.
Proof.
  intros Hf Hp Hold. unfold withFontsAndPaddings, paddingOf in *.
  destruct stylePaddings as [| p0 ps].
  - injection Hp as <-.
    rewrite list_lookup_fmap, lookup_zip_with, Hf. simpl. rewrite Hold.
    reflexivity.
  - rewrite !lookup_zip_with, Hp. simpl. rewrite Hf. simpl. rewrite Hold.
    reflexivity.
Qed.

Lemma withFontsAndPaddings_fonts styleFonts stylePaddings styles :
  length styleFonts = length styles ->
  stylePaddings = [] \/ length stylePaddings = length styles ->
  map TextLayerStyle.font
    (withFontsAndPaddings styleFonts stylePaddings styles) = styleFonts.
Proof.
  intros Hf Hp. apply list_eq. intros i. rewrite list_lookup_fmap.
  destruct (styleFonts !! i) as [f |] eqn:Hi.
  - assert (Hlt : (i < length styles)%nat)
      by (rewrite <- Hf; apply lookup_lt_is_Some; eauto).
    destruct (lookup_lt_is_Some_2 _ _ Hlt) as [old Hold].
    assert (Hpad : is_Some (paddingOf stylePaddings i)).
    { unfold paddingOf. destruct stylePaddings as [| p0 ps]; [eauto |].
      destruct Hp as [Hp | Hp]; [discriminate |].
      apply lookup_lt_is_Some. lia. }
    destruct Hpad as [p Hpad].
    rewrite (withFontsAndPaddings_lookup _ _ _ _ _ _ _ Hi Hpad Hold).
    reflexivity.
  - apply lookup_ge_None in Hi.
    rewrite (proj2 (lookup_ge_None _ i)); [reflexivity |].
    rewrite withFontsAndPaddings_length by assumption. lia.
Qed.

Lemma setStyleInternal_spec state commonUniform uniforms styleFonts
    stylePaddings styles derived :
  styles = [] \/ Z.of_nat (length styles) = styleCount state ->
  Z.of_nat (length uniforms) = styleUniformCount state ->
  Z.of_nat (length styleFonts) = styleCount state ->
  stylePaddings = [] \/ Z.of_nat (length stylePaddings) = styleCount state ->
  Forall (fun handle => isHandleValid state handle = true) styleFonts ->
  setStyleInternal state commonUniform uniforms styleFonts stylePaddings
    styles derived =
  Some (withFontsAndPaddings styleFonts stylePaddings (allocated state styles),
        doSetStyle commonUniform uniforms derived).
Proof.
  intros Hstyles Huniforms Hfonts Hpaddings Hvalid.
  pose proof (allocated_length state styles Hstyles) as Hlen.
  unfold setStyleInternal. fold (allocated state styles).
  rewrite Huniforms, Hfonts, !Z.eqb_refl. simpl.
  replace (match stylePaddings with [] => true | _ => false end ||
           (Z.of_nat (length stylePaddings) =? styleCount state))
    with true.
  2:{ destruct Hpaddings as [-> | ->]; [reflexivity |].
      rewrite Z.eqb_refl. symmetry. apply orb_true_r. }
  simpl. rewrite (proj2 (forallb_Forall _ _) Hvalid). simpl.
  rewrite copyInto_Some by lia. simpl.
  unfold withFontsAndPaddings.
  destruct stylePaddings as [| p ps]; [reflexivity |].
  destruct Hpaddings as [Hp | Hp]; [discriminate |].
  rewrite copyInto_Some; [reflexivity |].
  rewrite zip_with_same_length by lia. lia.
Qed.

Lemma setStyleInternal_inv state commonUniform uniforms styleFonts
    stylePaddings styles derived result :
  setStyleInternal state commonUniform uniforms styleFonts stylePaddings
    styles derived = Some result ->
  Z.of_nat (length uniforms) = styleUniformCount state /\
  Z.of_nat (length styleFonts) = styleCount state /\
  (stylePaddings = [] \/ Z.of_nat (length stylePaddings) = styleCount state) /\
  Forall (fun handle => isHandleValid state handle = true) styleFonts /\
  length (allocated state styles) = length styleFonts.
Proof.
  unfold setStyleInternal. fold (allocated state styles).
  destruct (Z.eqb_spec (Z.of_nat (length uniforms)) (styleUniformCount state))
    as [Hu | Hu]; [| discriminate].
  destruct (Z.eqb_spec (Z.of_nat (length styleFonts)) (styleCount state))
    as [Hf | Hf]; [| discriminate].
  simpl.
  destruct (match stylePaddings with [] => true | _ => false end ||
            (Z.of_nat (length stylePaddings) =? styleCount state)) eqn:Hp;
    [| discriminate].
  simpl.
  destruct (forallb (isHandleValid state) styleFonts) eqn:Hv; [| discriminate].
  simpl.
  destruct (copyInto TextLayerStyle.withFont styleFonts
              (allocated state styles)) as [styles1 |] eqn:Hc;
    [| discriminate].
  intros _. apply copyInto_inv in Hc. destruct Hc as [Hlen _].
  split; [exact Hu |]. split; [exact Hf |].
  split; [| split; [apply forallb_Forall; exact Hv | symmetry; exact Hlen]].
  destruct stylePaddings as [| p ps]; [left; reflexivity |].
  right. apply Z.eqb_eq. exact Hp.
Qed.

Lemma setUniforms_spec m a styles :
  (a + m <= length styles)%nat ->
  exists styles',
    setUniforms (seq a m) styles = Some styles' /\
    length styles' = length styles /\
    forall i, styles' !! i =
      if ((a <=? i) && (i <? a + m))%nat
      then TextLayerStyle.withUniform (Z.of_nat i) <$> styles !! i
      else styles !! i.
Proof.
  revert a styles. induction m as [| m IH]; intros a styles Hlen; simpl.
  - exists styles. split; [reflexivity |]. split; [reflexivity |].
    intros i. destruct (Nat.leb_spec a i), (Nat.ltb_spec i (a + 0));
      try reflexivity; lia.
  - destruct (lookup_lt_is_Some_2 styles a) as [style Hstyle]; [lia |].
    rewrite Hstyle. simpl.
    destruct (IH (S a)
                (<[a := TextLayerStyle.withUniform (Z.of_nat a) style]> styles))
      as (styles' & Hset & Hlen' & Hlookup);
      [rewrite length_insert; lia |].
    exists styles'. split; [exact Hset |].
    split; [rewrite Hlen', length_insert; reflexivity |].
    intros i. rewrite Hlookup.
    destruct (Nat.eq_dec i a) as [-> | Hne].
    + rewrite list_lookup_insert_eq by lia. rewrite Hstyle.
      destruct (Nat.leb_spec (S a) a); [lia |]. simpl.
      destruct (Nat.leb_spec a a); [| lia].
      destruct (Nat.ltb_spec a (a + S m)); [| lia]. reflexivity.
    + rewrite list_lookup_insert_ne by lia.
      destruct (Nat.leb_spec (S a) i), (Nat.ltb_spec i (S a + m)),
        (Nat.leb_spec a i), (Nat.ltb_spec i (a + S m));
        simpl; try reflexivity; lia.
Qed.

Lemma setStyleInternal_result state commonUniform uniforms styleFonts
    stylePaddings styles derived result :
  setStyleInternal state commonUniform uniforms styleFonts stylePaddings
    styles derived = Some result ->
  result =
    (withFontsAndPaddings styleFonts stylePaddings (allocated state styles),
     doSetStyle commonUniform uniforms derived) /\
  Z.of_nat (length uniforms) = styleUniformCount state /\
  Z.of_nat (length styleFonts) = styleCount state /\
  (stylePaddings = [] \/ Z.of_nat (length stylePaddings) = styleCount state) /\
  Forall (fun handle => isHandleValid state handle = true) styleFonts /\
  length (allocated state styles) = length styleFonts.
Proof.
  intros H.
  destruct (setStyleInternal_inv _ _ _ _ _ _ _ _ H)
    as (Hu & Hf & Hp & Hv & Hlen).
  split; [| repeat split; assumption].
  assert (Hstyles : styles = [] \/ Z.of_nat (length styles) = styleCount state).
  { destruct styles as [| style rest]; [left; reflexivity | right].
    simpl in Hlen. simpl. lia. }
  rewrite (setStyleInternal_spec _ _ _ _ _ _ _ Hstyles Hu Hf Hp Hv) in H.
  injection H as <-. reflexivity.
Qed.

Lemma isHandleValid_lookup state handle :
  isHandleValid state handle = true ->
  is_Some (fonts state !! Z.to_nat (fontHandleId handle)).
Proof.
  unfold isHandleValid, isFontHandleValid. intros H.
  apply andb_true_iff in H. destruct H as [_ H]. apply Z.ltb_lt in H.
  apply lookup_lt_is_Some.
  assert (0 <= fontHandleId handle).
  { unfold fontHandleId. apply Z.land_nonneg. right. vm_compute. congruence. }
  lia.
Qed.

Lemma isHandleValid_not_Null state handle :
  isHandleValid state handle = true -> (handle =? FontHandle_Null) = false.
Proof.
  intros H. destruct (Z.eqb_spec handle FontHandle_Null) as [-> | _];
    [| reflexivity].
  unfold isHandleValid in H. simpl in H. discriminate H.
Qed.

Lemma addFont_inv state font size state' handle :
  addFont state font size = Some (state', handle) ->
  exists cache id,
    glyphCache state = Some cache /\
    findFont cache font = Some id /\
    fontCount state < 2 ^ 15 /\
    styleCount state' = styleCount state /\
    styleUniformCount state' = styleUniformCount state /\
    glyphCache state' = glyphCache state /\
    fonts state' =
      fonts state ++
      [ {| fontStorage := None; font := font; shaper := None;
           scale := fdiv size (fontSize font); glyphCacheFontId := id |} ] /\
    handle = fontHandle (fontCount state) 1.
Proof.
  intros H. pose proof H as Hadd. unfold addFont in H.
  destruct (glyphCache state) as [cache |] eqn:Hcache; simpl in H;
    [| discriminate].
  destruct (findFont cache font) as [id |] eqn:Hfind; simpl in H;
    [| discriminate].
  change (Z.shiftl 1 FontHandleIdBits) with (2 ^ 15) in H.
  destruct (Z.ltb_spec (Z.of_nat (length (fonts state))) (2 ^ 15))
    as [Hlt | Hge]; [| discriminate].
  clear H.
  destruct (addFont_grows state font size cache id Hcache Hfind Hlt)
    as (state1 & handle1 & Hadd1 & (_ & Hid & Hgen & _) & Hfonts).
  rewrite Hadd1 in Hadd. injection Hadd as <- <-.
  exists cache, id. split; [reflexivity |]. split; [exact Hfind |].
  split; [exact Hlt |].
  unfold addFont in Hadd1. rewrite Hcache in Hadd1. simpl in Hadd1.
  rewrite Hfind in Hadd1. simpl in Hadd1.
  destruct (negb _) in Hadd1; [discriminate |].
  destruct (fontHandleExpects _ 1) in Hadd1; [| discriminate].
  injection Hadd1 as <- <-. simpl.
  split; [reflexivity |]. split; [reflexivity |]. split; [reflexivity |].
  split; [reflexivity |].
  rewrite length_app. simpl length. unfold fontCount in *.
  replace (Z.of_nat (length (fonts state) + 1) - 1)
    with (Z.of_nat (length (fonts state))) by lia.
  rewrite u64_small by (change (2 ^ 15) with 32768 in Hlt;
                        change (2 ^ 64) with 18446744073709551616; lia).
  rewrite u32_small by (change (2 ^ 15) with 32768 in Hlt;
                        change (2 ^ 32) with 4294967296; lia).
  reflexivity.
Qed.

Lemma setBackFontStorage_snoc front back storage :
  setBackFontStorage (front ++ [back]) storage =
  front ++ [ {| fontStorage := Some storage; font := font back;
                shaper := shaper back; scale := scale back;
                glyphCacheFontId := glyphCacheFontId back |} ].
Proof.
  unfold setBackFontStorage. rewrite reverse_app. simpl.
  rewrite reverse_involutive. reflexivity.
Qed.

Lemma addFontOwned_inv state font size state' handle :
  addFontOwned state font size = Some (state', handle) ->
  exists font' cache id,
    font = Some font' /\
    glyphCache state = Some cache /\
    findFont cache font' = Some id /\
    fontCount state < 2 ^ 15 /\
    styleCount state' = styleCount state /\
    styleUniformCount state' = styleUniformCount state /\
    glyphCache state' = glyphCache state /\
    fonts state' =
      fonts state ++
      [ {| fontStorage := Some font'; font := font'; shaper := None;
           scale := fdiv size (fontSize font'); glyphCacheFontId := id |} ] /\
    handle = fontHandle (fontCount state) 1.
Proof.
  unfold addFontOwned. destruct font as [font' |]; simpl; [| discriminate].
  destruct (addFont state font' size) as [[state1 handle1] |] eqn:Hadd;
    simpl; [| discriminate].
  intros H. injection H as <- <-.
  destruct (addFont_inv _ _ _ _ _ Hadd)
    as (cache & id & Hcache & Hfind & Hlt & Hsc & Hsuc & Hgc & Hfonts & Hh).
  exists font', cache, id. simpl.
  rewrite Hfonts, setBackFontStorage_snoc. simpl.
  repeat split; assumption.
Qed.

(** [setStyle()] with an explicit mapping, called as it expects (one
    uniform per [styleUniformCount()], one mapping entry and one valid font
    handle per [styleCount()], no paddings or one per style), returns and
    hands the uniforms to [doSetStyle()].  There are then [styleCount()]
    styles, and style [i] has uniform index [styleToUniform[i]], font
    [styleFonts[i]] and padding [stylePaddings[i]], or zero padding when
    none were given: nothing of what the array held before, or of a fresh
    uninitialized array, is left. *)
Theorem setStyle_stores state commonUniform uniforms styleToUniform
    styleFonts stylePaddings styles derived :
  styles = [] \/ Z.of_nat (length styles) = styleCount state ->
  Z.of_nat (length uniforms) = styleUniformCount state ->
  Z.of_nat (length styleToUniform) = styleCount state ->
  Z.of_nat (length styleFonts) = styleCount state ->
  stylePaddings = [] \/ Z.of_nat (length stylePaddings) = styleCount state ->
  Forall (fun handle => isHandleValid state handle = true) styleFonts ->
  exists styles',
    setStyle state commonUniform uniforms styleToUniform styleFonts
      stylePaddings styles derived =
    Some (styles', doSetStyle commonUniform uniforms derived) /\
    Z.of_nat (length styles') = styleCount state /\
    forall i u f p,
      styleToUniform !! i = Some u -> styleFonts !! i = Some f ->
      paddingOf stylePaddings i = Some p ->
      styles' !! i =
      Some {| TextLayerStyle.uniform := u; TextLayerStyle.font := f;
              TextLayerStyle.padding := p |}.
Proof.
  intros Hstyles Huniforms Hmapping Hfonts Hpaddings Hvalid.
  pose proof (allocated_length state styles Hstyles) as Hlen.
  assert (Hlen2 : length (withFontsAndPaddings styleFonts stylePaddings
                            (allocated state styles)) =
                  Z.to_nat (styleCount state)).
  { rewrite withFontsAndPaddings_length; [exact Hlen | lia |].
    destruct Hpaddings as [Hp | Hp]; [left; exact Hp | right; lia]. }
  unfold setStyle. rewrite Hmapping, Z.eqb_refl. simpl.
  rewrite (setStyleInternal_spec _ _ _ _ _ _ _
             Hstyles Huniforms Hfonts Hpaddings Hvalid).
  simpl. rewrite copyInto_Some by lia. simpl.
  eexists. split; [reflexivity |].
  split; [rewrite zip_with_same_length by lia; lia |].
  intros i u f p Hu Hf Hp.
  assert (Hlt : (i < length (allocated state styles))%nat).
  { apply lookup_lt_Some in Hf. lia. }
  destruct (lookup_lt_is_Some_2 _ _ Hlt) as [old Hold].
  rewrite lookup_zip_with, Hu. simpl.
  rewrite (withFontsAndPaddings_lookup _ _ _ _ _ _ _ Hf Hp Hold).
  reflexivity.
Qed.

(** [setStyle()] with the implicit mapping, called as it expects
    ([styleUniformCount()] equal to [styleCount()], one uniform and one
    valid font handle per style, no paddings or one per style), returns,
    and style [i] then has uniform index [i], font [fonts[i]] and padding
    [paddings[i]], or zero padding when none were given. *)
Theorem setStyleImplicit_stores state commonUniform uniforms styleFonts
    stylePaddings styles derived :
  styles = [] \/ Z.of_nat (length styles) = styleCount state ->
  styleUniformCount state = styleCount state ->
  Z.of_nat (length uniforms) = styleUniformCount state ->
  Z.of_nat (length styleFonts) = styleCount state ->
  stylePaddings = [] \/ Z.of_nat (length stylePaddings) = styleCount state ->
  Forall (fun handle => isHandleValid state handle = true) styleFonts ->
  exists styles',
    setStyleImplicit state commonUniform uniforms styleFonts stylePaddings
      styles derived =
    Some (styles', doSetStyle commonUniform uniforms derived) /\
    Z.of_nat (length styles') = styleCount state /\
    forall i f p,
      styleFonts !! i = Some f -> paddingOf stylePaddings i = Some p ->
      styles' !! i =
      Some {| TextLayerStyle.uniform := Z.of_nat i; TextLayerStyle.font := f;
              TextLayerStyle.padding := p |}.
Proof.
  intros Hstyles Hsame Huniforms Hfonts Hpaddings Hvalid.
  pose proof (allocated_length state styles Hstyles) as Hlen.
  assert (Hlen2 : length (withFontsAndPaddings styleFonts stylePaddings
                            (allocated state styles)) =
                  Z.to_nat (styleCount state)).
  { rewrite withFontsAndPaddings_length; [exact Hlen | lia |].
    destruct Hpaddings as [Hp | Hp]; [left; exact Hp | right; lia]. }
  unfold setStyleImplicit. rewrite Hsame, Z.eqb_refl. simpl.
  rewrite (setStyleInternal_spec _ _ _ _ _ _ _
             Hstyles Huniforms Hfonts Hpaddings Hvalid).
  simpl.
  destruct (setUniforms_spec (Z.to_nat (styleCount state)) 0
              (withFontsAndPaddings styleFonts stylePaddings
                 (allocated state styles)))
    as (styles' & Hset & Hlen' & Hlookup); [lia |].
  rewrite Hset. simpl.
  exists styles'. split; [reflexivity |]. split; [lia |].
  intros i f p Hf Hp.
  assert (Hlt : (i < length (allocated state styles))%nat).
  { apply lookup_lt_Some in Hf. lia. }
  destruct (lookup_lt_is_Some_2 _ _ Hlt) as [old Hold].
  rewrite Hlookup.
  destruct (Nat.leb_spec 0 i); [| lia].
  destruct (Nat.ltb_spec i (0 + Z.to_nat (styleCount state))); [| lia].
  simpl.
  rewrite (withFontsAndPaddings_lookup _ _ _ _ _ _ _ Hf Hp Hold).
  reflexivity.
Qed.

(** When either [setStyle()] returns, its expectations held: the sizes
    of the views were the style and uniform counts, and every font handle
    was valid.  So a call with [FontHandle::Null] or another invalid handle
    among the fonts, or with a view of a wrong size, fails its
    assertion. *)
Theorem setStyle_expects state commonUniform uniforms styleFonts
    stylePaddings styles derived :
  (forall styleToUniform result,
     setStyle state commonUniform uniforms styleToUniform styleFonts
       stylePaddings styles derived = Some result ->
     Z.of_nat (length styleToUniform) = styleCount state /\
     Z.of_nat (length uniforms) = styleUniformCount state /\
     Z.of_nat (length styleFonts) = styleCount state /\
     (stylePaddings = [] \/
      Z.of_nat (length stylePaddings) = styleCount state) /\
     Forall (fun handle => isHandleValid state handle = true /\
                           handle <> FontHandle_Null) styleFonts) /\
  (forall result,
     setStyleImplicit state commonUniform uniforms styleFonts stylePaddings
       styles derived = Some result ->
     styleUniformCount state = styleCount state /\
     Z.of_nat (length uniforms) = styleUniformCount state /\
     Z.of_nat (length styleFonts) = styleCount state /\
     (stylePaddings = [] \/
      Z.of_nat (length stylePaddings) = styleCount state) /\
     Forall (fun handle => isHandleValid state handle = true /\
                           handle <> FontHandle_Null) styleFonts).
Proof.
  assert (Hnull : forall fonts',
            Forall (fun handle => isHandleValid state handle = true) fonts' ->
            Forall (fun handle => isHandleValid state handle = true /\
                                  handle <> FontHandle_Null) fonts').
  { intros fonts' H. eapply List.Forall_impl; [| exact H]. simpl.
    intros handle Hv. split; [exact Hv |]. intros ->.
    pose proof (isHandleValid_not_Null _ _ Hv) as Hn. discriminate Hn. }
  split.
  - intros styleToUniform result H. unfold setStyle in H.
    destruct (Z.eqb_spec (Z.of_nat (length styleToUniform)) (styleCount state))
      as [Hm | Hm]; [| discriminate].
    simpl in H.
    destruct (setStyleInternal state commonUniform uniforms styleFonts
                stylePaddings styles derived) as [internal |] eqn:Hi;
      [| discriminate].
    destruct (setStyleInternal_result _ _ _ _ _ _ _ _ Hi)
      as (_ & Hu & Hf & Hp & Hv & _).
    split; [exact Hm |]. split; [exact Hu |]. split; [exact Hf |].
    split; [exact Hp | exact (Hnull _ Hv)].
  - intros result H. unfold setStyleImplicit in H.
    destruct (Z.eqb_spec (styleUniformCount state) (styleCount state))
      as [Hm | Hm]; [| discriminate].
    simpl in H.
    destruct (setStyleInternal state commonUniform uniforms styleFonts
                stylePaddings styles derived) as [internal |] eqn:Hi;
      [| discriminate].
    destruct (setStyleInternal_result _ _ _ _ _ _ _ _ Hi)
      as (_ & Hu & Hf & Hp & Hv & _).
    split; [exact Hm |]. split; [exact Hu |]. split; [exact Hf |].
    split; [exact Hp | exact (Hnull _ Hv)].
Qed.

Lemma stylesSet_grow state state' styles :
  styleCount state' = styleCount state ->
  fontCount state <= fontCount state' ->
  stylesSet state styles -> stylesSet state' styles.
Proof.
  intros Hcount Hfonts [Hlen Hvalid]. split; [congruence |].
  eapply List.Forall_impl; [| exact Hvalid]. simpl.
  intros style. apply isHandleValid_mono. exact Hfonts.
Qed.

(** The style array stays usable: what either [setStyle()] returns has
    one style per [styleCount()], each with a valid font handle, and
    both [addFont()] overloads keep it so. *)
Theorem styles_stay_set state styles :
  (forall commonUniform uniforms styleToUniform styleFonts stylePaddings
          derived styles' derived',
     setStyle state commonUniform uniforms styleToUniform styleFonts
       stylePaddings styles derived = Some (styles', derived') ->
     stylesSet state styles') /\
  (forall commonUniform uniforms styleFonts stylePaddings derived
          styles' derived',
     setStyleImplicit state commonUniform uniforms styleFonts stylePaddings
       styles derived = Some (styles', derived') ->
     stylesSet state styles') /\
  (forall font size state' handle,
     stylesSet state styles ->
     addFont state font size = Some (state', handle) ->
     stylesSet state' styles) /\
  (forall font size state' handle,
     stylesSet state styles ->
     addFontOwned state font size = Some (state', handle) ->
     stylesSet state' styles).
Proof.
  assert (Hinternal : forall commonUniform uniforms styleFonts stylePaddings
                             derived internal,
            setStyleInternal state commonUniform uniforms styleFonts
              stylePaddings styles derived = Some internal ->
            Z.of_nat (length (fst internal)) = styleCount state /\
            map TextLayerStyle.font (fst internal) = styleFonts /\
            Forall (fun handle => isHandleValid state handle = true)
              styleFonts).
  { intros commonUniform uniforms styleFonts stylePaddings derived internal Hi.
    destruct (setStyleInternal_result _ _ _ _ _ _ _ _ Hi)
      as (-> & _ & Hf & Hp & Hv & Hlen).
    simpl.
    assert (Hp' : stylePaddings = [] \/
                  length stylePaddings = length (allocated state styles))
      by (destruct Hp as [Hp | Hp]; [left; exact Hp | right; lia]).
    split; [rewrite withFontsAndPaddings_length by (first [lia | exact Hp']);
            lia |].
    split; [apply withFontsAndPaddings_fonts; [lia | exact Hp'] | exact Hv]. }
  assert (Hset : forall styles' styleFonts,
            Z.of_nat (length styles') = styleCount state ->
            map TextLayerStyle.font styles' = styleFonts ->
            Forall (fun handle => isHandleValid state handle = true)
              styleFonts ->
            stylesSet state styles').
  { intros styles' styleFonts Hlen Hfonts Hv. split; [exact Hlen |].
    subst styleFonts. apply Forall_fmap in Hv. exact Hv. }
  split; [| split; [| split]].
  - intros commonUniform uniforms styleToUniform styleFonts stylePaddings
      derived styles' derived' H.
    unfold setStyle in H.
    destruct (Z.eqb_spec (Z.of_nat (length styleToUniform)) (styleCount state))
      as [Hm | Hm]; [| discriminate].
    simpl in H.
    destruct (setStyleInternal state commonUniform uniforms styleFonts
                stylePaddings styles derived) as [[styles1 derived1] |] eqn:Hi;
      [| discriminate].
    simpl in H.
    destruct (copyInto TextLayerStyle.withUniform styleToUniform styles1)
      as [styles2 |] eqn:Hc; [| discriminate].
    injection H as <- <-.
    destruct (Hinternal _ _ _ _ _ _ Hi) as (Hlen & Hfonts & Hv).
    simpl in Hlen, Hfonts.
    apply copyInto_inv in Hc. destruct Hc as [Hlen2 ->].
    apply (Hset _ styleFonts); [| | exact Hv].
    + rewrite zip_with_same_length by exact Hlen2. exact Hlen.
    + rewrite <- Hfonts. apply list_eq. intros i.
      rewrite !list_lookup_fmap, lookup_zip_with.
      destruct (styleToUniform !! i) as [u |] eqn:Hu; simpl.
      * destruct (styles1 !! i); reflexivity.
      * apply lookup_ge_None in Hu.
        rewrite (proj2 (lookup_ge_None styles1 i)); [reflexivity | lia].
  - intros commonUniform uniforms styleFonts stylePaddings derived
      styles' derived' H.
    unfold setStyleImplicit in H.
    destruct (Z.eqb_spec (styleUniformCount state) (styleCount state))
      as [Hm | Hm]; [| discriminate].
    simpl in H.
    destruct (setStyleInternal state commonUniform uniforms styleFonts
                stylePaddings styles derived) as [[styles1 derived1] |] eqn:Hi;
      [| discriminate].
    simpl in H.
    destruct (Hinternal _ _ _ _ _ _ Hi) as (Hlen & Hfonts & Hv).
    simpl in Hlen, Hfonts.
    destruct (setUniforms_spec (Z.to_nat (styleCount state)) 0 styles1)
      as (styles2 & Hs & Hlen2 & Hlookup); [lia |].
    rewrite Hs in H. simpl in H. injection H as <- <-.
    apply (Hset _ styleFonts); [lia | | exact Hv].
    rewrite <- Hfonts. apply list_eq. intros i.
    rewrite !list_lookup_fmap, Hlookup.
    destruct ((0 <=? i)%nat && (i <? 0 + Z.to_nat (styleCount state))%nat);
      [| reflexivity].
    destruct (styles1 !! i); reflexivity.
  - intros font size state' handle Hs Hadd.
    destruct (addFont_inv _ _ _ _ _ Hadd)
      as (cache & id & _ & _ & _ & Hsc & _ & _ & Hfonts & _).
    apply (stylesSet_grow state state' styles Hsc); [| exact Hs].
    unfold fontCount. rewrite Hfonts, length_app. lia.
  - intros font size state' handle Hs Hadd.
    destruct (addFontOwned_inv _ _ _ _ _ Hadd)
      as (font' & cache & id & _ & _ & _ & _ & Hsc & _ & _ & Hfonts & _).
    apply (stylesSet_grow state state' styles Hsc); [| exact Hs].
    unfold fontCount. rewrite Hfonts, length_app. lia.
Qed.

(** The font lookup at the start of [shapeInternal()] stays inside the
    font array.  With a style array that [setStyle()] has filled, a text
    with no font of its own and a style below [styleCount()] is shaped
    with the font of its style; a text with a valid font of its own with
    that font, whatever the style. *)
Theorem shapeFont_returns state styles style propertiesFont :
  stylesSet state styles ->
  (propertiesFont = FontHandle_Null /\ 0 <= style < styleCount state) \/
  isHandleValid state propertiesFont = true ->
  exists handle entry,
    shapeFont state styles style propertiesFont = Some entry /\
    isHandleValid state handle = true /\
    fonts state !! Z.to_nat (fontHandleId handle) = Some entry /\
    handle = (if propertiesFont =? FontHandle_Null
              then default FontHandle_Null
                     (TextLayerStyle.font <$> styles !! Z.to_nat style)
              else propertiesFont).
Proof.
  intros [Hlen Hvalid] [[-> Hstyle] | Hcustom]; unfold shapeFont.
  - simpl.
    destruct (lookup_lt_is_Some_2 styles (Z.to_nat style)) as [s Hs]; [lia |].
    pose proof (proj1 (Forall_lookup _ _) Hvalid _ _ Hs) as Hv.
    destruct (isHandleValid_lookup _ _ Hv) as [entry Hentry].
    destruct styles as [| s0 rest]; [discriminate Hs |].
    rewrite Hs. simpl. rewrite Hentry.
    exists (TextLayerStyle.font s), entry. repeat split; assumption.
  - rewrite (isHandleValid_not_Null _ _ Hcustom), Hcustom. simpl.
    destruct (isHandleValid_lookup _ _ Hcustom) as [entry Hentry].
    rewrite Hentry. exists propertiesFont, entry. repeat split; assumption.
Qed.

(** [addFont()] returns exactly when its three expectations hold: a glyph
    cache is set, the cache knows the font, and fewer than 2^15 fonts were
    added so far.  The overload that takes over the font in addition
    expects the pointer not to be null. *)
Theorem addFont_returns_iff state font size :
  (is_Some (addFont state font size) <->
   exists cache id,
     glyphCache state = Some cache /\ findFont cache font = Some id /\
     fontCount state < 2 ^ 15) /\
  (is_Some (addFontOwned state (Some font) size) <->
   exists cache id,
     glyphCache state = Some cache /\ findFont cache font = Some id /\
     fontCount state < 2 ^ 15) /\
  addFontOwned state None size = None.
Proof.
  split; [| split; [| reflexivity]].
  - split.
    + intros [[state' handle] H].
      destruct (addFont_inv _ _ _ _ _ H) as (cache & id & Hc & Hf & Hn & _).
      exists cache, id. repeat split; assumption.
    + intros (cache & id & Hc & Hf & Hn).
      destruct (addFont_grows state font size cache id Hc Hf Hn)
        as (state' & handle & -> & _). eauto.
  - split.
    + intros [[state' handle] H].
      destruct (addFontOwned_inv _ _ _ _ _ H)
        as (font' & cache & id & Heq & Hc & Hf & Hn & _).
      injection Heq as <-. exists cache, id. repeat split; assumption.
    + intros (cache & id & Hc & Hf & Hn).
      destruct (addFont_grows state font size cache id Hc Hf Hn)
        as (state' & handle & Hadd & _).
      unfold addFontOwned. simpl. rewrite Hadd. simpl. eauto.
Qed.

Lemma getters_snoc_old state state' entry other :
  fonts state' = fonts state ++ [entry] ->
  isHandleValid state other = true ->
  Shared_font state' other = Shared_font state other /\
  Shared_glyphCacheFontId state' other = Shared_glyphCacheFontId state other.
Proof.
  intros Hfonts Hv.
  assert (Hv' : isHandleValid state' other = true).
  { apply (isHandleValid_mono state); [| exact Hv].
    unfold fontCount. rewrite Hfonts, length_app. lia. }
  unfold Shared_font, Shared_glyphCacheFontId. rewrite Hv, Hv', Hfonts.
  destruct (isHandleValid_lookup _ _ Hv) as [old Hold].
  rewrite (lookup_app_l_Some _ _ _ _ Hold), Hold. split; reflexivity.
Qed.

Lemma getters_snoc_new state state' entry :
  fontCount state < 2 ^ 15 ->
  fonts state' = fonts state ++ [entry] ->
  Shared_font state' (fontHandle (fontCount state) 1) = Some (font entry) /\
  Shared_glyphCacheFontId state' (fontHandle (fontCount state) 1) =
    Some (glyphCacheFontId entry).
Proof.
  intros Hn Hfonts. unfold fontCount in *.
  assert (He : fontHandleExpects (Z.of_nat (length (fonts state))) 1 = true).
  { unfold fontHandleExpects. apply andb_true_iff. split; [| reflexivity].
    apply Z.ltb_lt. change (Z.shiftl 1 FontHandleIdBits) with (2 ^ 15). lia. }
  destruct (fontHandle_round_trip (Z.of_nat (length (fonts state))) 1)
    as [Hid Hgen]; [lia | lia | exact He |].
  unfold Shared_font, Shared_glyphCacheFontId, isHandleValid,
    isFontHandleValid.
  rewrite Hid, Hgen, Hfonts, length_app. simpl length.
  destruct (Z.ltb_spec (Z.of_nat (length (fonts state)))
              (Z.of_nat (length (fonts state) + 1))); [| lia].
  simpl. rewrite Nat2Z.id, list_lookup_middle by reflexivity.
  split; reflexivity.
Qed.

(** A font that was added can be looked up: with the handle [addFont()]
    returns, [font()] gives the font that was passed and
    [glyphCacheFontId()] the id under which the glyph cache knows it; what
    the two getters return for the handles that were valid before does not
    change.  The same holds for the overload that takes over the font. *)
Theorem addFont_lookup state size state' handle :
  (forall font,
     addFont state font size = Some (state', handle) ->
     Shared_font state' handle = Some font /\
     (exists cache,
        glyphCache state = Some cache /\
        Shared_glyphCacheFontId state' handle = findFont cache font) /\
     forall other, isHandleValid state other = true ->
       Shared_font state' other = Shared_font state other /\
       Shared_glyphCacheFontId state' other =
         Shared_glyphCacheFontId state other) /\
  (forall font,
     addFontOwned state (Some font) size = Some (state', handle) ->
     Shared_font state' handle = Some font /\
     (exists cache,
        glyphCache state = Some cache /\
        Shared_glyphCacheFontId state' handle = findFont cache font) /\
     forall other, isHandleValid state other = true ->
       Shared_font state' other = Shared_font state other /\
       Shared_glyphCacheFontId state' other =
         Shared_glyphCacheFontId state other).
Proof.
  split.
  - intros font Hadd.
    destruct (addFont_inv _ _ _ _ _ Hadd)
      as (cache & id & Hc & Hf & Hn & _ & _ & _ & Hfonts & ->).
    destruct (getters_snoc_new state state' _ Hn Hfonts) as [Hfont Hid].
    split; [exact Hfont |].
    split; [exists cache; split; [exact Hc | rewrite Hid, Hf; reflexivity] |].
    intros other Hv. exact (getters_snoc_old state state' _ other Hfonts Hv).
  - intros font Hadd.
    destruct (addFontOwned_inv _ _ _ _ _ Hadd)
      as (font' & cache & id & Heq & Hc & Hf & Hn & _ & _ & _ & Hfonts & ->).
    injection Heq as <-.
    destruct (getters_snoc_new state state' _ Hn Hfonts) as [Hfont Hid].
    split; [exact Hfont |].
    split; [exists cache; split; [exact Hc | rewrite Hid, Hf; reflexivity] |].
    intros other Hv. exact (getters_snoc_old state state' _ other Hfonts Hv).
Qed.

(** [font()] and [glyphCacheFontId()] return for the valid handles and
    for no others, [FontHandle::Null] included: once the assertion on the
    handle has passed, the access to the font array is in range. *)
Theorem font_getters_iff_valid state handle :
  (is_Some (Shared_font state handle) <-> isHandleValid state handle = true) /\
  (is_Some (Shared_glyphCacheFontId state handle) <->
   isHandleValid state handle = true) /\
  Shared_font state FontHandle_Null = None /\
  Shared_glyphCacheFontId state FontHandle_Null = None.
Proof.
  unfold Shared_font, Shared_glyphCacheFontId.
  split; [| split; [| split; reflexivity]].
  - destruct (isHandleValid state handle) eqn:Hv.
    + destruct (isHandleValid_lookup _ _ Hv) as [entry ->]. simpl.
      split; [reflexivity | eauto].
    + split; [intros [? H]; discriminate H | discriminate].
  - destruct (isHandleValid state handle) eqn:Hv.
    + destruct (isHandleValid_lookup _ _ Hv) as [entry ->]. simpl.
      split; [reflexivity | eauto].
    + split; [intros [? H]; discriminate H | discriminate].
Qed.

End Fonts.

(** A registry of fonts numbered by [nat], with integer sizes, and a glyph
    cache that is the list of the fonts it knows. *)
Definition listFindFont (cache : list nat) (font : nat) : option Z :=
  Z.of_nat <$> list_find (fun known => Nat.eqb known font) cache
  ≫= fun found => Some (fst found).

Definition twoFonts : State nat unit Z (list nat) :=
  {| styleUniformCount := 1; styleCount := 1;
     glyphCache := Some [7; 8; 9]%nat;
     fonts := [ {| fontStorage := None; font := 7%nat; shaper := None;
                   scale := 1; glyphCacheFontId := 0 |};
                {| fontStorage := None; font := 8%nat; shaper := None;
                   scale := 2; glyphCacheFontId := 1 |} ] |}.

Lemma addFont_keeps_handles_valid_witness :
  exists state' handle,
    addFont nat unit Z (list nat) (fun font => 16) Z.div listFindFont
      twoFonts 9%nat 32 = Some (state', handle) /\
    grows nat unit Z (list nat) twoFonts state' handle.
Proof.
  refine (proj1 (addFont_keeps_handles_valid nat unit Z (list nat)
            (fun font => 16) Z.div listFindFont twoFonts 9%nat 32
            [7; 8; 9]%nat 2 _ _ _)).
  - reflexivity.
  - reflexivity.
  - vm_compute. reflexivity.
Defined.

(** The registry above with two uniforms for three styles.  The uniforms
    are integers, and the subclass keeps the uniforms it was last given. *)
Definition threeStyles : State nat unit Z (list nat) :=
  {| styleUniformCount := 2; styleCount := 3;
     glyphCache := glyphCache _ _ _ _ twoFonts;
     fonts := fonts _ _ _ _ twoFonts |}.

Definition exampleUninitializedStyle : TextLayerStyle.t Z :=
  {| TextLayerStyle.uniform := 77; TextLayerStyle.font := 0x7777;
     TextLayerStyle.padding := (7, 7, 7, 7) |}.

Definition exampleDoSetStyle (commonUniform : unit) (uniforms : list Z)
    (derived : list Z) : list Z := uniforms.

Lemma setStyle_stores_witness :
  exists styles',
    setStyle nat unit Z (list nat) unit Z (list Z) exampleDoSetStyle 0
      exampleUninitializedStyle threeStyles tt [10; 20] [1; 0; 1]
      [0x8000; 0x8001; 0x8000] [] [] [] = Some (styles', [10; 20]) /\
    Z.of_nat (length styles') = 3 /\
    styles' !! 1%nat =
    Some {| TextLayerStyle.uniform := 0; TextLayerStyle.font := 0x8001;
            TextLayerStyle.padding := (0, 0, 0, 0) |}.
Proof.
  destruct (setStyle_stores nat unit Z (list nat) unit Z (list Z)
              exampleDoSetStyle 0 exampleUninitializedStyle threeStyles tt
              [10; 20] [1; 0; 1] [0x8000; 0x8001; 0x8000] [] [] [])
    as (styles' & Hset & Hlen & Hlookup).
  - left. reflexivity.
  - reflexivity.
  - reflexivity.
  - reflexivity.
  - left. reflexivity.
  - repeat constructor.
  - exists styles'. split; [exact Hset |]. split; [exact Hlen |].
    apply (Hlookup 1%nat 0 0x8001 (0, 0, 0, 0)); reflexivity.
Defined.

Lemma setStyleImplicit_stores_witness :
  exists styles',
    setStyleImplicit nat unit Z (list nat) unit Z (list Z) exampleDoSetStyle
      0 exampleUninitializedStyle twoFonts tt [10] [0x8001] [(1, 2, 3, 4)]
      [exampleUninitializedStyle] [] = Some (styles', [10]) /\
    Z.of_nat (length styles') = 1 /\
    styles' !! 0%nat =
    Some {| TextLayerStyle.uniform := 0; TextLayerStyle.font := 0x8001;
            TextLayerStyle.padding := (1, 2, 3, 4) |}.
Proof.
  destruct (setStyleImplicit_stores nat unit Z (list nat) unit Z (list Z)
              exampleDoSetStyle 0 exampleUninitializedStyle twoFonts tt
              [10] [0x8001] [(1, 2, 3, 4)] [exampleUninitializedStyle] [])
    as (styles' & Hset & Hlen & Hlookup).
  - right. reflexivity.
  - reflexivity.
  - reflexivity.
  - reflexivity.
  - right. reflexivity.
  - repeat constructor.
  - exists styles'. split; [exact Hset |]. split; [exact Hlen |].
    apply (Hlookup 0%nat 0x8001 (1, 2, 3, 4)); reflexivity.
Defined.

Lemma setStyle_expects_witness :
  Forall (fun handle =>
            isHandleValid nat unit Z (list nat) threeStyles handle = true /\
            handle <> FontHandle_Null) [0x8000; 0x8001; 0x8000].
Proof.
  refine (proj2 (proj2 (proj2 (proj2
    (proj1 (setStyle_expects nat unit Z (list nat) unit Z (list Z)
              exampleDoSetStyle 0 exampleUninitializedStyle threeStyles tt
              [10; 20] [0x8000; 0x8001; 0x8000] [] [] [])
       [1; 0; 1] _ _))))).
  vm_compute. reflexivity.
Defined.

Lemma styles_stay_set_witness :
  stylesSet nat unit Z (list nat) threeStyles
    [ {| TextLayerStyle.uniform := 1; TextLayerStyle.font := 0x8000;
         TextLayerStyle.padding := (0, 0, 0, 0) |};
      {| TextLayerStyle.uniform := 0; TextLayerStyle.font := 0x8001;
         TextLayerStyle.padding := (0, 0, 0, 0) |};
      {| TextLayerStyle.uniform := 1; TextLayerStyle.font := 0x8000;
         TextLayerStyle.padding := (0, 0, 0, 0) |} ].
Proof.
  refine (proj1 (styles_stay_set nat unit Z (list nat) (fun font => 16)
                   Z.div listFindFont unit Z (list Z) exampleDoSetStyle 0
                   exampleUninitializedStyle threeStyles [])
            tt [10; 20] [1; 0; 1] [0x8000; 0x8001; 0x8000] [] [] _ [10; 20] _).
  vm_compute. reflexivity.
Defined.

Lemma shapeFont_returns_witness :
  exists handle entry,
    shapeFont nat unit Z (list nat) twoFonts
      [ {| TextLayerStyle.uniform := 0; TextLayerStyle.font := 0x8001;
           TextLayerStyle.padding := (0, 0, 0, 0) |} ] 0 FontHandle_Null =
    Some entry /\
    isHandleValid nat unit Z (list nat) twoFonts handle = true /\
    fonts nat unit Z (list nat) twoFonts !! Z.to_nat (fontHandleId handle) =
      Some entry /\
    handle = 0x8001.
Proof.
  apply (shapeFont_returns nat unit Z (list nat) twoFonts
           [ {| TextLayerStyle.uniform := 0; TextLayerStyle.font := 0x8001;
                TextLayerStyle.padding := (0, 0, 0, 0) |} ] 0 FontHandle_Null).
  - split; [reflexivity | repeat constructor].
  - left. split; [reflexivity | vm_compute; split; congruence].
Defined.

Lemma addFont_returns_iff_witness :
  is_Some (addFont nat unit Z (list nat) (fun font => 16) Z.div listFindFont
             twoFonts 9%nat 32).
Proof.
  apply (proj1 (addFont_returns_iff nat unit Z (list nat) (fun font => 16)
                  Z.div listFindFont twoFonts 9%nat 32)).
  exists [7; 8; 9]%nat, 2. split; [reflexivity |].
  split; [reflexivity | vm_compute; reflexivity].
Defined.

Lemma addFont_lookup_witness :
  Shared_font nat unit Z (list nat)
    {| styleUniformCount := 1; styleCount := 1;
       glyphCache := Some [7; 8; 9]%nat;
       fonts := fonts nat unit Z (list nat) twoFonts ++
                [ {| fontStorage := None; font := 9%nat; shaper := None;
                     scale := 2; glyphCacheFontId := 2 |} ] |} 0x8002 =
  Some 9%nat.
Proof.
  refine (proj1 (proj1 (addFont_lookup nat unit Z (list nat) (fun font => 16)
                          Z.div listFindFont twoFonts 32 _ 0x8002) 9%nat _)).
  reflexivity.
Defined.

Lemma font_getters_iff_valid_witness :
  is_Some (Shared_font nat unit Z (list nat) twoFonts 0x8001).
Proof.
  apply (proj1 (font_getters_iff_valid nat unit Z (list nat) twoFonts 0x8001)).
  reflexivity.
Defined.

End TextLayerShared.

(** ** TextLayer: glyph runs (Whee/TextLayer.cpp) *)

(** Modelled from the spec: the structs of
    Whee/Implementation/textLayerState.h, which is missing.  The
    specification leaves the layers' contents out, so the fields are the
    ones TextLayer.cpp reads and writes, in the order
    [arrayAppend(state.glyphRuns, InPlaceInit, glyphOffset, glyphCount, id)]
    gives for the glyph run. *)
Module Implementation.

Record TextLayerGlyphRun : Set := {
  glyphOffset : Z;
  glyphCount : Z;
  data : Z
}.

Section Payload.

Variable Float : Type.

Record TextLayerGlyphData : Type := {
  position : Float * Float;
  glyphId : Z
}.

Record TextLayerData : Type := {
  padding : Float * Float * Float * Float;
  glyphRun : Z;
  style : Z;
  scale : Float;
  alignment : Z;
  color : Float * Float * Float
}.

End Payload.

Arguments position {Float} _.
Arguments glyphId {Float} _.
Arguments padding {Float} _.
Arguments glyphRun {Float} _.
Arguments style {Float} _.
Arguments scale {Float} _.
Arguments alignment {Float} _.
Arguments color {Float} _.

(** [run.glyphOffset = value] *)
Definition setGlyphOffset (run : TextLayerGlyphRun) (value : Z)
    : TextLayerGlyphRun :=
  {| glyphOffset := value; glyphCount := glyphCount run; data := data run |}.

(** [data.glyphRun = value] *)
Definition setGlyphRun {Float} (d : TextLayerData Float) (value : Z)
    : TextLayerData Float :=
  {| padding := padding d; glyphRun := value; style := style d;
     scale := scale d; alignment := alignment d; color := color d |}.

(** [data.color = value] *)
Definition setColor {Float} (d : TextLayerData Float)
    (value : Float * Float * Float) : TextLayerData Float :=
  {| padding := padding d; glyphRun := glyphRun d; style := style d;
     scale := scale d; alignment := alignment d; color := value |}.

(** [data.padding = value] *)
Definition setPadding {Float} (d : TextLayerData Float)
    (value : Float * Float * Float * Float) : TextLayerData Float :=
  {| padding := value; glyphRun := glyphRun d; style := style d;
     scale := scale d; alignment := alignment d; color := color d |}.

End Implementation.

(** Modelled from the spec: [Implementation::TextLayerVertex] of
    Whee/Implementation/textLayerState.h, which is missing; the fields are
    the ones TextLayer.cpp writes. *)
Module TextLayerVertex.

Record t (Float : Type) : Type := {
  position : Float * Float;
  textureCoordinates : Float * Float * Float;
  color : Float * Float * Float;
  styleUniform : Z
}.

Arguments position {Float} _.
Arguments textureCoordinates {Float} _.
Arguments color {Float} _.
Arguments styleUniform {Float} _.

End TextLayerVertex.

(** The values of [Text::Implementation::Alignment*] that
    [TextLayer::doUpdate()] tests the alignment of a text against.  They
    are defined in Magnum/Text/Alignment.h, outside of this repository. *)
Module TextAlignment.

Record t : Set := {
  AlignmentHorizontal : Z;
  AlignmentLeft : Z;
  AlignmentRight : Z;
  AlignmentCenter : Z;
  AlignmentVertical : Z;
  AlignmentTop : Z;
  AlignmentBottom : Z;
  AlignmentLine : Z;
  AlignmentMiddle : Z;
  AlignmentIntegral : Z
}.

End TextAlignment.

Module TextLayer.

Import Implementation.

Section Layer.

Variable Float : Type.

(** The [AbstractVisualLayer] base object, whose own state (the layer
    state flags among it) is private to AbstractLayer.cpp, which is
    missing.  [setNeedsUpdate()] and the base [remove()] are the two base
    functions TextLayer.cpp calls on it. *)
Variable Base : Type.
Variable setNeedsUpdate : Base -> Base.
Variable AbstractVisualLayer_remove : Z -> Base -> option Base.

(** [TextLayer::State], the fields the glyph run bookkeeping uses. *)
Record State : Type := {
  data : list (TextLayerData Float);
  glyphData : list (TextLayerGlyphData Float);
  glyphRuns : list TextLayerGlyphRun
}.

(** A layer: the base object and [*_state]. *)
Record Layer : Type := {
  base : Base;
  state : State
}.

(** A glyph run is unused when its offset is [~UnsignedInt{}]. *)
Definition unused (run : TextLayerGlyphRun) : bool :=
  glyphOffset run =? UnsignedIntMax.

(** [state.glyphRuns[state.data[id].glyphRun].glyphOffset =
    ~UnsignedInt{}], with the array accesses checked. *)
Definition markUnused (s : State) (id : Z) : option State :=
  d ← data s !! Z.to_nat id;
  run ← glyphRuns s !! Z.to_nat (glyphRun d);
  Some {| data := data s;
          glyphData := glyphData s;
          glyphRuns := <[Z.to_nat (glyphRun d) :=
                           setGlyphOffset run UnsignedIntMax]> (glyphRuns s) |}.

(** [TextLayer::removeInternal()] *)
Definition removeInternal (id : Z) (layer : Layer) : option Layer :=
  s ← markUnused (state layer) id;
  Some {| base := base layer; state := s |}.

(** [TextLayer::remove(DataHandle)] and [remove(LayerDataHandle)]; both
    handle kinds keep the data id in their low 20 bits. *)
Definition remove (handle : Z) (layer : Layer) : option Layer :=
  b ← AbstractVisualLayer_remove handle (base layer);
  removeInternal (Handle.dataHandleId handle)
    {| base := b; state := state layer |}.

(** [TextLayer::doClean()]: the loop over the bits of
    [dataIdsToRemove], from index [i] on. *)
Fixpoint doCleanFrom (i : nat) (dataIdsToRemove : list bool) (s : State)
    : option State :=
  match dataIdsToRemove with
  | [] => Some s
  | bit :: rest =>
      s' ← (if bit then markUnused s (Z.of_nat i) else Some s);
      doCleanFrom (S i) rest s'
  end.

Definition doClean (dataIdsToRemove : list bool) (layer : Layer)
    : option Layer :=
  s ← doCleanFrom 0 dataIdsToRemove (state layer);
  Some {| base := base layer; state := s |}.

(** [TextLayer::setColorInternal()], a mutator that does call
    [setNeedsUpdate()]. *)
Definition setColorInternal (id : Z) (value : Float * Float * Float)
    (layer : Layer) : option Layer :=
  d ← data (state layer) !! Z.to_nat id;
  Some {| base := setNeedsUpdate (base layer);
          state := {| data := <[Z.to_nat id := setColor d value]>
                                (data (state layer));
                      glyphData := glyphData (state layer);
                      glyphRuns := glyphRuns (state layer) |} |}.

(** What [TextLayer::shapeInternal()] does to the layer state once the
    text is shaped ("Add a new glyph run" and "Save scale, alignment and
    the glyph run reference"): a new glyph run with the glyphs is
    appended, and the data made to refer to it.  [glyphs] are the shaped
    glyphs ([glyphCount] is their number), [newScale] and [newAlignment]
    what is saved with the data.  The function itself, with the font
    decision and the shaping before this, is [shapeInternal] below. *)
Definition addGlyphRun (id : Z) (glyphs : list (TextLayerGlyphData Float))
    (newScale : Float) (newAlignment : Z) (s : State) : option State :=
  let glyphCount := u32 (Z.of_nat (length glyphs)) in
  let glyphRun := u32 (Z.of_nat (length (glyphRuns s))) in
  let glyphOffset := u32 (Z.of_nat (length (glyphData s))) in
  d ← data s !! Z.to_nat id;
  Some {| data := <[Z.to_nat id :=
                      {| padding := padding d; glyphRun := glyphRun;
                         style := style d; scale := newScale;
                         alignment := newAlignment; color := color d |}]>
                    (data s);
          glyphData := glyphData s ++ glyphs;
          glyphRuns := glyphRuns s ++
                       [ {| glyphOffset := glyphOffset;
                            glyphCount := glyphCount;
                            Implementation.data := id |} ] |}.

(** *** The recompaction at the start of [TextLayer::doUpdate()] *)

(** [std::memmove(data + dst, data + src, count*sizeof(...))] inside one
    array; reading or writing past its end is undefined. *)
Definition memmove {A} (array : list A) (dst src count : nat)
    : option (list A) :=
  if (src + count <=? length array)%nat && (dst + count <=? length array)%nat
  then Some (take dst array ++ take count (drop src array) ++
             drop (dst + count) array)
  else None.

(** The loop state: the arrays and the two output offsets. *)
Record Recompaction : Type := {
  current : State;
  outputGlyphDataOffset : Z;
  outputGlyphRunOffset : Z
}.

(** One iteration of the loop, for run [i].  The debug assertions are
    checked. *)
Definition recompactStep (i : nat) (c : Recompaction) : option Recompaction :=
  let s := current c in
  run ← glyphRuns s !! i;
  if unused run then Some c else
  (* Move the glyph data earlier if there were skipped runs before *)
  '(glyphData1, run1, glyphRuns1) ←
    (if negb (glyphOffset run =? outputGlyphDataOffset c) then
       if negb (outputGlyphDataOffset c <? glyphOffset run) then None
       else if Z.of_nat i =? outputGlyphRunOffset c then None
       else
         moved ← memmove (glyphData s)
                   (Z.to_nat (outputGlyphDataOffset c))
                   (Z.to_nat (glyphOffset run))
                   (Z.to_nat (glyphCount run));
         let run1 := setGlyphOffset run (u32 (outputGlyphDataOffset c)) in
         Some (moved, run1, <[i := run1]> (glyphRuns s))
     else Some (glyphData s, run, glyphRuns s));
  let dataOffset := u64 (outputGlyphDataOffset c + glyphCount run1) in
  (* Move the glyph run info earlier if there were skipped runs before *)
  '(data2, glyphRuns2) ←
    (if negb (Z.of_nat i =? outputGlyphRunOffset c) then
       if negb (outputGlyphRunOffset c <? Z.of_nat i) then None
       else
         d ← data s !! Z.to_nat (Implementation.data run1);
         _ ← glyphRuns1 !! Z.to_nat (outputGlyphRunOffset c);
         Some (<[Z.to_nat (Implementation.data run1) :=
                   setGlyphRun d (u32 (outputGlyphRunOffset c))]> (data s),
               <[Z.to_nat (outputGlyphRunOffset c) := run1]> glyphRuns1)
     else Some (data s, glyphRuns1));
  Some {| current := {| data := data2; glyphData := glyphData1;
                        glyphRuns := glyphRuns2 |};
          outputGlyphDataOffset := dataOffset;
          outputGlyphRunOffset := u64 (outputGlyphRunOffset c + 1) |}.

(** The loop, over the run indices still to visit. *)
Fixpoint recompactLoop (indices : list nat) (c : Recompaction)
    : option Recompaction :=
  match indices with
  | [] => Some c
  | i :: rest => c' ← recompactStep i c; recompactLoop rest c'
  end.

(** The whole block: the loop, the two internal assertions, and the two
    [arrayResize()] calls that cut the arrays. *)
Definition recompact (s : State) : option State :=
  c ← recompactLoop (seq 0 (length (glyphRuns s)))
        {| current := s; outputGlyphDataOffset := 0;
           outputGlyphRunOffset := 0 |};
  if negb (outputGlyphDataOffset c <=? Z.of_nat (length (glyphData (current c))))
  then None
  else if negb (outputGlyphRunOffset c <=? Z.of_nat (length (glyphRuns (current c))))
  then None
  else Some {| data := data (current c);
               glyphData := take (Z.to_nat (outputGlyphDataOffset c))
                              (glyphData (current c));
               glyphRuns := take (Z.to_nat (outputGlyphRunOffset c))
                              (glyphRuns (current c)) |}.

(** *** What the recompaction computes *)

(** Total glyph count of a list of runs. *)
Definition total (runs : list TextLayerGlyphRun) : Z :=
  fold_right (fun run acc => glyphCount run + acc) 0 runs.

(** The runs that are not marked unused, in their order. *)
Definition survivors (runs : list TextLayerGlyphRun) : list TextLayerGlyphRun :=
  List.filter (fun run => negb (unused run)) runs.

(** The surviving runs laid out without gaps from [offset] on. *)
Fixpoint compact (offset : Z) (runs : list TextLayerGlyphRun)
    : list TextLayerGlyphRun :=
  match runs with
  | [] => []
  | run :: rest =>
      if unused run then compact offset rest
      else setGlyphOffset run offset :: compact (offset + glyphCount run) rest
  end.

(** The glyphs of the used runs, out of a glyph data array that is the
    concatenation of the glyphs of all runs. *)
Fixpoint keptGlyphs {A} (glyphData : list A) (runs : list TextLayerGlyphRun)
    : list A :=
  match runs with
  | [] => []
  | run :: rest =>
      let count := Z.to_nat (glyphCount run) in
      if unused run then keptGlyphs (drop count glyphData) rest
      else take count glyphData ++ keptGlyphs (drop count glyphData) rest
  end.

(** All [UnsignedInt] fields hold [UnsignedInt] values. *)
Definition typed (s : State) : Prop :=
  (forall i run, glyphRuns s !! i = Some run ->
     0 <= glyphOffset run <= UnsignedIntMax /\
     0 <= glyphCount run <= UnsignedIntMax /\
     0 <= Implementation.data run <= UnsignedIntMax) /\
  (forall i d, data s !! i = Some d -> 0 <= glyphRun d <= UnsignedIntMax).

(** The invariant of the glyph run bookkeeping: the glyph data array is
    the concatenation of the glyphs of all runs, used or not; a used run
    knows where its glyphs start; and the data it belongs to refers back
    to it. *)
Definition consistent (s : State) : Prop :=
  typed s /\
  Z.of_nat (length (glyphData s)) = total (glyphRuns s) /\
  forall i run, glyphRuns s !! i = Some run -> unused run = false ->
    glyphOffset run = total (take i (glyphRuns s)) /\
    exists d, data s !! Z.to_nat (Implementation.data run) = Some d /\
              glyphRun d = Z.of_nat i.

(** A run without its offset. *)
Definition contents (run : TextLayerGlyphRun) : Z * Z :=
  (glyphCount run, Implementation.data run).

(** *** The loop invariant *)

(** Where run [j] of the original array is once the loop has visited the
    runs before [i]. *)
Definition newIndex (runs0 : list TextLayerGlyphRun) (i j : nat) : nat :=
  if (j <? i)%nat then length (survivors (take j runs0)) else j.

Definition invariant (s0 : State) (i : nat) (c : Recompaction) : Prop :=
  let runs0 := glyphRuns s0 in
  let k := length (survivors (take i runs0)) in
  outputGlyphRunOffset c = Z.of_nat k /\
  outputGlyphDataOffset c = total (survivors (take i runs0)) /\
  length (glyphRuns (current c)) = length runs0 /\
  take k (glyphRuns (current c)) = compact 0 (take i runs0) /\
  drop i (glyphRuns (current c)) = drop i runs0 /\
  length (glyphData (current c)) = length (glyphData s0) /\
  (forall j run, runs0 !! j = Some run -> unused run = false ->
     exists d, data (current c) !! Z.to_nat (Implementation.data run) = Some d /\
               glyphRun d = Z.of_nat (newIndex runs0 i j)) /\
  (forall j d, data (current c) !! j = Some d ->
     0 <= glyphRun d <= UnsignedIntMax).

(** The glyph data while the loop runs: the glyphs of the used runs
    visited so far are at the front, and the glyphs of the runs still to
    visit are where they were. *)
Definition glyphInvariant (s0 : State) (i : nat) (c : Recompaction) : Prop :=
  let visited := take i (glyphRuns s0) in
  take (Z.to_nat (outputGlyphDataOffset c)) (glyphData (current c)) =
    keptGlyphs (glyphData s0) visited /\
  drop (Z.to_nat (total visited)) (glyphData (current c)) =
    drop (Z.to_nat (total visited)) (glyphData s0).

(** *** What the removals compute *)

(** A run, marked unused or left alone. *)
Definition markIf (mark : bool) (run : TextLayerGlyphRun) : TextLayerGlyphRun :=
  if mark then setGlyphOffset run UnsignedIntMax else run.

(** Whether run [j] belongs to one of the data flagged in
    [dataIdsToRemove], whose first bit is for data [i]. *)
Fixpoint flaggedFrom (i : nat) (dataIdsToRemove : list bool)
    (data : list (TextLayerData Float)) (j : nat) : bool :=
  match dataIdsToRemove with
  | [] => false
  | bit :: rest =>
      (bit && match data !! i with
              | Some d => (Z.to_nat (glyphRun d) =? j)%nat
              | None => false
              end)
      || flaggedFrom (S i) rest data j
  end.

(** *** Properties of the glyph run bookkeeping *)

Lemma total_app runs1 runs2 : total (runs1 ++ runs2) = total runs1 + total runs2.
Proof.
  induction runs1 as [| run runs1 IH]; simpl; [reflexivity |].
  rewrite IH. lia.
Qed.

Lemma survivors_app runs1 runs2 :
  survivors (runs1 ++ runs2) = survivors runs1 ++ survivors runs2.
Proof. apply List.filter_app. Qed.

Lemma survivors_length runs : (length (survivors runs) <= length runs)%nat.
Proof. apply List.filter_length_le. Qed.

Lemma compact_app offset runs1 runs2 :
  compact offset (runs1 ++ runs2) =
  compact offset runs1 ++ compact (offset + total (survivors runs1)) runs2.
Proof.
  revert offset. induction runs1 as [| run runs1 IH]; intros offset; simpl.
  - f_equal. lia.
  - unfold survivors in *. simpl. destruct (unused run); simpl.
    + apply IH.
    + rewrite IH, Z.add_assoc. reflexivity.
Qed.

Lemma compact_length offset runs :
  length (compact offset runs) = length (survivors runs).
Proof.
  revert offset. induction runs as [| run runs IH]; intros offset; simpl;
    [reflexivity |].
  unfold survivors in *. simpl. destruct (unused run); simpl.
  - apply IH.
  - f_equal. apply IH.
Qed.

Lemma compact_contents offset runs :
  map contents (compact offset runs) = map contents (survivors runs).
Proof.
  revert offset. induction runs as [| run runs IH]; intros offset; simpl;
    [reflexivity |].
  unfold survivors in *. simpl. destruct (unused run); simpl.
  - apply IH.
  - f_equal. apply IH.
Qed.

Lemma total_contents runs1 runs2 :
  map contents runs1 = map contents runs2 -> total runs1 = total runs2.
Proof.
  revert runs2. induction runs1 as [| r1 runs1 IH]; intros [| r2 runs2] H;
    simpl in *; try discriminate; [reflexivity |].
  injection H as Hc _ Ht. rewrite (IH _ Ht). lia.
Qed.

Lemma total_compact offset runs : total (compact offset runs) = total (survivors runs).
Proof. apply total_contents, compact_contents. Qed.

Lemma total_nonneg runs :
  (forall i run, runs !! i = Some run -> 0 <= glyphCount run) ->
  0 <= total runs.
Proof.
  induction runs as [| run runs IH]; intros H; simpl; [lia |].
  pose proof (H 0%nat run eq_refl).
  assert (0 <= total runs) by (apply IH; intros i r Hr; apply (H (S i) r Hr)).
  lia.
Qed.

Lemma total_survivors_le runs :
  (forall i run, runs !! i = Some run -> 0 <= glyphCount run) ->
  0 <= total (survivors runs) <= total runs.
Proof.
  induction runs as [| run runs IH]; intros H; simpl; [lia |].
  pose proof (H 0%nat run eq_refl).
  assert (0 <= total (survivors runs) <= total runs)
    by (apply IH; intros i r Hr; apply (H (S i) r Hr)).
  unfold survivors in *. simpl. destruct (unused run); simpl; lia.
Qed.

Lemma survivors_all runs :
  length (survivors runs) = length runs -> survivors runs = runs.
Proof.
  induction runs as [| run runs IH]; intros H; [reflexivity |].
  unfold survivors in *. simpl in *. destruct (unused run); simpl in *.
  - pose proof (List.filter_length_le (fun run => negb (unused run)) runs). lia.
  - f_equal. apply IH. lia.
Qed.

Lemma compact_lookup offset runs j run :
  compact offset runs !! j = Some run ->
  exists i run0,
    runs !! i = Some run0 /\ unused run0 = false /\
    run = setGlyphOffset run0 (offset + total (survivors (take i runs))) /\
    j = length (survivors (take i runs)).
Proof.
  revert offset j. induction runs as [| first runs IH]; intros offset j H;
    simpl in H; [discriminate |].
  destruct (unused first) eqn:Hu.
  - destruct (IH _ _ H) as (i & run0 & Hi & Hl & Hr & Hj).
    exists (S i), run0. simpl. unfold survivors in *. simpl. rewrite Hu. simpl.
    repeat split; assumption.
  - destruct j as [| j]; simpl in H.
    + injection H as <-. exists 0%nat, first. simpl.
      repeat split; try assumption. f_equal. lia.
    + destruct (IH _ _ H) as (i & run0 & Hi & Hl & Hr & Hj).
      exists (S i), run0. simpl. unfold survivors in *. simpl. rewrite Hu. simpl.
      repeat split; try assumption; [| lia].
      rewrite Hr. f_equal. lia.
Qed.

Lemma compact_offsets offset runs j run :
  compact offset runs !! j = Some run ->
  glyphOffset run = offset + total (take j (compact offset runs)).
Proof.
  revert offset j. induction runs as [| first runs IH]; intros offset j H;
    simpl in *; [discriminate |].
  destruct (unused first) eqn:Hu; [apply IH; exact H |].
  destruct j as [| j]; simpl in *.
  - injection H as <-. simpl. lia.
  - rewrite (IH _ _ H). lia.
Qed.

(** *** The recompaction loop *)

Lemma memmove_length {A} (array moved : list A) dst src count :
  memmove array dst src count = Some moved -> length moved = length array.
Proof.
  unfold memmove.
  destruct (Nat.leb_spec (src + count) (length array)) as [Hs |]; simpl;
    [| discriminate].
  destruct (Nat.leb_spec (dst + count) (length array)) as [Hd |]; simpl;
    [| discriminate].
  intros H. injection H as <-.
  rewrite !length_app, !length_take, !length_drop. lia.
Qed.

Lemma memmove_in_range {A} (array : list A) dst src count :
  (src + count <= length array)%nat -> (dst + count <= length array)%nat ->
  memmove array dst src count =
  Some (take dst array ++ take count (drop src array) ++
        drop (dst + count) array).
Proof.
  intros Hs Hd. unfold memmove.
  destruct (Nat.leb_spec (src + count) (length array)); [| lia].
  destruct (Nat.leb_spec (dst + count) (length array)); [| lia].
  reflexivity.
Qed.

(** Moving a piece onto itself changes nothing. *)
Lemma move_in_place {A} (array : list A) start count :
  take start array ++ take count (drop start array) ++
  drop (start + count) array = array.
Proof.
  rewrite <- drop_drop, take_drop. apply take_drop.
Qed.

Lemma setGlyphOffset_same run : setGlyphOffset run (glyphOffset run) = run.
Proof. destruct run. reflexivity. Qed.

Lemma setGlyphRun_same (d : TextLayerData Float) : setGlyphRun d (glyphRun d) = d.
Proof. destruct d. reflexivity. Qed.

Lemma unused_false run : unused run = false -> glyphOffset run <> UnsignedIntMax.
Proof. unfold unused. intros H. apply Z.eqb_neq. exact H. Qed.

Lemma total_take_le runs m :
  (forall i run, runs !! i = Some run -> 0 <= glyphCount run) ->
  0 <= total (take m runs) <= total runs.
Proof.
  intros H. rewrite <- (take_drop m runs) at 3. rewrite total_app.
  assert (0 <= total (take m runs)).
  { apply total_nonneg. intros i run Hr.
    apply lookup_take_Some in Hr. destruct Hr as [Hr _]. eapply H, Hr. }
  assert (0 <= total (drop m runs)).
  { apply total_nonneg. intros i run Hr.
    rewrite lookup_drop in Hr. eapply H, Hr. }
  lia.
Qed.

Lemma counts_nonneg s :
  typed s -> forall i run, glyphRuns s !! i = Some run -> 0 <= glyphCount run.
Proof. intros [Ht _] i run Hr. destruct (Ht i run Hr) as (_ & Hc & _). lia. Qed.

Lemma take_counts_nonneg s m :
  typed s ->
  forall i run, take m (glyphRuns s) !! i = Some run -> 0 <= glyphCount run.
Proof.
  intros Ht i run Hr. apply lookup_take_Some in Hr. destruct Hr as [Hr _].
  eapply counts_nonneg; eassumption.
Qed.

(** Used runs of a consistent state belong to different data. *)
Lemma used_runs_distinct s i j run1 run2 :
  consistent s ->
  glyphRuns s !! i = Some run1 -> unused run1 = false ->
  glyphRuns s !! j = Some run2 -> unused run2 = false ->
  Z.to_nat (Implementation.data run1) = Z.to_nat (Implementation.data run2) ->
  i = j.
Proof.
  intros (_ & _ & Hback) Hi Hui Hj Huj Heq.
  destruct (Hback i run1 Hi Hui) as (_ & d1 & Hd1 & Hg1).
  destruct (Hback j run2 Hj Huj) as (_ & d2 & Hd2 & Hg2).
  rewrite Heq in Hd1. rewrite Hd1 in Hd2. injection Hd2 as <-. lia.
Qed.

Lemma invariant_start s : consistent s ->
  invariant s 0 {| current := s; outputGlyphDataOffset := 0;
                   outputGlyphRunOffset := 0 |}.
Proof.
  intros (Ht & Hlen & Hback). unfold invariant. simpl.
  rewrite take_0. simpl.
  do 6 (split; [reflexivity |]). split.
  - intros j run Hr Hu. destruct (Hback j run Hr Hu) as (_ & d & Hd & Hg).
    exists d. split; [exact Hd | exact Hg].
  - destruct Ht as [_ Ht]. exact Ht.
Qed.

Lemma drop_eq_lookup {A} (l1 l2 : list A) i x :
  drop i l1 = drop i l2 -> l2 !! i = Some x ->
  l1 !! i = Some x /\ drop (S i) l1 = drop (S i) l2.
Proof.
  intros H Hx.
  assert (H1 : l1 !! i = Some x).
  { rewrite <- (Nat.add_0_r i), <- lookup_drop, H, lookup_drop, Nat.add_0_r.
    exact Hx. }
  split; [exact H1 |].
  rewrite (drop_S l1 x i H1), (drop_S l2 x i Hx) in H.
  injection H as H. exact H.
Qed.

Lemma newIndex_other runs0 i j :
  j <> i -> newIndex runs0 (S i) j = newIndex runs0 i j.
Proof.
  intros Hne. unfold newIndex.
  destruct (Nat.ltb_spec j (S i)), (Nat.ltb_spec j i); try reflexivity; lia.
Qed.

Lemma newIndex_self runs0 i :
  newIndex runs0 (S i) i = length (survivors (take i runs0)).
Proof.
  unfold newIndex. destruct (Nat.ltb_spec i (S i)); [reflexivity | lia].
Qed.

Lemma survivors_snoc_unused runs run :
  unused run = true -> survivors (runs ++ [run]) = survivors runs.
Proof.
  intros Hu. rewrite survivors_app. unfold survivors at 2. simpl.
  rewrite Hu. simpl. apply app_nil_r.
Qed.

Lemma survivors_snoc_used runs run :
  unused run = false -> survivors (runs ++ [run]) = survivors runs ++ [run].
Proof.
  intros Hu. rewrite survivors_app. unfold survivors at 2. simpl.
  rewrite Hu. reflexivity.
Qed.

Lemma compact_snoc_unused offset runs run :
  unused run = true -> compact offset (runs ++ [run]) = compact offset runs.
Proof.
  intros Hu. rewrite compact_app. simpl. rewrite Hu. apply app_nil_r.
Qed.

Lemma compact_snoc_used offset runs run :
  unused run = false ->
  compact offset (runs ++ [run]) =
  compact offset runs ++
  [setGlyphOffset run (offset + total (survivors runs))].
Proof.
  intros Hu. rewrite compact_app. simpl. rewrite Hu. reflexivity.
Qed.

(** Visiting an unused run changes nothing. *)
Lemma invariant_skip s0 i c run :
  invariant s0 i c ->
  glyphRuns s0 !! i = Some run -> unused run = true ->
  invariant s0 (S i) c.
Proof.
  intros (Hro & Hdo & Hlen & Htake & Hdrop & Hgd & Hback & Htyped) Hrun Hu.
  destruct (drop_eq_lookup _ _ _ _ Hdrop Hrun) as [Hcur Hdrop'].
  unfold invariant. cbv zeta.
  rewrite (take_S_r _ _ _ Hrun), (survivors_snoc_unused _ _ Hu),
    (compact_snoc_unused _ _ _ Hu).
  do 6 (split; [assumption |]). split; [| exact Htyped].
  intros j other Hj Huj.
  assert (Hne : j <> i) by (intros ->; congruence).
  rewrite (newIndex_other _ _ _ Hne). apply (Hback j other Hj Huj).
Qed.

Lemma recompactStep_used s0 i c run :
  consistent s0 -> invariant s0 i c ->
  glyphRuns s0 !! i = Some run -> unused run = false ->
  let k := length (survivors (take i (glyphRuns s0))) in
  let offset := total (survivors (take i (glyphRuns s0))) in
  let run1 := setGlyphOffset run offset in
  exists moved d,
    moved =
      take (Z.to_nat offset) (glyphData (current c)) ++
      take (Z.to_nat (glyphCount run))
        (drop (Z.to_nat (glyphOffset run)) (glyphData (current c))) ++
      drop (Z.to_nat offset + Z.to_nat (glyphCount run))
        (glyphData (current c)) /\
    length moved = length (glyphData (current c)) /\
    data (current c) !! Z.to_nat (Implementation.data run) = Some d /\
    recompactStep i c =
    Some {| current :=
              {| data := <[Z.to_nat (Implementation.data run) :=
                             setGlyphRun d (Z.of_nat k)]> (data (current c));
                 glyphData := moved;
                 glyphRuns := <[k := run1]> (<[i := run1]> (glyphRuns (current c))) |};
            outputGlyphDataOffset := offset + glyphCount run;
            outputGlyphRunOffset := Z.of_nat (S k) |}.
Proof.
  intros Hcons (Hro & Hdo & Hlen & Htake & Hdrop & Hgd & Hback & Htyped)
    Hrun Hu k offset run1.
  pose proof Hcons as (Ht & Hgd0 & Hback0).
  destruct (drop_eq_lookup _ _ _ _ Hdrop Hrun) as [Hcur _].
  destruct (Hback0 i run Hrun Hu) as (Hoff & d0 & Hd0 & Hg0).
  destruct (Hback i run Hrun Hu) as (d & Hd & Hg).
  assert (Hii : newIndex (glyphRuns s0) i i = i)
    by (unfold newIndex; destruct (Nat.ltb_spec i i); [lia | reflexivity]).
  rewrite Hii in Hg.
  assert (Hk : (k <= i)%nat).
  { subst k. pose proof (survivors_length (take i (glyphRuns s0))) as Hs.
    rewrite length_take in Hs. lia. }
  assert (Hin : (i < length (glyphRuns s0))%nat)
    by (apply lookup_lt_is_Some; eauto).
  assert (Hi32 : Z.of_nat i <= UnsignedIntMax).
  { destruct Ht as [_ Htd]. specialize (Htd _ _ Hd0). lia. }
  assert (Hrange : 0 <= glyphOffset run < UnsignedIntMax /\
                   0 <= glyphCount run <= UnsignedIntMax).
  { destruct Ht as [Htr _]. destruct (Htr _ _ Hrun) as (Ho & Hc & _).
    pose proof (unused_false _ Hu). lia. }
  assert (Hle : 0 <= offset <= glyphOffset run).
  { subst offset. rewrite Hoff. apply total_survivors_le.
    apply take_counts_nonneg. exact Ht. }
  assert (Hend : glyphOffset run + glyphCount run <=
                 Z.of_nat (length (glyphData s0))).
  { rewrite Hgd0, Hoff.
    pose proof (total_take_le (glyphRuns s0) (S i) (counts_nonneg _ Ht)) as Hm.
    rewrite (take_S_r _ _ _ Hrun), total_app in Hm. simpl in Hm. lia. }
  unfold UnsignedIntMax in *.
  change (2 ^ 32 - 1) with 4294967295 in *.
  assert (Hu64 : u64 (offset + glyphCount run) = offset + glyphCount run).
  { apply u64_small. change (2 ^ 64) with 18446744073709551616. lia. }
  assert (Hu64k : u64 (Z.of_nat k + 1) = Z.of_nat (S k)).
  { rewrite u64_small; [lia |].
    change (2 ^ 64) with 18446744073709551616. lia. }
  assert (Hu32o : u32 offset = offset).
  { apply u32_small. change (2 ^ 32) with 4294967296. lia. }
  assert (Hu32k : u32 (Z.of_nat k) = Z.of_nat k).
  { apply u32_small. change (2 ^ 32) with 4294967296. lia. }
  assert (Hkin : (k < length (glyphRuns (current c)))%nat) by lia.
  unfold recompactStep. rewrite Hcur. simpl. rewrite Hu, Hdo, Hro.
  fold offset. fold k.
  destruct (Z.eqb_spec (glyphOffset run) offset) as [Heq | Hne]; simpl.
  - assert (Hr1 : run1 = run)
      by (subst run1; rewrite <- Heq; apply setGlyphOffset_same).
    rewrite Hu64, Hu64k.
    destruct (Z.eqb_spec (Z.of_nat i) (Z.of_nat k)) as [Hik | Hik]; simpl.
    + exists (glyphData (current c)), d.
      split; [rewrite Heq; symmetry; apply move_in_place |].
      split; [reflexivity |]. split; [exact Hd |].
      assert (Hik' : i = k) by lia.
      rewrite Hr1, <- Hik', list_insert_insert_eq, (list_insert_id _ _ _ Hcur).
      rewrite <- Hg, setGlyphRun_same, (list_insert_id _ _ _ Hd).
      reflexivity.
    + destruct (Z.ltb_spec (Z.of_nat k) (Z.of_nat i)) as [_ | Hge]; [| lia].
      simpl. rewrite Hd. simpl. rewrite Nat2Z.id.
      destruct (lookup_lt_is_Some_2 _ _ Hkin) as [old Hold].
      rewrite Hold. simpl. rewrite Hu32k.
      exists (glyphData (current c)), d.
      split; [rewrite Heq; symmetry; apply move_in_place |].
      split; [reflexivity |]. split; [reflexivity |].
      rewrite Hr1, (list_insert_id _ _ _ Hcur). reflexivity.
  - destruct (Z.ltb_spec offset (glyphOffset run)) as [_ | Hge]; [| lia].
    simpl.
    assert (Hik : i <> k).
    { intros Hik. apply Hne. rewrite Hoff. subst offset.
      rewrite survivors_all; [reflexivity |].
      fold k. rewrite <- Hik, length_take. lia. }
    destruct (Z.eqb_spec (Z.of_nat i) (Z.of_nat k)) as [Hik' | _]; [lia |].
    pose proof (memmove_in_range (glyphData (current c)) (Z.to_nat offset)
                  (Z.to_nat (glyphOffset run)) (Z.to_nat (glyphCount run)))
      as Hmoved.
    rewrite Hmoved by lia. simpl. rewrite Hu32o. fold run1.
    rewrite Hu64, Hu64k.
    destruct (Z.ltb_spec (Z.of_nat k) (Z.of_nat i)) as [_ | Hge]; [| lia].
    simpl. rewrite Hd. simpl. rewrite Nat2Z.id.
    assert (Hkin' : (k < length (<[i:=run1]> (glyphRuns (current c))))%nat)
      by (rewrite length_insert; exact Hkin).
    destruct (lookup_lt_is_Some_2 _ _ Hkin') as [old Hold].
    rewrite Hold. simpl. rewrite Hu32k.
    eexists _, d. split; [reflexivity |].
    split; [apply (memmove_length (glyphData (current c)) _ (Z.to_nat offset)
                     (Z.to_nat (glyphOffset run)) (Z.to_nat (glyphCount run)));
            apply Hmoved; lia |].
    split; reflexivity.
Qed.

(** Every iteration succeeds and re-establishes the invariant. *)
Lemma invariant_step s0 i c :
  consistent s0 -> (i < length (glyphRuns s0))%nat -> invariant s0 i c ->
  exists c', recompactStep i c = Some c' /\ invariant s0 (S i) c'.
Proof.
  intros Hcons Hin Hinv.
  destruct (lookup_lt_is_Some_2 _ _ Hin) as [run Hrun].
  destruct (unused run) eqn:Hu.
  - exists c. split; [| eapply invariant_skip; eassumption].
    destruct Hinv as (_ & _ & _ & _ & Hdrop & _).
    destruct (drop_eq_lookup _ _ _ _ Hdrop Hrun) as [Hcur _].
    unfold recompactStep. rewrite Hcur. simpl. rewrite Hu. reflexivity.
  - destruct (recompactStep_used s0 i c run Hcons Hinv Hrun Hu)
      as (moved & d & _ & Hmoved & Hd & Hstep).
    eexists. split; [exact Hstep |].
    destruct Hinv as (Hro & Hdo & Hlen & Htake & Hdrop & Hgd & Hback & Htyped).
    pose proof Hcons as (Ht & Hgd0 & Hback0).
    destruct (drop_eq_lookup _ _ _ _ Hdrop Hrun) as [Hcur Hdrop'].
    set (k := length (survivors (take i (glyphRuns s0)))) in *.
    assert (Hk : (k <= i)%nat).
    { subst k. pose proof (survivors_length (take i (glyphRuns s0))) as Hs.
      rewrite length_take in Hs. lia. }
    assert (Hi32 : Z.of_nat i <= UnsignedIntMax).
    { destruct (Hback0 i run Hrun Hu) as (_ & d0 & Hd0 & Hg0).
      destruct Ht as [_ Htd]. specialize (Htd _ _ Hd0). lia. }
    unfold invariant. cbv zeta. simpl.
    rewrite (take_S_r _ _ _ Hrun), (survivors_snoc_used _ _ Hu),
      (compact_snoc_used _ _ _ Hu), total_app, length_app. simpl.
    fold k.
    split; [lia |]. split; [lia |].
    split; [rewrite !length_insert; exact Hlen |].
    split; [| split; [| split; [| split]]].
    + replace (k + 1)%nat with (S k) by lia.
      rewrite (take_S_r _ k
                 (setGlyphOffset run (total (survivors (take i (glyphRuns s0)))))).
      * rewrite !take_insert_ge by lia. rewrite Htake. reflexivity.
      * apply list_lookup_insert_eq. rewrite length_insert. lia.
    + rewrite !drop_insert_lt by lia. exact Hdrop'.
    + rewrite Hmoved. exact Hgd.
    + intros j other Hj Huj. destruct (Nat.eq_dec j i) as [-> | Hne].
      * assert (other = run) by congruence. subst other.
        rewrite newIndex_self. fold k.
        exists (setGlyphRun d (Z.of_nat k)). split; [| reflexivity].
        apply list_lookup_insert_eq. apply lookup_lt_is_Some. eauto.
      * rewrite (newIndex_other _ _ _ Hne).
        destruct (Hback j other Hj Huj) as (d' & Hd' & Hg').
        exists d'. split; [| exact Hg'].
        rewrite list_lookup_insert_ne; [exact Hd' |].
        intros Heq. apply Hne. symmetry.
        eapply (used_runs_distinct s0 i j run other); eassumption.
    + intros j d' Hd'. apply list_lookup_insert_Some in Hd'.
      destruct Hd' as [(_ & <- & _) | (_ & Hd')].
      * simpl. lia.
      * apply (Htyped j d' Hd').
Qed.

Lemma recompactLoop_invariant s0 m i c :
  consistent s0 -> (i + m = length (glyphRuns s0))%nat -> invariant s0 i c ->
  exists c', recompactLoop (seq i m) c = Some c' /\
             invariant s0 (length (glyphRuns s0)) c'.
Proof.
  intros Hcons. revert i c. induction m as [| m IH]; intros i c Hlen Hinv; simpl.
  - exists c. split; [reflexivity |].
    replace (length (glyphRuns s0)) with i by lia. exact Hinv.
  - destruct (invariant_step s0 i c Hcons) as (c1 & Hstep & Hinv1);
      [lia | exact Hinv |].
    rewrite Hstep. simpl. apply IH; [lia | exact Hinv1].
Qed.

(** *** The glyphs themselves *)

Lemma keptGlyphs_app {A} (glyphData : list A) runs1 runs2 :
  (forall i run, runs1 !! i = Some run -> 0 <= glyphCount run) ->
  keptGlyphs glyphData (runs1 ++ runs2) =
  keptGlyphs glyphData runs1 ++
  keptGlyphs (drop (Z.to_nat (total runs1)) glyphData) runs2.
Proof.
  revert glyphData.
  induction runs1 as [| run rest IH]; intros glyphData H; [reflexivity |].
  assert (Hrest : forall i r, rest !! i = Some r -> 0 <= glyphCount r)
    by (intros i r Hr; apply (H (S i) r Hr)).
  pose proof (H 0%nat run eq_refl) as Hrun.
  pose proof (total_nonneg rest Hrest) as Htot.
  cbn [keptGlyphs app]. rewrite (IH _ Hrest), drop_drop.
  replace (Z.to_nat (total (run :: rest)))
    with (Z.to_nat (glyphCount run) + Z.to_nat (total rest))%nat
    by (change (total (run :: rest)) with (glyphCount run + total rest); lia).
  destruct (unused run); [reflexivity |]. rewrite <- app_assoc. reflexivity.
Qed.

(** What [memmove()] leaves in front of the new output offset ... *)
Lemma moved_take {A} (array : list A) dst src count :
  (dst <= src)%nat -> (src + count <= length array)%nat ->
  take (dst + count)
    (take dst array ++ take count (drop src array) ++ drop (dst + count) array) =
  take dst array ++ take count (drop src array).
Proof.
  intros Hle Hend. rewrite app_assoc. apply take_app_length'.
  rewrite length_app, !length_take, length_drop. lia.
Qed.

(** ... and behind the run it moved. *)
Lemma moved_drop {A} (array : list A) dst src count :
  (dst <= src)%nat -> (src + count <= length array)%nat ->
  drop (src + count)
    (take dst array ++ take count (drop src array) ++ drop (dst + count) array) =
  drop (src + count) array.
Proof.
  intros Hle Hend. rewrite app_assoc, drop_app_ge.
  - rewrite length_app, !length_take, length_drop, drop_drop.
    f_equal. lia.
  - rewrite length_app, !length_take, length_drop. lia.
Qed.

Lemma glyphInvariant_start s :
  glyphInvariant s 0 {| current := s; outputGlyphDataOffset := 0;
                        outputGlyphRunOffset := 0 |}.
Proof.
  unfold glyphInvariant. simpl. rewrite take_0. simpl.
  split; reflexivity.
Qed.

(** Every iteration keeps the glyphs of the used runs. *)
Lemma glyphInvariant_step s0 i c c' :
  consistent s0 -> (i < length (glyphRuns s0))%nat ->
  invariant s0 i c -> glyphInvariant s0 i c ->
  recompactStep i c = Some c' -> glyphInvariant s0 (S i) c'.
Proof.
  intros Hcons Hin Hinv [Hfront Hrest] Hstep.
  destruct (lookup_lt_is_Some_2 _ _ Hin) as [run Hrun].
  pose proof Hcons as (Ht & Hgd0 & Hback0).
  pose proof (take_counts_nonneg s0 i Ht) as Hnn.
  pose proof (total_nonneg _ Hnn) as Htot.
  assert (Hcount : 0 <= glyphCount run)
    by (destruct Ht as [Htr _]; destruct (Htr _ _ Hrun) as (_ & Hc & _); lia).
  unfold glyphInvariant. cbv zeta.
  rewrite (take_S_r _ _ _ Hrun), (keptGlyphs_app _ _ _ Hnn), total_app.
  replace (total [run]) with (glyphCount run) by (simpl; lia).
  replace (Z.to_nat (total (take i (glyphRuns s0)) + glyphCount run))
    with (Z.to_nat (total (take i (glyphRuns s0))) +
          Z.to_nat (glyphCount run))%nat by lia.
  destruct (unused run) eqn:Hu.
  - assert (c' = c).
    { destruct Hinv as (_ & _ & _ & _ & Hdrop & _).
      destruct (drop_eq_lookup _ _ _ _ Hdrop Hrun) as [Hcur _].
      unfold recompactStep in Hstep. rewrite Hcur in Hstep. simpl in Hstep.
      rewrite Hu in Hstep. congruence. }
    subst c'. cbn [keptGlyphs]. rewrite Hu, app_nil_r.
    split; [exact Hfront |].
    rewrite <- !drop_drop, Hrest. reflexivity.
  - destruct (recompactStep_used s0 i c run Hcons Hinv Hrun Hu)
      as (moved & d & Hmoved & _ & _ & Hstep').
    rewrite Hstep' in Hstep. injection Hstep as <-.
    destruct Hinv as (_ & Hdo & _ & _ & _ & Hgd & _).
    destruct (Hback0 i run Hrun Hu) as (Hoff & _).
    pose proof (total_survivors_le (take i (glyphRuns s0)) Hnn) as Hle.
    assert (Hend : (Z.to_nat (glyphOffset run) + Z.to_nat (glyphCount run) <=
                    length (glyphData (current c)))%nat).
    { rewrite Hgd.
      pose proof (total_take_le (glyphRuns s0) (S i) (counts_nonneg _ Ht)) as Hm.
      rewrite (take_S_r _ _ _ Hrun), total_app in Hm. simpl in Hm. lia. }
    rewrite Hdo in Hfront. rewrite <- Hoff in Hrest |- *.
    cbn [current glyphData outputGlyphDataOffset keptGlyphs]. rewrite Hu, app_nil_r.
    subst moved.
    replace (Z.to_nat (total (survivors (take i (glyphRuns s0))) +
                       glyphCount run))
      with (Z.to_nat (total (survivors (take i (glyphRuns s0)))) +
            Z.to_nat (glyphCount run))%nat by lia.
    split.
    + rewrite moved_take by lia. rewrite Hfront, Hrest. reflexivity.
    + rewrite moved_drop by lia. rewrite <- !drop_drop, Hrest. reflexivity.
Qed.

Lemma recompactLoop_glyphs s0 m i c c' :
  consistent s0 -> (i + m = length (glyphRuns s0))%nat ->
  invariant s0 i c -> glyphInvariant s0 i c ->
  recompactLoop (seq i m) c = Some c' ->
  glyphInvariant s0 (length (glyphRuns s0)) c'.
Proof.
  intros Hcons. revert i c.
  induction m as [| m IH]; intros i c Hlen Hinv Hglyphs Hloop; simpl in Hloop.
  - replace (length (glyphRuns s0)) with i by lia. congruence.
  - destruct (invariant_step s0 i c Hcons) as (c1 & Hstep & Hinv1);
      [lia | exact Hinv |].
    rewrite Hstep in Hloop. simpl in Hloop.
    apply (IH (S i) c1); [lia | exact Hinv1 | | exact Hloop].
    apply (glyphInvariant_step s0 i c c1 Hcons); [lia | assumption ..].
Qed.

(** The glyph data the recompaction leaves are the glyphs of the used
    runs, in their order. *)
Lemma recompact_glyphs s s' :
  consistent s -> recompact s = Some s' ->
  glyphData s' = keptGlyphs (glyphData s) (glyphRuns s).
Proof.
  intros Hcons Hre.
  destruct (recompactLoop_invariant s (length (glyphRuns s)) 0
              {| current := s; outputGlyphDataOffset := 0;
                 outputGlyphRunOffset := 0 |} Hcons)
    as (c & Hloop & _); [lia | apply invariant_start; exact Hcons |].
  pose proof (recompactLoop_glyphs s (length (glyphRuns s)) 0 _ c Hcons
                eq_refl (invariant_start s Hcons) (glyphInvariant_start s)
                Hloop) as [Hfront _].
  rewrite firstn_all in Hfront.
  unfold recompact in Hre. rewrite Hloop in Hre. simpl in Hre.
  destruct (negb _) in Hre; [discriminate |].
  destruct (negb _) in Hre; [discriminate |].
  injection Hre as <-. exact Hfront.
Qed.

(** The recompaction of a consistent state returns, and what it returns is
    the functional description. *)
Lemma recompact_result s :
  consistent s ->
  exists s',
    recompact s = Some s' /\
    glyphRuns s' = compact 0 (glyphRuns s) /\
    Z.of_nat (length (glyphData s')) = total (survivors (glyphRuns s)) /\
    (forall j run, glyphRuns s !! j = Some run -> unused run = false ->
       exists d, data s' !! Z.to_nat (Implementation.data run) = Some d /\
                 glyphRun d =
                 Z.of_nat (length (survivors (take j (glyphRuns s))))) /\
    (forall j d, data s' !! j = Some d -> 0 <= glyphRun d <= UnsignedIntMax).
Proof.
  intros Hcons.
  destruct (recompactLoop_invariant s (length (glyphRuns s)) 0
              {| current := s; outputGlyphDataOffset := 0;
                 outputGlyphRunOffset := 0 |} Hcons)
    as (c & Hloop & Hinv); [lia | apply invariant_start; exact Hcons |].
  destruct Hinv as (Hro & Hdo & Hlen & Htake & _ & Hgd & Hback & Htyped).
  pose proof Hcons as (Ht & Hgd0 & _).
  rewrite firstn_all in *.
  pose proof (total_survivors_le (glyphRuns s) (counts_nonneg _ Ht)) as Htot.
  pose proof (survivors_length (glyphRuns s)) as Hsl.
  unfold recompact. rewrite Hloop. simpl. rewrite Hro, Hdo, Hgd, Hlen.
  destruct (Z.leb_spec (total (survivors (glyphRuns s)))
              (Z.of_nat (length (glyphData s)))) as [_ | Hgt]; [| lia].
  destruct (Z.leb_spec (Z.of_nat (length (survivors (glyphRuns s))))
              (Z.of_nat (length (glyphRuns s)))) as [_ | Hgt]; [| lia].
  simpl. eexists. split; [reflexivity |]. simpl.
  rewrite Nat2Z.id. split; [exact Htake |].
  split; [rewrite length_take; lia |].
  split; [| exact Htyped].
  intros j run Hj Hu. destruct (Hback j run Hj Hu) as (d & Hd & Hg).
  exists d. split; [exact Hd |]. rewrite Hg. unfold newIndex.
  destruct (Nat.ltb_spec j (length (glyphRuns s))) as [_ | Hge];
    [reflexivity |].
  apply lookup_lt_Some in Hj. lia.
Qed.

(** C8: after the recompaction pass at the start of [doUpdate()], run on
    a state in which the bookkeeping invariant holds, no glyph run is
    marked unused, the surviving runs keep their relative order (with
    their glyph counts and data), every run starts where the glyphs of the
    runs before it end, the glyph data array holds exactly the glyphs the
    used runs had, in their order, and the data of every run refers back
    to that run. *)
Theorem recompact_compacts s :
  consistent s ->
  exists s',
    recompact s = Some s' /\
    (forall j run, glyphRuns s' !! j = Some run ->
       glyphOffset run <> UnsignedIntMax) /\
    map contents (glyphRuns s') = map contents (survivors (glyphRuns s)) /\
    (forall j run, glyphRuns s' !! j = Some run ->
       glyphOffset run = total (take j (glyphRuns s'))) /\
    Z.of_nat (length (glyphData s')) = total (glyphRuns s') /\
    glyphData s' = keptGlyphs (glyphData s) (glyphRuns s) /\
    (forall j run, glyphRuns s' !! j = Some run ->
       exists d, data s' !! Z.to_nat (Implementation.data run) = Some d /\
                 glyphRun d = Z.of_nat j).
Proof.
  intros Hcons.
  destruct (recompact_result s Hcons) as (s' & Hre & Hruns & Hgd & Hback & _).
  pose proof Hcons as (Ht & _ & Hback0).
  exists s'. split; [exact Hre |]. rewrite Hruns.
  split; [| split; [| split; [| split; [| split]]]].
  - intros j run Hj.
    destruct (compact_lookup _ _ _ _ Hj) as (i & run0 & Hi & Hu & -> & _).
    simpl. destruct (Hback0 i run0 Hi Hu) as (Hoff & _).
    pose proof (unused_false _ Hu) as Hne.
    pose proof (total_survivors_le (take i (glyphRuns s))
                  (take_counts_nonneg s i Ht)) as Hle.
    destruct Ht as [Htr _]. destruct (Htr _ _ Hi) as (Ho & _). lia.
  - apply compact_contents.
  - intros j run Hj. rewrite (compact_offsets _ _ _ _ Hj). lia.
  - rewrite total_compact. exact Hgd.
  - exact (recompact_glyphs s s' Hcons Hre).
  - intros j run Hj.
    destruct (compact_lookup _ _ _ _ Hj) as (i & run0 & Hi & Hu & -> & ->).
    simpl. apply (Hback i run0 Hi Hu).
Qed.

(** *** Removal *)

Lemma markIf_markIf a b run :
  markIf a (markIf b run) = markIf (b || a) run.
Proof. destruct a, b; reflexivity. Qed.

Lemma markUnused_spec s id d run :
  data s !! Z.to_nat id = Some d ->
  glyphRuns s !! Z.to_nat (glyphRun d) = Some run ->
  exists s',
    markUnused s id = Some s' /\
    data s' = data s /\ glyphData s' = glyphData s /\
    forall j, glyphRuns s' !! j =
              markIf (Z.to_nat (glyphRun d) =? j)%nat <$> glyphRuns s !! j.
Proof.
  intros Hd Hrun. unfold markUnused. rewrite Hd. simpl. rewrite Hrun. simpl.
  eexists. split; [reflexivity |]. simpl.
  split; [reflexivity |]. split; [reflexivity |].
  intros j. destruct (Nat.eqb_spec (Z.to_nat (glyphRun d)) j) as [<- | Hne].
  - rewrite list_lookup_insert_eq by (apply lookup_lt_is_Some; eauto).
    rewrite Hrun. reflexivity.
  - rewrite list_lookup_insert_ne by exact Hne.
    destruct (glyphRuns s !! j); reflexivity.
Qed.

Lemma doCleanFrom_spec dataIdsToRemove i s :
  (forall n, dataIdsToRemove !! n = Some true ->
     exists d run, data s !! (i + n)%nat = Some d /\
                   glyphRuns s !! Z.to_nat (glyphRun d) = Some run) ->
  exists s',
    doCleanFrom i dataIdsToRemove s = Some s' /\
    data s' = data s /\ glyphData s' = glyphData s /\
    forall j, glyphRuns s' !! j =
              markIf (flaggedFrom i dataIdsToRemove (data s) j)
                <$> glyphRuns s !! j.
Proof.
  revert i s. induction dataIdsToRemove as [| bit rest IH]; intros i s Hin; simpl.
  - exists s. repeat split. intros j. destruct (glyphRuns s !! j); reflexivity.
  - assert (Hstep : exists s1,
              (if bit then markUnused s (Z.of_nat i) else Some s) = Some s1 /\
              data s1 = data s /\ glyphData s1 = glyphData s /\
              forall j, glyphRuns s1 !! j =
                markIf (bit && match data s !! i with
                               | Some d => (Z.to_nat (glyphRun d) =? j)%nat
                               | None => false
                               end) <$> glyphRuns s !! j).
    { destruct bit.
      - destruct (Hin 0%nat eq_refl) as (d & run & Hd & Hrun).
        rewrite Nat.add_0_r in Hd.
        destruct (markUnused_spec s (Z.of_nat i) d run) as (s1 & H1 & H2 & H3 & H4);
          [rewrite Nat2Z.id; exact Hd | exact Hrun |].
        exists s1. rewrite Hd. simpl. repeat split; assumption.
      - exists s. repeat split. intros j. simpl.
        destruct (glyphRuns s !! j); reflexivity. }
    destruct Hstep as (s1 & -> & Hd1 & Hg1 & Hr1). simpl.
    destruct (IH (S i) s1) as (s' & Hs' & Hd' & Hg' & Hr').
    { intros n Hn. destruct (Hin (S n) Hn) as (d & run & Hd & Hrun).
      rewrite Hd1. replace (S i + n)%nat with (i + S n)%nat by lia.
      exists d. rewrite Hr1, Hrun. simpl. eexists. split; [exact Hd | reflexivity]. }
    exists s'. split; [exact Hs' |].
    split; [congruence |]. split; [congruence |].
    intros j. rewrite Hr', Hr1, Hd1.
    destruct (glyphRuns s !! j); simpl; [| reflexivity].
    rewrite markIf_markIf. reflexivity.
Qed.

(** C9: removing a data only marks its glyph run as unused.
    [removeInternal()] sets the [glyphOffset] of the run of the removed
    data to [~UnsignedInt{}] and changes nothing else: the base object (so
    [setNeedsUpdate()] was not called), all data records, the glyph data
    and every other glyph run are what they were.  [remove()] leaves the
    base object as the base class [remove()] made it.  [doClean()] does
    the same for the run of every flagged data. *)
Theorem removal_only_marks_the_run :
  (forall id layer d run,
     data (state layer) !! Z.to_nat id = Some d ->
     glyphRuns (state layer) !! Z.to_nat (glyphRun d) = Some run ->
     exists layer',
       removeInternal id layer = Some layer' /\
       base layer' = base layer /\
       data (state layer') = data (state layer) /\
       glyphData (state layer') = glyphData (state layer) /\
       glyphRuns (state layer') !! Z.to_nat (glyphRun d) =
         Some {| glyphOffset := UnsignedIntMax;
                 glyphCount := glyphCount run;
                 Implementation.data := Implementation.data run |} /\
       forall j, j <> Z.to_nat (glyphRun d) ->
         glyphRuns (state layer') !! j = glyphRuns (state layer) !! j) /\
  (forall handle layer removed d run,
     AbstractVisualLayer_remove handle (base layer) = Some removed ->
     data (state layer) !! Z.to_nat (Handle.dataHandleId handle) = Some d ->
     glyphRuns (state layer) !! Z.to_nat (glyphRun d) = Some run ->
     exists layer',
       remove handle layer = Some layer' /\
       base layer' = removed /\
       data (state layer') = data (state layer) /\
       glyphData (state layer') = glyphData (state layer) /\
       glyphRuns (state layer') !! Z.to_nat (glyphRun d) =
         Some {| glyphOffset := UnsignedIntMax;
                 glyphCount := glyphCount run;
                 Implementation.data := Implementation.data run |} /\
       forall j, j <> Z.to_nat (glyphRun d) ->
         glyphRuns (state layer') !! j = glyphRuns (state layer) !! j) /\
  (forall dataIdsToRemove layer,
     (forall i, dataIdsToRemove !! i = Some true ->
        exists d run, data (state layer) !! i = Some d /\
          glyphRuns (state layer) !! Z.to_nat (glyphRun d) = Some run) ->
     exists layer',
       doClean dataIdsToRemove layer = Some layer' /\
       base layer' = base layer /\
       data (state layer') = data (state layer) /\
       glyphData (state layer') = glyphData (state layer) /\
       forall j, glyphRuns (state layer') !! j =
                 markIf (flaggedFrom 0 dataIdsToRemove (data (state layer)) j)
                   <$> glyphRuns (state layer) !! j).
Proof.
  assert (Hinternal : forall id b s d run,
     data s !! Z.to_nat id = Some d ->
     glyphRuns s !! Z.to_nat (glyphRun d) = Some run ->
     exists layer',
       removeInternal id {| base := b; state := s |} = Some layer' /\
       base layer' = b /\
       data (state layer') = data s /\
       glyphData (state layer') = glyphData s /\
       glyphRuns (state layer') !! Z.to_nat (glyphRun d) =
         Some {| glyphOffset := UnsignedIntMax;
                 glyphCount := glyphCount run;
                 Implementation.data := Implementation.data run |} /\
       forall j, j <> Z.to_nat (glyphRun d) ->
         glyphRuns (state layer') !! j = glyphRuns s !! j).
  { intros id b s d run Hd Hrun.
    destruct (markUnused_spec s id d run Hd Hrun) as (s' & Hs' & Hd' & Hg' & Hr').
    unfold removeInternal. simpl. rewrite Hs'. simpl.
    eexists. split; [reflexivity |]. simpl.
    split; [reflexivity |]. split; [exact Hd' |]. split; [exact Hg' |]. split.
    - rewrite Hr', Hrun, Nat.eqb_refl. reflexivity.
    - intros j Hne. rewrite Hr'.
      destruct (Nat.eqb_spec (Z.to_nat (glyphRun d)) j) as [Heq | _];
        [congruence |].
      destruct (glyphRuns s !! j); reflexivity. }
  split; [| split].
  - intros id [b s] d run Hd Hrun. apply (Hinternal id b s d run Hd Hrun).
  - intros handle [b s] removed d run Hbase Hd Hrun. simpl in *.
    unfold remove. simpl. rewrite Hbase. simpl.
    apply (Hinternal _ removed s d run Hd Hrun).
  - intros dataIdsToRemove [b s] Hin. simpl in *.
    destruct (doCleanFrom_spec dataIdsToRemove 0 s Hin)
      as (s' & Hs' & Hd' & Hg' & Hr').
    unfold doClean. simpl. rewrite Hs'. simpl.
    eexists. split; [reflexivity |]. simpl. repeat split; assumption.
Qed.

(** In contrast, a mutator such as [setColorInternal()] does call
    [setNeedsUpdate()]. *)
Lemma setColorInternal_sets_needs_update id value layer d :
  data (state layer) !! Z.to_nat id = Some d ->
  exists layer',
    setColorInternal id value layer = Some layer' /\
    base layer' = setNeedsUpdate (base layer).
Proof.
  intros Hd. unfold setColorInternal. rewrite Hd. simpl.
  eexists. split; reflexivity.
Qed.

(** *** The bookkeeping invariant is an invariant *)

Lemma u32_range x : 0 <= u32 x <= UnsignedIntMax.
Proof.
  unfold u32, UnsignedIntMax.
  pose proof (Z.mod_pos_bound x (2 ^ 32) eq_refl). lia.
Qed.

Lemma u32_max x : 0 <= x <= UnsignedIntMax -> u32 x = x.
Proof. unfold UnsignedIntMax. intros H. apply u32_small. lia. Qed.

Lemma consistent_empty : consistent {| data := []; glyphData := []; glyphRuns := [] |}.
Proof.
  split; [split |]; [| | split]; simpl.
  - intros i run H. discriminate H.
  - intros i d H. discriminate H.
  - reflexivity.
  - intros i run H. discriminate H.
Qed.

Lemma markUnused_consistent s id s' :
  consistent s -> markUnused s id = Some s' -> consistent s'.
Proof.
  intros Hcons Hmark. unfold markUnused in Hmark.
  destruct (data s !! Z.to_nat id) as [d |] eqn:Hd; simpl in Hmark;
    [| discriminate].
  destruct (glyphRuns s !! Z.to_nat (glyphRun d)) as [run |] eqn:Hrun;
    simpl in Hmark; [| discriminate].
  destruct (markUnused_spec s id d run Hd Hrun) as (s1 & Hs1 & Hd1 & Hg1 & Hr1).
  unfold markUnused in Hs1. rewrite Hd in Hs1. simpl in Hs1.
  rewrite Hrun in Hs1. simpl in Hs1. rewrite Hs1 in Hmark.
  injection Hmark as <-. clear Hs1.
  destruct Hcons as ((Htr & Htd) & Hlen & Hback).
  assert (Hcontents : map contents (glyphRuns s1) = map contents (glyphRuns s)).
  { apply list_eq. intros j. rewrite !list_lookup_fmap, Hr1.
    destruct (glyphRuns s !! j) as [r |]; [| reflexivity]. simpl.
    destruct (Z.to_nat (glyphRun d) =? j)%nat; reflexivity. }
  assert (Htake : forall i, total (take i (glyphRuns s1)) =
                            total (take i (glyphRuns s))).
  { intros i. apply total_contents. rewrite <- !List.firstn_map. f_equal.
    exact Hcontents. }
  split; [split |]; [| | split].
  - intros i r Hr. rewrite Hr1 in Hr.
    destruct (glyphRuns s !! i) as [r0 |] eqn:Hr0; [| discriminate].
    simpl in Hr. injection Hr as <-.
    specialize (Htr i r0 Hr0).
    destruct (Z.to_nat (glyphRun d) =? i)%nat; simpl; [| exact Htr].
    unfold UnsignedIntMax in *. lia.
  - rewrite Hd1. exact Htd.
  - rewrite Hg1, Hlen. symmetry. apply total_contents. exact Hcontents.
  - intros i r Hr Hu. rewrite Hr1 in Hr.
    destruct (glyphRuns s !! i) as [r0 |] eqn:Hr0; [| discriminate].
    simpl in Hr. injection Hr as <-.
    destruct (Z.to_nat (glyphRun d) =? i)%nat; simpl in *;
      [discriminate Hu |].
    rewrite Htake, Hd1. apply (Hback i r0 Hr0 Hu).
Qed.

Lemma addGlyphRun_consistent id glyphs newScale newAlignment s s' :
  consistent s ->
  0 <= id <= UnsignedIntMax ->
  Z.of_nat (length glyphs) <= UnsignedIntMax ->
  Z.of_nat (length (glyphRuns s)) <= UnsignedIntMax ->
  Z.of_nat (length (glyphData s)) <= UnsignedIntMax ->
  (forall j run, glyphRuns s !! j = Some run -> unused run = false ->
     Z.to_nat (Implementation.data run) <> Z.to_nat id) ->
  addGlyphRun id glyphs newScale newAlignment s = Some s' ->
  consistent s'.
Proof.
  intros ((Htr & Htd) & Hlen & Hback) Hid Hglyphs Hruns Hdata Hfresh Hshape.
  unfold addGlyphRun in Hshape.
  destruct (data s !! Z.to_nat id) as [d |] eqn:Hd; simpl in Hshape;
    [| discriminate].
  injection Hshape as <-.
  rewrite (u32_max (Z.of_nat (length glyphs))) by lia.
  rewrite (u32_max (Z.of_nat (length (glyphRuns s)))) by lia.
  rewrite (u32_max (Z.of_nat (length (glyphData s)))) by lia.
  split; [split |]; [| | split]; simpl.
  - intros i run Hr. apply lookup_app_Some in Hr.
    destruct Hr as [Hr | [_ Hr]]; [apply (Htr i run Hr) |].
    destruct (i - length (glyphRuns s))%nat; simpl in Hr; [| discriminate].
    injection Hr as <-. simpl. lia.
  - intros i d' Hd'. apply list_lookup_insert_Some in Hd'.
    destruct Hd' as [(_ & <- & _) | (_ & Hd')]; [simpl; lia |].
    apply (Htd i d' Hd').
  - rewrite length_app, total_app. simpl. lia.
  - intros i run Hr Hu. apply lookup_app_Some in Hr.
    destruct Hr as [Hr | [Hge Hr]].
    + assert (Hlt : (i < length (glyphRuns s))%nat)
        by (apply lookup_lt_is_Some; eauto).
      rewrite take_app_le by lia.
      destruct (Hback i run Hr Hu) as (Hoff & d' & Hd' & Hg').
      split; [exact Hoff |]. exists d'. split; [| exact Hg'].
      rewrite list_lookup_insert_ne; [exact Hd' |].
      intros Heq. apply (Hfresh i run Hr Hu). symmetry. exact Heq.
    + destruct (i - length (glyphRuns s))%nat eqn:Hi; simpl in Hr;
        [| discriminate].
      injection Hr as <-. simpl.
      assert (i = length (glyphRuns s)) by lia. subst i.
      rewrite take_app_length. split; [lia |].
      eexists. split; [apply list_lookup_insert_eq;
                       apply lookup_lt_is_Some; eauto |].
      reflexivity.
Qed.

Lemma recompact_consistent s :
  consistent s -> exists s', recompact s = Some s' /\ consistent s'.
Proof.
  intros Hcons.
  destruct (recompact_result s Hcons) as (s' & Hre & Hruns & Hgd & Hback & Htd).
  pose proof Hcons as (Ht & _ & Hback0).
  exists s'. split; [exact Hre |].
  split; [split |]; [| | split].
  - intros j run Hj. rewrite Hruns in Hj.
    destruct (compact_lookup _ _ _ _ Hj) as (i & run0 & Hi & Hu & -> & _).
    simpl. destruct (Hback0 i run0 Hi Hu) as (Hoff & _).
    pose proof (total_survivors_le (take i (glyphRuns s))
                  (take_counts_nonneg s i Ht)) as Hle.
    destruct Ht as [Htr _]. destruct (Htr _ _ Hi) as (Ho & Hc & Hd). lia.
  - exact Htd.
  - rewrite Hruns, total_compact. exact Hgd.
  - intros j run Hj Hu. rewrite Hruns in *.
    split; [rewrite (compact_offsets _ _ _ _ Hj); lia |].
    destruct (compact_lookup _ _ _ _ Hj) as (i & run0 & Hi & Hu0 & -> & ->).
    simpl. apply (Hback i run0 Hi Hu0).
Qed.

(** *** Colors and paddings *)

(** What [AbstractLayer::create()] of the base gives for a node: the base
    object with the data registered, and the handle of the data.
    [uninitializedData] is what [arrayAppend(..., NoInit, ...)] leaves in
    new elements, [fzero] the [Float] zero of a default-constructed
    vector. *)
Variable AbstractLayer_create : Z -> Base -> option (Base * Z).
Variable uninitializedData : TextLayerData Float.
Variable fzero : Float.

(** [TextLayer::color()] and [TextLayer::padding()], after the assertion
    on the handle: the array access at the data id. *)
Definition color_ (id : Z) (layer : Layer) : option (Float * Float * Float) :=
  color <$> data (state layer) !! Z.to_nat id.

Definition padding_ (id : Z) (layer : Layer)
    : option (Float * Float * Float * Float) :=
  padding <$> data (state layer) !! Z.to_nat id.

(** [TextLayer::setPaddingInternal()] *)
Definition setPaddingInternal (id : Z) (value : Float * Float * Float * Float)
    (layer : Layer) : option Layer :=
  d ← data (state layer) !! Z.to_nat id;
  Some {| base := setNeedsUpdate (base layer);
          state := {| data := <[Z.to_nat id := setPadding d value]>
                                (data (state layer));
                      glyphData := glyphData (state layer);
                      glyphRuns := glyphRuns (state layer) |} |}.

(** [if(id >= state.data.size()) arrayAppend(state.data, NoInit,
    id - state.data.size() + 1)] *)
Definition growTo (id : Z) (array : list (TextLayerData Float))
    : list (TextLayerData Float) :=
  if Z.of_nat (length array) <=? id
  then array ++
       replicate (Z.to_nat (u64 (id - Z.of_nat (length array) + 1)))
         uninitializedData
  else array.

(** *** Removal and setters keep the bookkeeping *)

Lemma doCleanFrom_consistent dataIdsToRemove i s s' :
  consistent s -> doCleanFrom i dataIdsToRemove s = Some s' -> consistent s'.
Proof.
  revert i s. induction dataIdsToRemove as [| bit rest IH]; intros i s Hcons H;
    simpl in H.
  - injection H as <-. exact Hcons.
  - destruct bit.
    + destruct (markUnused s (Z.of_nat i)) as [s1 |] eqn:Hmark; simpl in H;
        [| discriminate].
      apply (IH (S i) s1); [| exact H].
      exact (markUnused_consistent _ _ _ Hcons Hmark).
    + simpl in H. apply (IH (S i) s); assumption.
Qed.

(** The three ways a text goes away keep the glyph run bookkeeping
    consistent: after [removeInternal()], [remove()] and [doClean()] the
    glyph data is still the concatenation of the glyphs of all runs, and
    every run that is not marked unused still knows its offset and is
    still referred to by its data. *)
Theorem removal_keeps_bookkeeping layer layer' :
  consistent (state layer) ->
  (forall id, removeInternal id layer = Some layer' ->
     consistent (state layer')) /\
  (forall handle, remove handle layer = Some layer' ->
     consistent (state layer')) /\
  (forall dataIdsToRemove, doClean dataIdsToRemove layer = Some layer' ->
     consistent (state layer')).
Proof.
  intros Hcons.
  assert (Hinternal : forall id b,
            removeInternal id {| base := b; state := state layer |} =
              Some layer' -> consistent (state layer')).
  { intros id b H. unfold removeInternal in H. simpl in H.
    destruct (markUnused (state layer) id) as [s |] eqn:Hmark; simpl in H;
      [| discriminate].
    injection H as <-. simpl.
    exact (markUnused_consistent _ _ _ Hcons Hmark). }
  split; [| split].
  - intros id H. destruct layer as [b s]. exact (Hinternal id b H).
  - intros handle H. unfold remove in H.
    destruct (AbstractVisualLayer_remove handle (base layer)) as [b |];
      simpl in H; [| discriminate].
    exact (Hinternal _ b H).
  - intros dataIdsToRemove H. unfold doClean in H.
    destruct (doCleanFrom 0 dataIdsToRemove (state layer)) as [s |] eqn:Hclean;
      simpl in H; [| discriminate].
    injection H as <-. simpl.
    exact (doCleanFrom_consistent _ _ _ _ Hcons Hclean).
Qed.

Lemma consistent_same_runs s i d d' :
  data s !! i = Some d -> glyphRun d' = glyphRun d ->
  consistent s ->
  consistent {| data := <[i := d']> (data s); glyphData := glyphData s;
                glyphRuns := glyphRuns s |}.
Proof.
  intros Hd Hrun ((Htr & Htd) & Hlen & Hback).
  split; [split |]; [| | split]; simpl.
  - exact Htr.
  - intros j e He. apply list_lookup_insert_Some in He.
    destruct He as [(_ & <- & _) | (_ & He)].
    + rewrite Hrun. apply (Htd i d Hd).
    + apply (Htd j e He).
  - exact Hlen.
  - intros j run Hj Hu. destruct (Hback j run Hj Hu) as (Hoff & e & He & Hg).
    split; [exact Hoff |].
    destruct (Nat.eq_dec (Z.to_nat (Implementation.data run)) i) as [Heq | Hne].
    + exists d'. rewrite Heq in *. rewrite Hd in He. injection He as <-.
      split; [| congruence].
      apply list_lookup_insert_eq. apply lookup_lt_is_Some. eauto.
    + exists e. split; [| exact Hg].
      rewrite list_lookup_insert_ne by congruence. exact He.
Qed.

(** [setColorInternal()] and [setPaddingInternal()] change one field of
    one data and ask for an update: the getter of the field then returns
    the new value, the other getter and all other data return what they
    did, the glyph data and the glyph runs are untouched, and the glyph run
    bookkeeping stays consistent. *)
Theorem setters_change_one_field id layer d :
  data (state layer) !! Z.to_nat id = Some d ->
  (forall value, exists layer',
     setColorInternal id value layer = Some layer' /\
     base layer' = setNeedsUpdate (base layer) /\
     color_ id layer' = Some value /\
     padding_ id layer' = padding_ id layer /\
     (forall other, Z.to_nat other <> Z.to_nat id ->
        data (state layer') !! Z.to_nat other =
        data (state layer) !! Z.to_nat other) /\
     glyphData (state layer') = glyphData (state layer) /\
     glyphRuns (state layer') = glyphRuns (state layer) /\
     (consistent (state layer) -> consistent (state layer'))) /\
  (forall value, exists layer',
     setPaddingInternal id value layer = Some layer' /\
     base layer' = setNeedsUpdate (base layer) /\
     padding_ id layer' = Some value /\
     color_ id layer' = color_ id layer /\
     (forall other, Z.to_nat other <> Z.to_nat id ->
        data (state layer') !! Z.to_nat other =
        data (state layer) !! Z.to_nat other) /\
     glyphData (state layer') = glyphData (state layer) /\
     glyphRuns (state layer') = glyphRuns (state layer) /\
     (consistent (state layer) -> consistent (state layer'))).
Proof.
  intros Hd.
  assert (Hlt : (Z.to_nat id < length (data (state layer)))%nat)
    by (apply lookup_lt_is_Some; eauto).
  split; intros value.
  - unfold setColorInternal. rewrite Hd. simpl.
    eexists. split; [reflexivity |]. unfold color_, padding_. simpl.
    rewrite list_lookup_insert_eq by exact Hlt. rewrite Hd. simpl.
    split; [reflexivity |]. split; [reflexivity |]. split; [reflexivity |].
    split; [intros other Hne; apply list_lookup_insert_ne; congruence |].
    split; [reflexivity |]. split; [reflexivity |].
    apply (consistent_same_runs (state layer) _ d); [exact Hd | reflexivity].
  - unfold setPaddingInternal. rewrite Hd. simpl.
    eexists. split; [reflexivity |]. unfold color_, padding_. simpl.
    rewrite list_lookup_insert_eq by exact Hlt. rewrite Hd. simpl.
    split; [reflexivity |]. split; [reflexivity |]. split; [reflexivity |].
    split; [intros other Hne; apply list_lookup_insert_ne; congruence |].
    split; [reflexivity |]. split; [reflexivity |].
    apply (consistent_same_runs (state layer) _ d); [exact Hd | reflexivity].
Qed.

Lemma dataHandleId_range handle : 0 <= Handle.dataHandleId handle < 2 ^ 20.
Proof.
  unfold Handle.dataHandleId, Handle.layerDataHandleId, Handle.extractId,
    Handle.LayerDataHandleIdBits.
  rewrite Handle.shiftl_1_ones by lia. rewrite Z.land_ones by lia.
  apply Z.mod_pos_bound. lia.
Qed.

Lemma growTo_spec id array :
  0 <= id < 2 ^ 20 ->
  (Z.to_nat id < length (growTo id array))%nat /\
  length (growTo id array) = Nat.max (length array) (S (Z.to_nat id)) /\
  (forall j, (j < length array)%nat -> growTo id array !! j = array !! j) /\
  (forall j d, growTo id array !! j = Some d ->
     array !! j = Some d \/ d = uninitializedData).
Proof.
  intros Hid. change (2 ^ 20) with 1048576 in Hid. unfold growTo.
  destruct (Z.leb_spec (Z.of_nat (length array)) id) as [Hle | Hgt].
  - rewrite u64_small
      by (change (2 ^ 64) with 18446744073709551616; lia).
    split; [rewrite length_app, length_replicate; lia |].
    split; [rewrite length_app, length_replicate; lia |].
    split.
    + intros j Hj. apply lookup_app_l. exact Hj.
    + intros j d Hd. apply lookup_app_Some in Hd.
      destruct Hd as [Hd | [_ Hd]]; [left; exact Hd | right].
      apply lookup_replicate in Hd. destruct Hd as [-> _]. reflexivity.
  - split; [lia |]. split; [lia |].
    split; [reflexivity | intros j d Hd; left; exact Hd].
Qed.

(** *** Recompacting twice *)

(** A run that is where it belongs is left alone. *)
Lemma recompactStep_in_place s i run :
  consistent s ->
  glyphRuns s !! i = Some run -> unused run = false ->
  recompactStep i {| current := s;
                     outputGlyphDataOffset := total (take i (glyphRuns s));
                     outputGlyphRunOffset := Z.of_nat i |} =
  Some {| current := s;
          outputGlyphDataOffset := total (take (S i) (glyphRuns s));
          outputGlyphRunOffset := Z.of_nat (S i) |}.
Proof.
  intros Hcons Hrun Hu. pose proof Hcons as ((Htr & Htd) & _ & Hback).
  destruct (Hback i run Hrun Hu) as (Hoff & d & Hd & Hg).
  destruct (Htr i run Hrun) as (Ho & Hc & _).
  pose proof (Htd _ _ Hd) as Hi.
  unfold UnsignedIntMax in *. change (2 ^ 32 - 1) with 4294967295 in *.
  unfold recompactStep. simpl. rewrite Hrun. simpl. rewrite Hu.
  rewrite <- Hoff, !Z.eqb_refl. simpl.
  rewrite u64_small by (change (2 ^ 64) with 18446744073709551616; lia).
  rewrite u64_small by (change (2 ^ 64) with 18446744073709551616; lia).
  rewrite (take_S_r _ _ _ Hrun), total_app, <- Hoff. simpl.
  destruct s as [sdata sglyphData sglyphRuns]. simpl.
  do 2 f_equal; lia.
Qed.

Lemma recompactLoop_in_place s m i :
  consistent s ->
  (forall j run, glyphRuns s !! j = Some run -> unused run = false) ->
  (i + m <= length (glyphRuns s))%nat ->
  recompactLoop (seq i m)
    {| current := s;
       outputGlyphDataOffset := total (take i (glyphRuns s));
       outputGlyphRunOffset := Z.of_nat i |} =
  Some {| current := s;
          outputGlyphDataOffset := total (take (i + m) (glyphRuns s));
          outputGlyphRunOffset := Z.of_nat (i + m) |}.
Proof.
  intros Hcons Hused. revert i. induction m as [| m IH]; intros i Hlen; simpl.
  - rewrite Nat.add_0_r. reflexivity.
  - destruct (lookup_lt_is_Some_2 (glyphRuns s) i) as [run Hrun]; [lia |].
    rewrite (recompactStep_in_place s i run Hcons Hrun (Hused i run Hrun)).
    simpl. rewrite IH by lia. replace (S i + m)%nat with (i + S m)%nat by lia.
    reflexivity.
Qed.

Lemma recompact_in_place s :
  consistent s ->
  (forall j run, glyphRuns s !! j = Some run -> unused run = false) ->
  recompact s = Some s.
Proof.
  intros Hcons Hused. pose proof Hcons as (_ & Hlen & _).
  unfold recompact.
  pose proof (recompactLoop_in_place s (length (glyphRuns s)) 0 Hcons Hused)
    as Hloop.
  rewrite take_0 in Hloop. change (total []) with 0 in Hloop.
  change (Z.of_nat 0) with 0 in Hloop. rewrite Hloop by lia. simpl.
  rewrite firstn_all, <- Hlen.
  destruct (Z.leb_spec (Z.of_nat (length (glyphData s)))
              (Z.of_nat (length (glyphData s)))); [| lia].
  destruct (Z.leb_spec (Z.of_nat (length (glyphRuns s)))
              (Z.of_nat (length (glyphRuns s)))); [| lia].
  simpl. rewrite !Nat2Z.id, !firstn_all.
  destruct s; reflexivity.
Qed.

(** The recompaction is idempotent.  On a state with consistent
    bookkeeping it returns a state with consistent bookkeeping on which a
    second recompaction changes nothing; and when no glyph run is marked
    unused, it moves nothing and returns the state as it is. *)
Theorem recompact_idempotent s :
  consistent s ->
  (exists s', recompact s = Some s' /\ consistent s' /\
              recompact s' = Some s') /\
  ((forall j run, glyphRuns s !! j = Some run -> unused run = false) ->
   recompact s = Some s).
Proof.
  intros Hcons. split; [| exact (recompact_in_place s Hcons)].
  destruct (recompact_consistent s Hcons) as (s' & Hre & Hcons').
  exists s'. split; [exact Hre |]. split; [exact Hcons' |].
  apply (recompact_in_place s' Hcons').
  destruct (recompact_result s Hcons) as (s1 & Hre1 & Hruns & _).
  rewrite Hre in Hre1. injection Hre1 as <-.
  intros j run Hj. rewrite Hruns in Hj.
  destruct (compact_lookup _ _ _ _ Hj) as (i & run0 & Hi & Hu & -> & _).
  pose proof Hcons as (Ht & _ & Hback0).
  destruct (Hback0 i run0 Hi Hu) as (Hoff & _).
  pose proof (unused_false _ Hu) as Hne.
  pose proof (total_survivors_le (take i (glyphRuns s))
                (take_counts_nonneg s i Ht)) as Hle.
  destruct Ht as [Htr _]. destruct (Htr _ _ Hi) as (Ho & _).
  unfold unused. simpl. apply Z.eqb_neq. lia.
Qed.

(** *** The rest of [TextLayer::doUpdate()]: vertices, indices and draw
    offsets *)

(** What the rest of [doUpdate()] takes from outside: the nodes the data
    are attached to ([AbstractLayer::nodes()]); what
    [Text::renderGlyphQuadsInto()] and [Text::renderGlyphQuadIndicesInto()]
    of Magnum write into the views they are given, of which only the size
    of the views matters here; the alignment bits; the [Float]
    operations; and what [arrayResize(..., NoInit, ...)] leaves in new
    elements. *)
Variable nodes : list Z.
Variable renderGlyphQuadsInto :
  Float -> list (TextLayerGlyphData Float) -> list (TextLayerVertex.t Float) ->
  list (TextLayerVertex.t Float).
Hypothesis renderGlyphQuadsInto_length : forall scale glyphs vertexData,
  length (renderGlyphQuadsInto scale glyphs vertexData) = length vertexData.
Variable renderGlyphQuadIndicesInto : Z -> list Z -> list Z.
Hypothesis renderGlyphQuadIndicesInto_length : forall glyphOffset indexData,
  length (renderGlyphQuadIndicesInto glyphOffset indexData) = length indexData.
Variable bits : TextAlignment.t.
Variable fadd : Float -> Float -> Float.
Variable fsub : Float -> Float -> Float.
Variable fmul : Float -> Float -> Float.
Variable fround : Float -> Float.
Variable fhalf : Float.
Variable fone : Float.
Variable fminusOne : Float.
Variable uninitializedVertex : TextLayerVertex.t Float.
Variable uninitializedIndex : Z.

(** The arrays of [TextLayer::State] that the rest of [doUpdate()]
    fills. *)
Record Buffers : Type := {
  vertices : list (TextLayerVertex.t Float);
  indices : list Z;
  indexDrawOffsets : list Z
}.

(** [arrayResize(array, NoInit, size)] *)
Definition arrayResize {A} (uninitialized : A) (array : list A) (size : Z)
    : list A :=
  take (Z.to_nat size) array ++
  replicate (Z.to_nat size - length array) uninitialized.

(** [array.sliceSize(begin, size)], which asserts that the slice is
    inside the array, and what a store through the slice does to the
    array. *)
Definition sliceSize {A} (array : list A) (begin size : Z) : option (list A) :=
  if begin + size <=? Z.of_nat (length array)
  then Some (take (Z.to_nat size) (drop (Z.to_nat begin) array))
  else None.

Definition storeSlice {A} (array : list A) (begin : Z) (values : list A)
    : list A :=
  take (Z.to_nat begin) array ++ values ++
  drop (Z.to_nat begin + length values) array.

(** [for(run: state.glyphRuns) totalGlyphCount += run.glyphCount] *)
Definition totalGlyphCount (s : State) : Z :=
  fold_left (fun count run => u32 (count + glyphCount run)) (glyphRuns s) 0.

(** [for(id: dataIds) drawGlyphCount +=
    state.glyphRuns[state.data[id].glyphRun].glyphCount] *)
Fixpoint drawGlyphCount (s : State) (dataIds : list Z) (count : Z)
    : option Z :=
  match dataIds with
  | [] => Some count
  | id :: rest =>
      d ← data s !! Z.to_nat id;
      run ← glyphRuns s !! Z.to_nat (glyphRun d);
      drawGlyphCount s rest (u32 (count + glyphCount run))
  end.

(** "Align the glyph run relative to the node area": the offset the
    vertices of a data are translated by. *)
Definition alignedOffset (d : TextLayerData Float)
    (stylePadding : Float * Float * Float * Float)
    (nodeOffset nodeSize : Float * Float) : Float * Float :=
  let '(sx, sy, sz, sw) := stylePadding in
  let '(dx, dy, dz, dw) := padding d in
  let '(px, py, pz, pw) := (fadd sx dx, fadd sy dy, fadd sz dz, fadd sw dw) in
  let offset := (fadd (fst nodeOffset) px, fadd (snd nodeOffset) py) in
  let size := (fsub (fsub (fst nodeSize) px) pz,
               fsub (fsub (snd nodeSize) py) pw) in
  let integral :=
    negb (Z.land (alignment d) (TextAlignment.AlignmentIntegral bits) =? 0) in
  let alignmentHorizontal :=
    Z.land (alignment d) (TextAlignment.AlignmentHorizontal bits) in
  let x :=
    if alignmentHorizontal =? TextAlignment.AlignmentLeft bits
    then fadd (fst offset) fzero
    else if alignmentHorizontal =? TextAlignment.AlignmentRight bits
    then fadd (fst offset) (fst size)
    else if alignmentHorizontal =? TextAlignment.AlignmentCenter bits
    then (if integral
          then fadd (fst offset) (fround (fmul (fst size) fhalf))
          else fadd (fst offset) (fmul (fst size) fhalf))
    else fst offset in
  let alignmentVertical :=
    Z.land (alignment d) (TextAlignment.AlignmentVertical bits) in
  let y :=
    if alignmentVertical =? TextAlignment.AlignmentTop bits
    then fadd (snd offset) fzero
    else if alignmentVertical =? TextAlignment.AlignmentBottom bits
    then fadd (snd offset) (snd size)
    else if (alignmentVertical =? TextAlignment.AlignmentLine bits) ||
            (alignmentVertical =? TextAlignment.AlignmentMiddle bits)
    then (if integral
          then fadd (snd offset) (fround (fmul (snd size) fhalf))
          else fadd (snd offset) (fmul (snd size) fhalf))
    else snd offset in
  (x, y).

(** "Translate the (aligned) glyph run, fill color and style" *)
Definition translated (d : TextLayerData Float) (uniform : Z)
    (offset : Float * Float) (vertex : TextLayerVertex.t Float)
    : TextLayerVertex.t Float :=
  {| TextLayerVertex.position :=
       (fadd (fmul (fst (TextLayerVertex.position vertex)) fone) (fst offset),
        fadd (fmul (snd (TextLayerVertex.position vertex)) fminusOne)
          (snd offset));
     TextLayerVertex.textureCoordinates :=
       TextLayerVertex.textureCoordinates vertex;
     TextLayerVertex.color := color d;
     TextLayerVertex.styleUniform := uniform |}.

(** One iteration of the loop over [dataIds], for the data at index
    [i]. *)
Definition updateData (s : State)
    (styles : list (TextLayerShared.TextLayerStyle.t Float))
    (nodeOffsets nodeSizes : list (Float * Float)) (i : nat) (dataId : Z)
    (buffers : Buffers) (indexOffset : Z) : option (Buffers * Z) :=
  node ← nodes !! Z.to_nat dataId;
  let nodeId := Handle.nodeHandleId node in
  d ← data s !! Z.to_nat dataId;
  run ← glyphRuns s !! Z.to_nat (glyphRun d);
  (* Fill in quad vertices in the same order as the original text runs *)
  glyphs ← sliceSize (glyphData s) (glyphOffset run) (glyphCount run);
  vertexData ← sliceSize (vertices buffers) (u32 (glyphOffset run * 4))
                 (u32 (glyphCount run * 4));
  let rendered := renderGlyphQuadsInto (scale d) glyphs vertexData in
  (* Align the glyph run relative to the node area *)
  styleData ← styles !! Z.to_nat (style d);
  nodeOffset ← nodeOffsets !! Z.to_nat nodeId;
  nodeSize ← nodeSizes !! Z.to_nat nodeId;
  let offset :=
    alignedOffset d (TextLayerShared.TextLayerStyle.padding styleData)
      nodeOffset nodeSize in
  (* Translate the (aligned) glyph run, fill color and style *)
  let vertices' :=
    storeSlice (vertices buffers) (u32 (glyphOffset run * 4))
      (map (translated d (TextLayerShared.TextLayerStyle.uniform styleData)
              offset) rendered) in
  (* Generate indices in draw order *)
  _ ← indexDrawOffsets buffers !! i;
  indexData ← sliceSize (indices buffers) indexOffset
                (u32 (glyphCount run * 6));
  Some ({| vertices := vertices';
           indices := storeSlice (indices buffers) indexOffset
                        (renderGlyphQuadIndicesInto (glyphOffset run)
                           indexData);
           indexDrawOffsets := <[i := indexOffset]> (indexDrawOffsets buffers) |},
        u32 (indexOffset + Z.of_nat (length indexData))).

(** The loop over [dataIds], from index [i] on. *)
Fixpoint updateAll (s : State)
    (styles : list (TextLayerShared.TextLayerStyle.t Float))
    (nodeOffsets nodeSizes : list (Float * Float)) (i : nat)
    (dataIds : list Z) (buffers : Buffers) (indexOffset : Z)
    : option (Buffers * Z) :=
  match dataIds with
  | [] => Some (buffers, indexOffset)
  | dataId :: rest =>
      '(buffers', indexOffset') ←
        updateData s styles nodeOffsets nodeSizes i dataId buffers indexOffset;
      updateAll s styles nodeOffsets nodeSizes (S i) rest buffers' indexOffset'
  end.

(** [TextLayer::doUpdate()]: the assertion on the styles of the shared
    state, the recompaction, and the generation of the vertex and index
    data. *)
Definition doUpdate (dataIds : list Z)
    (nodeOffsets nodeSizes : list (Float * Float))
    (styles : list (TextLayerShared.TextLayerStyle.t Float))
    (s : State) (buffers : Buffers) : option (State * Buffers) :=
  match styles with
  | [] => None
  | _ =>
      s' ← recompact s;
      let offsets :=
        arrayResize uninitializedIndex (indexDrawOffsets buffers)
          (u64 (Z.of_nat (length dataIds) + 1)) in
      drawn ← drawGlyphCount s' dataIds 0;
      '(buffers', indexOffset) ←
        updateAll s' styles nodeOffsets nodeSizes 0 dataIds
          {| vertices := arrayResize uninitializedVertex (vertices buffers)
                           (u64 (u32 (totalGlyphCount s' * 4)));
             indices := arrayResize uninitializedIndex (indices buffers)
                          (u64 (u32 (drawn * 6)));
             indexDrawOffsets := offsets |} 0;
      if negb (indexOffset =? u32 (drawn * 6)) then None
      else
        _ ← indexDrawOffsets buffers' !! length dataIds;
        Some (s', {| vertices := vertices buffers';
                     indices := indices buffers';
                     indexDrawOffsets :=
                       <[length dataIds := indexOffset]>
                         (indexDrawOffsets buffers') |})
  end.

(** The glyph count of the run of a data, and the draw offsets of data
    with the given glyph counts: six indices for each glyph drawn
    before. *)
Definition glyphCountOf (s : State) (dataId : Z) : Z :=
  default 0 (d ← data s !! Z.to_nat dataId;
             run ← glyphRuns s !! Z.to_nat (glyphRun d);
             Some (glyphCount run)).

Fixpoint drawOffsets (start : Z) (counts : list Z) : list Z :=
  start :: match counts with
           | [] => []
           | count :: rest => drawOffsets (start + 6 * count) rest
           end.

(** A data that is drawn: it has a record, a node, a style and a glyph
    run in use that it belongs to. *)
Definition drawable (s : State)
    (styles : list (TextLayerShared.TextLayerStyle.t Float))
    (nodeOffsets nodeSizes : list (Float * Float)) (dataId : Z) : Prop :=
  0 <= dataId /\
  exists d run node,
    data s !! Z.to_nat dataId = Some d /\
    glyphRuns s !! Z.to_nat (glyphRun d) = Some run /\
    unused run = false /\
    Implementation.data run = dataId /\
    is_Some (styles !! Z.to_nat (style d)) /\
    nodes !! Z.to_nat dataId = Some node /\
    is_Some (nodeOffsets !! Z.to_nat (Handle.nodeHandleId node)) /\
    is_Some (nodeSizes !! Z.to_nat (Handle.nodeHandleId node)).

(** *** Properties of the rest of [doUpdate()] *)

(** The fields of a data that the recompaction leaves alone. *)
Definition sameFields (d d' : TextLayerData Float) : Prop :=
  padding d' = padding d /\ style d' = style d /\ scale d' = scale d /\
  alignment d' = alignment d /\ color d' = color d.

Definition fieldsKept (before after : list (TextLayerData Float)) : Prop :=
  forall i d, before !! i = Some d ->
    exists d', after !! i = Some d' /\ sameFields d d'.

Lemma fieldsKept_refl l : fieldsKept l l.
Proof. intros i d H. exists d. split; [exact H | repeat split]. Qed.

Lemma fieldsKept_trans l1 l2 l3 :
  fieldsKept l1 l2 -> fieldsKept l2 l3 -> fieldsKept l1 l3.
Proof.
  intros H12 H23 i d H.
  destruct (H12 i d H) as (d2 & H2 & (Ha & Hb & Hc & He & Hf)).
  destruct (H23 i d2 H2) as (d3 & H3 & (Ha' & Hb' & Hc' & He' & Hf')).
  exists d3. split; [exact H3 |]. repeat split; congruence.
Qed.

Lemma fieldsKept_setGlyphRun l i d value :
  l !! i = Some d -> fieldsKept l (<[i := setGlyphRun d value]> l).
Proof.
  intros Hd j e He. destruct (Nat.eq_dec j i) as [-> | Hne].
  - rewrite Hd in He. injection He as <-.
    exists (setGlyphRun d value).
    split; [apply list_lookup_insert_eq; apply lookup_lt_is_Some; eauto |].
    repeat split.
  - exists e. split; [rewrite list_lookup_insert_ne by congruence; exact He |].
    repeat split.
Qed.

Lemma recompactStep_fields i c c' :
  recompactStep i c = Some c' ->
  fieldsKept (data (current c)) (data (current c')).
Proof.
  unfold recompactStep. intros H.
  destruct (glyphRuns (current c) !! i) as [run |]; simpl in H;
    [| discriminate].
  destruct (unused run); [injection H as <-; apply fieldsKept_refl |].
  match type of H with
  | (?first ≫= _) = _ => destruct first as [[[glyphData1 run1] glyphRuns1] |]
  end; simpl in H; [| discriminate].
  destruct (negb (Z.of_nat i =? outputGlyphRunOffset c)).
  - destruct (negb (outputGlyphRunOffset c <? Z.of_nat i)); simpl in H;
      [discriminate |].
    destruct (data (current c) !! Z.to_nat (Implementation.data run1))
      as [d |] eqn:Hd; simpl in H; [| discriminate].
    destruct (glyphRuns1 !! Z.to_nat (outputGlyphRunOffset c)); simpl in H;
      [| discriminate].
    injection H as <-. simpl. apply fieldsKept_setGlyphRun. exact Hd.
  - simpl in H. injection H as <-. simpl. apply fieldsKept_refl.
Qed.

Lemma recompactLoop_fields indices c c' :
  recompactLoop indices c = Some c' ->
  fieldsKept (data (current c)) (data (current c')).
Proof.
  revert c. induction indices as [| i rest IH]; intros c H; simpl in H.
  - injection H as <-. apply fieldsKept_refl.
  - destruct (recompactStep i c) as [c1 |] eqn:Hstep; simpl in H;
      [| discriminate].
    eapply fieldsKept_trans;
      [exact (recompactStep_fields _ _ _ Hstep) | exact (IH _ H)].
Qed.

Lemma recompact_fields s s' :
  recompact s = Some s' -> fieldsKept (data s) (data s').
Proof.
  unfold recompact. intros H.
  destruct (recompactLoop _ _) as [c |] eqn:Hloop; simpl in H; [| discriminate].
  destruct (negb _) in H; [discriminate |].
  destruct (negb _) in H; [discriminate |].
  injection H as <-. simpl.
  exact (recompactLoop_fields _ _ _ Hloop).
Qed.

(** Where a used run is after the recompaction. *)
Lemma compact_index offset runs j run :
  runs !! j = Some run -> unused run = false ->
  compact offset runs !! length (survivors (take j runs)) =
  Some (setGlyphOffset run (offset + total (survivors (take j runs)))).
Proof.
  intros Hj Hu.
  replace (compact offset runs)
    with (compact offset (take j runs ++ run :: drop (S j) runs))
    by (rewrite <- (drop_S _ _ _ Hj), take_drop; reflexivity).
  rewrite compact_app.
  rewrite lookup_app_r by (rewrite compact_length; lia).
  rewrite compact_length, Nat.sub_diag. simpl. rewrite Hu. reflexivity.
Qed.

Lemma glyphCountOf_Some s dataId d run :
  data s !! Z.to_nat dataId = Some d ->
  glyphRuns s !! Z.to_nat (glyphRun d) = Some run ->
  glyphCountOf s dataId = glyphCount run.
Proof.
  intros Hd Hrun. unfold glyphCountOf. rewrite Hd. simpl. rewrite Hrun.
  reflexivity.
Qed.

(** A data that can be drawn before the recompaction can be drawn after
    it, and has as many glyphs. *)
Lemma recompact_drawable s s' styles nodeOffsets nodeSizes dataId :
  consistent s -> recompact s = Some s' ->
  drawable s styles nodeOffsets nodeSizes dataId ->
  drawable s' styles nodeOffsets nodeSizes dataId /\
  glyphCountOf s' dataId = glyphCountOf s dataId.
Proof.
  intros Hcons Hre (H0 & d & run & node & Hd & Hrun & Hu & Hback & Hstyle &
                    Hnode & Hoffset & Hsize).
  destruct (recompact_result s Hcons) as (s1 & Hre1 & Hruns & _ & Hrefs & _).
  rewrite Hre in Hre1. injection Hre1 as <-.
  destruct (Hrefs _ run Hrun Hu) as (d' & Hd' & Hg').
  rewrite Hback in Hd'.
  destruct (recompact_fields s s' Hre _ d Hd)
    as (d'' & Hd'' & (_ & Hst & _)).
  rewrite Hd' in Hd''. injection Hd'' as <-.
  pose proof (compact_index 0 (glyphRuns s) _ run Hrun Hu) as Hnew.
  rewrite <- Hruns in Hnew.
  pose proof Hcons as (Ht & _ & Hback0).
  destruct (Hback0 _ run Hrun Hu) as (Hoff & _).
  pose proof (unused_false _ Hu) as Hne.
  pose proof (total_survivors_le (take (Z.to_nat (glyphRun d)) (glyphRuns s))
                (take_counts_nonneg s _ Ht)) as Hle.
  destruct Ht as [Htr _]. destruct (Htr _ _ Hrun) as (Ho & _).
  split.
  - split; [exact H0 |].
    exists d', (setGlyphOffset run
                  (0 + total (survivors (take (Z.to_nat (glyphRun d))
                                           (glyphRuns s))))), node.
    rewrite Hg', Nat2Z.id.
    split; [exact Hd' |]. split; [exact Hnew |].
    split; [unfold unused; simpl; apply Z.eqb_neq; lia |].
    split; [exact Hback |]. split; [rewrite Hst; exact Hstyle |].
    repeat split; assumption.
  - rewrite (glyphCountOf_Some s dataId d run Hd Hrun).
    rewrite <- (Nat2Z.id (length _)), <- Hg' in Hnew.
    rewrite (glyphCountOf_Some s' dataId d' _ Hd' Hnew). reflexivity.
Qed.

Lemma sliceSize_Some {A} (array : list A) begin size :
  0 <= begin -> 0 <= size -> begin + size <= Z.of_nat (length array) ->
  exists slice,
    sliceSize array begin size = Some slice /\
    Z.of_nat (length slice) = size.
Proof.
  intros Hb Hs Hle. unfold sliceSize.
  destruct (Z.leb_spec (begin + size) (Z.of_nat (length array))); [| lia].
  eexists. split; [reflexivity |].
  rewrite length_take, length_drop. lia.
Qed.

Lemma storeSlice_length {A} (array : list A) begin values :
  0 <= begin ->
  begin + Z.of_nat (length values) <= Z.of_nat (length array) ->
  length (storeSlice array begin values) = length array.
Proof.
  intros Hb Hle. unfold storeSlice.
  rewrite !length_app, length_take, length_drop. lia.
Qed.

Lemma arrayResize_size {A} (uninitialized : A) array size :
  0 <= size -> Z.of_nat (length (arrayResize uninitialized array size)) = size.
Proof.
  intros H. unfold arrayResize.
  rewrite length_app, length_take, length_replicate. lia.
Qed.

Lemma totalGlyphCount_fold runs count :
  (forall i run, runs !! i = Some run -> 0 <= glyphCount run) ->
  0 <= count -> count + total runs < 2 ^ 32 ->
  fold_left (fun count run => u32 (count + glyphCount run)) runs count =
  count + total runs.
Proof.
  revert count. induction runs as [| run rest IH]; intros count Hnn H0 Hlt;
    simpl.
  - unfold total. simpl. lia.
  - pose proof (Hnn 0%nat run eq_refl) as Hrun.
    assert (Hrest : forall i r, rest !! i = Some r -> 0 <= glyphCount r)
      by (intros i r Hr; apply (Hnn (S i) r Hr)).
    pose proof (total_nonneg rest Hrest) as Htot.
    change (total (run :: rest)) with (glyphCount run + total rest) in *.
    rewrite u32_small by lia. rewrite IH by (first [exact Hrest | lia]). lia.
Qed.

(** The glyphs of the data in [dataIds], summed up. *)
Definition glyphsDrawn (s : State) (dataIds : list Z) : Z :=
  fold_right Z.add 0 (map (glyphCountOf s) dataIds).

Lemma drawable_run s styles nodeOffsets nodeSizes dataId :
  consistent s -> drawable s styles nodeOffsets nodeSizes dataId ->
  exists d run node styleData nodeOffset nodeSize,
    data s !! Z.to_nat dataId = Some d /\
    glyphRuns s !! Z.to_nat (glyphRun d) = Some run /\
    glyphCountOf s dataId = glyphCount run /\
    0 <= glyphOffset run /\ 0 <= glyphCount run /\
    glyphOffset run + glyphCount run <= total (glyphRuns s) /\
    styles !! Z.to_nat (style d) = Some styleData /\
    nodes !! Z.to_nat dataId = Some node /\
    nodeOffsets !! Z.to_nat (Handle.nodeHandleId node) = Some nodeOffset /\
    nodeSizes !! Z.to_nat (Handle.nodeHandleId node) = Some nodeSize.
Proof.
  intros Hcons (H0 & d & run & node & Hd & Hrun & Hu & Hback &
                [styleData Hstyle] & Hnode & [nodeOffset Hoffset] &
                [nodeSize Hsize]).
  pose proof Hcons as (Ht & _ & Hback0).
  destruct (Hback0 _ run Hrun Hu) as (Hoff & _).
  pose proof (total_take_le (glyphRuns s) (S (Z.to_nat (glyphRun d)))
                (counts_nonneg _ Ht)) as Hm.
  rewrite (take_S_r _ _ _ Hrun), total_app in Hm. simpl in Hm.
  destruct Ht as [Htr _]. destruct (Htr _ _ Hrun) as (Ho & Hc & _).
  exists d, run, node, styleData, nodeOffset, nodeSize.
  split; [exact Hd |]. split; [exact Hrun |].
  split; [exact (glyphCountOf_Some s dataId d run Hd Hrun) |].
  repeat split; try assumption; lia.
Qed.

Lemma glyphsDrawn_nonneg s styles nodeOffsets nodeSizes dataIds :
  consistent s ->
  Forall (drawable s styles nodeOffsets nodeSizes) dataIds ->
  0 <= glyphsDrawn s dataIds.
Proof.
  intros Hcons Hids. induction Hids as [| dataId rest Hd _ IH];
    unfold glyphsDrawn in *; simpl; [lia |].
  destruct (drawable_run _ _ _ _ _ Hcons Hd)
    as (d & run & _ & _ & _ & _ & _ & _ & Hc & _ & Hn & _).
  lia.
Qed.

Lemma drawGlyphCount_sum s styles nodeOffsets nodeSizes dataIds count :
  consistent s ->
  Forall (drawable s styles nodeOffsets nodeSizes) dataIds ->
  0 <= count -> count + glyphsDrawn s dataIds < 2 ^ 32 ->
  drawGlyphCount s dataIds count = Some (count + glyphsDrawn s dataIds).
Proof.
  intros Hcons Hids. revert count.
  induction Hids as [| dataId rest Hd Hrest IH]; intros count H0 Hlt;
    unfold glyphsDrawn in *; simpl in *.
  - f_equal. lia.
  - pose proof (glyphsDrawn_nonneg _ _ _ _ _ Hcons Hrest) as Hnn.
    unfold glyphsDrawn in Hnn.
    destruct (drawable_run _ _ _ _ _ Hcons Hd)
      as (d & run & _ & _ & _ & _ & Hdata & Hrun & Hc & _ & Hn & _).
    rewrite Hdata. simpl. rewrite Hrun. simpl.
    rewrite Hc in *. rewrite u32_small by lia.
    rewrite IH by lia. f_equal. lia.
Qed.

Lemma updateData_spec s styles nodeOffsets nodeSizes i dataId buffers
    indexOffset :
  consistent s ->
  4 * total (glyphRuns s) < 2 ^ 32 ->
  drawable s styles nodeOffsets nodeSizes dataId ->
  Z.of_nat (length (vertices buffers)) = 4 * total (glyphRuns s) ->
  (i < length (indexDrawOffsets buffers))%nat ->
  0 <= indexOffset ->
  indexOffset + 6 * glyphCountOf s dataId <=
    Z.of_nat (length (indices buffers)) ->
  Z.of_nat (length (indices buffers)) < 2 ^ 32 ->
  exists buffers',
    updateData s styles nodeOffsets nodeSizes i dataId buffers indexOffset =
    Some (buffers', indexOffset + 6 * glyphCountOf s dataId) /\
    length (vertices buffers') = length (vertices buffers) /\
    length (indices buffers') = length (indices buffers) /\
    indexDrawOffsets buffers' =
      <[i := indexOffset]> (indexDrawOffsets buffers) /\
    exists d run styleData offset rendered,
      data s !! Z.to_nat dataId = Some d /\
      glyphRuns s !! Z.to_nat (glyphRun d) = Some run /\
      styles !! Z.to_nat (style d) = Some styleData /\
      Z.of_nat (length rendered) = 4 * glyphCount run /\
      vertices buffers' =
        storeSlice (vertices buffers) (4 * glyphOffset run)
          (map (translated d
                  (TextLayerShared.TextLayerStyle.uniform styleData) offset)
             rendered).
Proof.
  intros Hcons Htotal Hd Hvertices Hi H0 Hfit Hindices.
  destruct (drawable_run _ _ _ _ _ Hcons Hd)
    as (d & run & node & styleData & nodeOffset & nodeSize & Hdata & Hrun &
        Hc & Hoff & Hcount & Hend & Hstyle & Hnode & Hoffset & Hsize).
  pose proof Hcons as (_ & Hlen & _).
  rewrite Hc in *.
  change (2 ^ 32) with 4294967296 in *.
  unfold updateData. rewrite Hnode. simpl. rewrite Hdata. simpl.
  rewrite Hrun. simpl.
  destruct (sliceSize_Some (glyphData s) (glyphOffset run) (glyphCount run))
    as (glyphs & -> & _); [lia | lia | lia |].
  simpl.
  rewrite (u32_small (glyphOffset run * 4))
    by (change (2 ^ 32) with 4294967296; lia).
  rewrite (u32_small (glyphCount run * 4))
    by (change (2 ^ 32) with 4294967296; lia).
  rewrite (u32_small (glyphCount run * 6))
    by (change (2 ^ 32) with 4294967296; lia).
  destruct (sliceSize_Some (vertices buffers) (glyphOffset run * 4)
              (glyphCount run * 4))
    as (vertexData & -> & Hvd); [lia | lia | lia |].
  simpl. rewrite Hstyle. simpl. rewrite Hoffset. simpl. rewrite Hsize. simpl.
  destruct (lookup_lt_is_Some_2 _ _ Hi) as [old ->]. simpl.
  destruct (sliceSize_Some (indices buffers) indexOffset (glyphCount run * 6))
    as (indexData & -> & Hid); [lia | lia | lia |].
  simpl. rewrite Hid.
  rewrite u32_small by (change (2 ^ 32) with 4294967296; lia).
  eexists. split; [do 2 f_equal; lia |]. simpl.
  split; [| split; [| split; [reflexivity |]]].
  - apply storeSlice_length; [lia |].
    rewrite length_map, renderGlyphQuadsInto_length. lia.
  - apply storeSlice_length; [lia |].
    rewrite renderGlyphQuadIndicesInto_length. lia.
  - eexists d, run, styleData, _, _.
    split; [first [reflexivity | exact Hdata] |].
    split; [first [reflexivity | exact Hrun] |].
    split; [first [reflexivity | exact Hstyle] |].
    split; [| rewrite (Z.mul_comm 4); reflexivity].
    rewrite renderGlyphQuadsInto_length. lia.
Qed.

(** The draw offsets without the one past the last data. *)
Fixpoint drawStarts (start : Z) (counts : list Z) : list Z :=
  match counts with
  | [] => []
  | count :: rest => start :: drawStarts (start + 6 * count) rest
  end.

Lemma drawStarts_length start counts :
  length (drawStarts start counts) = length counts.
Proof.
  revert start. induction counts as [| count rest IH]; intros start; simpl;
    [reflexivity | rewrite IH; reflexivity].
Qed.

Lemma drawOffsets_starts start counts :
  drawOffsets start counts =
  drawStarts start counts ++ [start + 6 * fold_right Z.add 0 counts].
Proof.
  revert start. induction counts as [| count rest IH]; intros start; simpl.
  - f_equal. lia.
  - f_equal. rewrite IH. do 2 f_equal. lia.
Qed.

Lemma updateAll_spec s styles nodeOffsets nodeSizes dataIds :
  forall i buffers indexOffset,
  consistent s ->
  4 * total (glyphRuns s) < 2 ^ 32 ->
  Forall (drawable s styles nodeOffsets nodeSizes) dataIds ->
  Z.of_nat (length (vertices buffers)) = 4 * total (glyphRuns s) ->
  (i + length dataIds <= length (indexDrawOffsets buffers))%nat ->
  0 <= indexOffset ->
  indexOffset + 6 * glyphsDrawn s dataIds <=
    Z.of_nat (length (indices buffers)) ->
  Z.of_nat (length (indices buffers)) < 2 ^ 32 ->
  exists buffers',
    updateAll s styles nodeOffsets nodeSizes i dataIds buffers indexOffset =
    Some (buffers', indexOffset + 6 * glyphsDrawn s dataIds) /\
    length (vertices buffers') = length (vertices buffers) /\
    length (indices buffers') = length (indices buffers) /\
    indexDrawOffsets buffers' =
      take i (indexDrawOffsets buffers) ++
      drawStarts indexOffset (map (glyphCountOf s) dataIds) ++
      drop (i + length dataIds) (indexDrawOffsets buffers).
Proof.
  induction dataIds as [| dataId rest IH];
    intros i buffers indexOffset Hcons Htotal Hids Hvertices Hi H0 Hfit
      Hindices.
  - exists buffers. unfold glyphsDrawn. simpl.
    split; [do 2 f_equal; lia |]. split; [reflexivity |].
    split; [reflexivity |].
    rewrite Nat.add_0_r, take_drop. reflexivity.
  - apply Forall_cons_1 in Hids as [Hd Hrest].
    pose proof (glyphsDrawn_nonneg _ _ _ _ _ Hcons Hrest) as Hnn.
    destruct (drawable_run _ _ _ _ _ Hcons Hd)
      as (d & run & _ & _ & _ & _ & _ & _ & Hc & _ & Hn & _).
    rewrite <- Hc in Hn.
    change (glyphsDrawn s (dataId :: rest))
      with (glyphCountOf s dataId + glyphsDrawn s rest) in *.
    simpl in Hi.
    destruct (updateData_spec s styles nodeOffsets nodeSizes i dataId buffers
                indexOffset Hcons Htotal Hd Hvertices)
      as (buffers1 & Hstep & Hv1 & Hi1 & Ho1 & _); [lia | lia | lia | lia |].
    destruct (IH (S i) buffers1 (indexOffset + 6 * glyphCountOf s dataId)
                Hcons Htotal Hrest)
      as (buffers' & Hloop & Hv' & Hi' & Ho');
      [rewrite Hv1; exact Hvertices
      | rewrite Ho1, length_insert; lia
      | lia
      | rewrite Hi1; lia
      | rewrite Hi1; exact Hindices |].
    exists buffers'. simpl. rewrite Hstep. simpl.
    split; [rewrite Hloop; do 2 f_equal; lia |].
    split; [congruence |]. split; [congruence |].
    rewrite Ho', Ho1.
    rewrite (take_S_r _ i indexOffset)
      by (apply list_lookup_insert_eq; lia).
    rewrite take_insert_ge by lia.
    rewrite drop_insert_lt by lia.
    rewrite <- app_assoc. simpl.
    replace (i + S (length rest))%nat with (S (i + length rest)) by lia.
    reflexivity.
Qed.

Lemma storeSlice_lookup_in {A} (array : list A) begin values k :
  0 <= begin ->
  begin + Z.of_nat (length values) <= Z.of_nat (length array) ->
  begin <= Z.of_nat k < begin + Z.of_nat (length values) ->
  storeSlice array begin values !! k = values !! (k - Z.to_nat begin)%nat.
Proof.
  intros Hb Hfit Hk. unfold storeSlice.
  assert (Hlen : length (take (Z.to_nat begin) array) = Z.to_nat begin)
    by (rewrite length_take; lia).
  rewrite lookup_app_r by lia. rewrite Hlen.
  rewrite lookup_app_l by lia. reflexivity.
Qed.

Lemma storeSlice_lookup_out {A} (array : list A) begin values k :
  0 <= begin ->
  begin + Z.of_nat (length values) <= Z.of_nat (length array) ->
  Z.of_nat k < begin \/ begin + Z.of_nat (length values) <= Z.of_nat k ->
  storeSlice array begin values !! k = array !! k.
Proof.
  intros Hb Hfit Hk. unfold storeSlice.
  assert (Hlen : length (take (Z.to_nat begin) array) = Z.to_nat begin)
    by (rewrite length_take; lia).
  destruct Hk as [Hk | Hk].
  - rewrite lookup_app_l by lia. apply lookup_take_lt. lia.
  - rewrite lookup_app_r by lia. rewrite Hlen.
    rewrite lookup_app_r by lia. rewrite lookup_drop. f_equal. lia.
Qed.

Lemma total_take_mono runs m n :
  (forall i run, runs !! i = Some run -> 0 <= glyphCount run) ->
  (m <= n)%nat -> total (take m runs) <= total (take n runs).
Proof.
  intros Hnn Hle.
  replace (take m runs) with (take m (take n runs))
    by (rewrite take_take; f_equal; lia).
  apply total_take_le. intros i run Hr.
  apply lookup_take_Some in Hr. destruct Hr as [Hr _]. eapply Hnn, Hr.
Qed.

(** The glyphs of two different runs in use do not overlap. *)
Lemma used_runs_disjoint s i j run1 run2 :
  consistent s ->
  glyphRuns s !! i = Some run1 -> unused run1 = false ->
  glyphRuns s !! j = Some run2 -> unused run2 = false ->
  i <> j ->
  glyphOffset run1 + glyphCount run1 <= glyphOffset run2 \/
  glyphOffset run2 + glyphCount run2 <= glyphOffset run1.
Proof.
  intros (Ht & _ & Hback) Hi Hui Hj Huj Hne.
  destruct (Hback i run1 Hi Hui) as (-> & _).
  destruct (Hback j run2 Hj Huj) as (-> & _).
  pose proof (counts_nonneg _ Ht) as Hnn.
  destruct (Nat.lt_ge_cases i j) as [Hlt | Hge].
  - left. pose proof (total_take_mono (glyphRuns s) (S i) j Hnn Hlt) as Hm.
    rewrite (take_S_r _ _ _ Hi), total_app in Hm. simpl in Hm. lia.
  - right.
    assert (Hlt : (S j <= i)%nat) by lia.
    pose proof (total_take_mono (glyphRuns s) (S j) i Hnn Hlt) as Hm.
    rewrite (take_S_r _ _ _ Hj), total_app in Hm. simpl in Hm. lia.
Qed.

(** The vertices of a data carry its color and the uniform of its
    style. *)
Definition painted (s : State)
    (styles : list (TextLayerShared.TextLayerStyle.t Float))
    (vertexData : list (TextLayerVertex.t Float)) (dataId : Z) : Prop :=
  exists d run styleData,
    data s !! Z.to_nat dataId = Some d /\
    glyphRuns s !! Z.to_nat (glyphRun d) = Some run /\
    styles !! Z.to_nat (style d) = Some styleData /\
    forall k,
      4 * glyphOffset run <= Z.of_nat k <
        4 * (glyphOffset run + glyphCount run) ->
      exists vertex,
        vertexData !! k = Some vertex /\
        TextLayerVertex.color vertex = color d /\
        TextLayerVertex.styleUniform vertex =
          TextLayerShared.TextLayerStyle.uniform styleData.

Lemma updateData_painted s styles nodeOffsets nodeSizes i dataId buffers
    indexOffset buffers' indexOffset' :
  consistent s ->
  4 * total (glyphRuns s) < 2 ^ 32 ->
  drawable s styles nodeOffsets nodeSizes dataId ->
  Z.of_nat (length (vertices buffers)) = 4 * total (glyphRuns s) ->
  (i < length (indexDrawOffsets buffers))%nat ->
  0 <= indexOffset ->
  indexOffset + 6 * glyphCountOf s dataId <=
    Z.of_nat (length (indices buffers)) ->
  Z.of_nat (length (indices buffers)) < 2 ^ 32 ->
  updateData s styles nodeOffsets nodeSizes i dataId buffers indexOffset =
    Some (buffers', indexOffset') ->
  painted s styles (vertices buffers') dataId /\
  forall other,
    drawable s styles nodeOffsets nodeSizes other ->
    painted s styles (vertices buffers) other ->
    painted s styles (vertices buffers') other.
Proof.
  intros Hcons Htotal Hd Hvertices Hi H0 Hfit Hindices Hstep.
  destruct (updateData_spec s styles nodeOffsets nodeSizes i dataId buffers
              indexOffset Hcons Htotal Hd Hvertices Hi H0 Hfit Hindices)
    as (buffers1 & Hstep1 & _ & _ & _ & d & run & styleData & offset &
        rendered & Hdata & Hrun & Hstyle & Hlen & Hstored).
  rewrite Hstep in Hstep1. injection Hstep1 as <- _.
  destruct (drawable_run _ _ _ _ _ Hcons Hd)
    as (d0 & run0 & _ & _ & _ & _ & Hdata0 & Hrun0 & _ & Hoff & Hcount &
        Hend & _).
  rewrite Hdata in Hdata0. injection Hdata0 as <-.
  rewrite Hrun in Hrun0. injection Hrun0 as <-.
  assert (Hmine : painted s styles (vertices buffers') dataId).
  { exists d, run, styleData.
    split; [exact Hdata |]. split; [exact Hrun |]. split; [exact Hstyle |].
    intros k Hk. rewrite Hstored.
    rewrite storeSlice_lookup_in by (rewrite ?length_map; lia).
    rewrite list_lookup_fmap.
    destruct (lookup_lt_is_Some_2 rendered
                (k - Z.to_nat (4 * glyphOffset run))) as [vertex ->]; [lia |].
    simpl. eexists. split; [reflexivity |]. split; reflexivity. }
  split; [exact Hmine |].
  intros other Hother Hpainted.
  destruct (Z.eq_dec other dataId) as [-> | Hne]; [exact Hmine |].
  destruct Hpainted as (d1 & run1 & styleData1 & Hdata1 & Hrun1 & Hstyle1 &
                        Hvs).
  exists d1, run1, styleData1.
  split; [exact Hdata1 |]. split; [exact Hrun1 |]. split; [exact Hstyle1 |].
  intros k Hk. destruct (Hvs k Hk) as (vertex & Hvertex & Hcolor & Hu).
  exists vertex. split; [| split; assumption].
  rewrite Hstored, <- Hvertex.
  apply storeSlice_lookup_out; [lia | rewrite length_map; lia |].
  rewrite length_map, Hlen.
  destruct Hother as (Ho0 & d2 & run2 & _ & Hdata2 & Hrun2 & Hu2 & Hback2 & _).
  rewrite Hdata1 in Hdata2. injection Hdata2 as <-.
  rewrite Hrun1 in Hrun2. injection Hrun2 as <-.
  destruct Hd as (Hd0 & d3 & run3 & _ & Hdata3 & Hrun3 & Hu3 & Hback3 & _).
  rewrite Hdata in Hdata3. injection Hdata3 as <-.
  rewrite Hrun in Hrun3. injection Hrun3 as <-.
  assert (Hruns : Z.to_nat (glyphRun d1) <> Z.to_nat (glyphRun d)).
  { intros Heq. rewrite Heq, Hrun in Hrun1. injection Hrun1 as <-.
    congruence. }
  destruct (used_runs_disjoint s _ _ run1 run Hcons Hrun1 Hu2 Hrun Hu3 Hruns);
    lia.
Qed.

Lemma updateAll_painted s styles nodeOffsets nodeSizes dataIds :
  forall i buffers indexOffset buffers' indexOffset' done,
  consistent s ->
  4 * total (glyphRuns s) < 2 ^ 32 ->
  Forall (drawable s styles nodeOffsets nodeSizes) dataIds ->
  Forall (drawable s styles nodeOffsets nodeSizes) done ->
  Z.of_nat (length (vertices buffers)) = 4 * total (glyphRuns s) ->
  (i + length dataIds <= length (indexDrawOffsets buffers))%nat ->
  0 <= indexOffset ->
  indexOffset + 6 * glyphsDrawn s dataIds <=
    Z.of_nat (length (indices buffers)) ->
  Z.of_nat (length (indices buffers)) < 2 ^ 32 ->
  updateAll s styles nodeOffsets nodeSizes i dataIds buffers indexOffset =
    Some (buffers', indexOffset') ->
  Forall (painted s styles (vertices buffers)) done ->
  Forall (painted s styles (vertices buffers')) (done ++ dataIds).
Proof.
  induction dataIds as [| dataId rest IH];
    intros i buffers indexOffset buffers' indexOffset' done Hcons Htotal
      Hids Hdone Hvertices Hi H0 Hfit Hindices Hloop Hpainted.
  - simpl in Hloop. injection Hloop as <- _. rewrite app_nil_r.
    exact Hpainted.
  - apply Forall_cons_1 in Hids as [Hd Hrest].
    pose proof (glyphsDrawn_nonneg _ _ _ _ _ Hcons Hrest) as Hnn.
    destruct (drawable_run _ _ _ _ _ Hcons Hd)
      as (d & run & _ & _ & _ & _ & _ & _ & Hc & _ & Hn & _).
    rewrite <- Hc in Hn.
    change (glyphsDrawn s (dataId :: rest))
      with (glyphCountOf s dataId + glyphsDrawn s rest) in *.
    simpl in Hi.
    destruct (updateData_spec s styles nodeOffsets nodeSizes i dataId buffers
                indexOffset Hcons Htotal Hd Hvertices)
      as (buffers1 & Hstep & Hv1 & Hi1 & Ho1 & _); [lia | lia | lia | lia |].
    destruct (updateData_painted s styles nodeOffsets nodeSizes i dataId
                buffers indexOffset buffers1
                (indexOffset + 6 * glyphCountOf s dataId) Hcons Htotal Hd
                Hvertices)
      as [Hmine Hothers]; [lia | lia | lia | lia | exact Hstep |].
    simpl in Hloop. rewrite Hstep in Hloop. simpl in Hloop.
    replace (done ++ dataId :: rest) with ((done ++ [dataId]) ++ rest)
      by (rewrite <- app_assoc; reflexivity).
    apply (IH (S i) buffers1 (indexOffset + 6 * glyphCountOf s dataId)
             buffers' indexOffset' (done ++ [dataId]) Hcons Htotal Hrest).
    + apply Forall_app. split; [exact Hdone | constructor; [exact Hd |
                                                            constructor]].
    + rewrite Hv1. exact Hvertices.
    + rewrite Ho1, length_insert. lia.
    + lia.
    + rewrite Hi1. lia.
    + rewrite Hi1. exact Hindices.
    + exact Hloop.
    + apply Forall_app. split; [| constructor; [exact Hmine | constructor]].
      rewrite Forall_forall in Hpainted, Hdone. apply Forall_forall.
      intros other Hin. apply Hothers; [apply Hdone | apply Hpainted];
        exact Hin.
Qed.

Lemma recompact_all_drawable s s' styles nodeOffsets nodeSizes dataIds :
  consistent s -> recompact s = Some s' ->
  Forall (drawable s styles nodeOffsets nodeSizes) dataIds ->
  Forall (drawable s' styles nodeOffsets nodeSizes) dataIds /\
  map (glyphCountOf s') dataIds = map (glyphCountOf s) dataIds.
Proof.
  intros Hcons Hre Hids.
  induction Hids as [| dataId rest Hd _ [IH1 IH2]]; [split; constructor |].
  destruct (recompact_drawable s s' styles nodeOffsets nodeSizes dataId
              Hcons Hre Hd) as [Hd' Hc].
  split; [constructor; assumption |]. simpl. rewrite Hc, IH2. reflexivity.
Qed.

Lemma totalGlyphCount_total s :
  consistent s -> total (glyphRuns s) < 2 ^ 32 ->
  totalGlyphCount s = total (glyphRuns s).
Proof.
  intros (Ht & _) Hlt. unfold totalGlyphCount.
  rewrite totalGlyphCount_fold; [lia | exact (counts_nonneg _ Ht) | lia | lia].
Qed.

(** What [doUpdate()] does on a consistent layer with styles set, for
    data that can be drawn and counts that fit into 32 bits. *)
Lemma doUpdate_spec dataIds nodeOffsets nodeSizes styles s buffers :
  consistent s ->
  styles <> [] ->
  Forall (drawable s styles nodeOffsets nodeSizes) dataIds ->
  Z.of_nat (length dataIds) + 1 < 2 ^ 64 ->
  4 * total (survivors (glyphRuns s)) < 2 ^ 32 ->
  6 * glyphsDrawn s dataIds < 2 ^ 32 ->
  exists s' buffers',
    doUpdate dataIds nodeOffsets nodeSizes styles s buffers =
    Some (s', buffers') /\
    recompact s = Some s' /\
    Z.of_nat (length (vertices buffers')) =
      4 * Z.of_nat (length (glyphData s')) /\
    Z.of_nat (length (indices buffers')) = 6 * glyphsDrawn s dataIds /\
    indexDrawOffsets buffers' =
      drawOffsets 0 (map (glyphCountOf s) dataIds) /\
    Forall (painted s' styles (vertices buffers')) dataIds.
Proof.
  intros Hcons Hstyles Hids Hsize Hkept Hdrawn.
  destruct (recompact_consistent s Hcons) as (s' & Hre & Hcons').
  destruct (recompact_result s Hcons) as (s1 & Hre1 & Hruns & Hglyphs & _).
  rewrite Hre in Hre1. injection Hre1 as <-.
  destruct (recompact_all_drawable s s' styles nodeOffsets nodeSizes dataIds
              Hcons Hre Hids) as [Hids' Hcounts].
  assert (Hsum : glyphsDrawn s' dataIds = glyphsDrawn s dataIds)
    by (unfold glyphsDrawn; rewrite Hcounts; reflexivity).
  assert (Htotal : total (glyphRuns s') = total (survivors (glyphRuns s)))
    by (rewrite Hruns; apply total_compact).
  pose proof (glyphsDrawn_nonneg _ _ _ _ _ Hcons' Hids') as Hnn.
  pose proof Hcons' as (Ht' & _).
  pose proof (total_nonneg _ (counts_nonneg _ Ht')) as Htnn.
  change (2 ^ 32) with 4294967296 in *.
  change (2 ^ 64) with 18446744073709551616 in *.
  exists s'.
  unfold doUpdate. destruct styles as [| style0 styles0]; [congruence |].
  rewrite Hre. simpl.
  rewrite (drawGlyphCount_sum s' (style0 :: styles0) nodeOffsets nodeSizes)
    by (first [assumption | change (2 ^ 32) with 4294967296; lia]).
  simpl.
  rewrite totalGlyphCount_total
    by (first [assumption | change (2 ^ 32) with 4294967296; lia]).
  rewrite !(u32_small ((0 + glyphsDrawn s' dataIds) * 6))
    by (change (2 ^ 32) with 4294967296; lia).
  rewrite (u32_small (total (glyphRuns s') * 4))
    by (change (2 ^ 32) with 4294967296; lia).
  rewrite !u64_small by (change (2 ^ 64) with 18446744073709551616; lia).
  match goal with
  | |- context [updateAll s' ?st ?no ?ns 0 dataIds ?b 0] =>
      destruct (updateAll_spec s' st no ns dataIds 0%nat b 0 Hcons')
        as (buffers1 & Hloop & Hv & Hi & Ho)
  end; simpl.
  - change (2 ^ 32) with 4294967296; lia.
  - exact Hids'.
  - rewrite arrayResize_size; lia.
  - assert (H := arrayResize_size uninitializedIndex
                   (indexDrawOffsets buffers)
                   (Z.of_nat (length dataIds) + 1)).
    lia.
  - lia.
  - rewrite arrayResize_size; lia.
  - rewrite arrayResize_size; change (2 ^ 32) with 4294967296; lia.
  - simpl in Hv, Hi, Ho. rewrite Hloop. simpl.
    replace (0 + 6 * glyphsDrawn s' dataIds =?
             (0 + glyphsDrawn s' dataIds) * 6) with true
      by (symmetry; apply Z.eqb_eq; lia).
    simpl.
    assert (Hlen : Z.of_nat (length (arrayResize uninitializedIndex
                     (indexDrawOffsets buffers)
                     (Z.of_nat (length dataIds) + 1))) =
                   Z.of_nat (length dataIds) + 1)
      by (apply arrayResize_size; lia).
    assert (Hlast : exists last,
               drop (length dataIds)
                 (arrayResize uninitializedIndex (indexDrawOffsets buffers)
                    (Z.of_nat (length dataIds) + 1)) = [last]).
    { match goal with
      | |- exists _, ?l = _ =>
          assert (Hl : length l = 1%nat)
            by (rewrite length_drop; lia);
          destruct l as [| last [| ? ?]]; simpl in Hl; try discriminate
      end.
      exists last. reflexivity. }
    destruct Hlast as [last Hlast].
    rewrite Hlast in Ho. simpl in Ho.
    assert (Hstarts : length (drawStarts 0 (map (glyphCountOf s') dataIds)) =
                      length dataIds)
      by (rewrite drawStarts_length, length_map; reflexivity).
    rewrite Ho.
    rewrite (lookup_app_r _ _ (length dataIds)) by lia.
    rewrite Hstarts, Nat.sub_diag. simpl.
    eexists. split; [reflexivity |]. split; [reflexivity |]. simpl.
    split; [rewrite Hv, arrayResize_size by lia; lia |].
    split; [rewrite Hi, arrayResize_size by lia; lia |].
    split.
    + rewrite drawOffsets_starts, <- Hcounts.
      rewrite insert_app_r_alt by lia.
      rewrite Hstarts, Nat.sub_diag. simpl.
      unfold glyphsDrawn. reflexivity.
    + match type of Hloop with
      | updateAll _ ?st ?no ?ns _ _ ?b _ = Some (_, ?io) =>
          apply (updateAll_painted s' st no ns dataIds 0%nat b 0 buffers1 io
                   [] Hcons')
      end; simpl.
      * change (2 ^ 32) with 4294967296; lia.
      * exact Hids'.
      * constructor.
      * rewrite arrayResize_size; lia.
      * lia.
      * lia.
      * rewrite arrayResize_size; lia.
      * rewrite arrayResize_size; change (2 ^ 32) with 4294967296; lia.
      * exact Hloop.
      * constructor.
Qed.

(** [TextLayer::doUpdate()] on a consistent layer with styles set, for
    data that can be drawn and counts that fit into 32 bits: it passes its
    assertions, the state is the recompacted one, there are four vertices
    for every glyph kept and six indices for every glyph drawn, and the
    draw offset of a data is six times the glyphs of the data drawn
    before it, with the number of all indices after the last one. *)
Theorem doUpdate_draw_offsets dataIds nodeOffsets nodeSizes styles s buffers :
  consistent s ->
  styles <> [] ->
  Forall (drawable s styles nodeOffsets nodeSizes) dataIds ->
  Z.of_nat (length dataIds) + 1 < 2 ^ 64 ->
  4 * total (survivors (glyphRuns s)) < 2 ^ 32 ->
  6 * glyphsDrawn s dataIds < 2 ^ 32 ->
  exists s' buffers',
    doUpdate dataIds nodeOffsets nodeSizes styles s buffers =
    Some (s', buffers') /\
    recompact s = Some s' /\
    Z.of_nat (length (vertices buffers')) =
      4 * Z.of_nat (length (glyphData s')) /\
    Z.of_nat (length (indices buffers')) = 6 * glyphsDrawn s dataIds /\
    indexDrawOffsets buffers' = drawOffsets 0 (map (glyphCountOf s) dataIds).
Proof.
  intros Hcons Hstyles Hids Hsize Hkept Hdrawn.
  destruct (doUpdate_spec dataIds nodeOffsets nodeSizes styles s buffers
              Hcons Hstyles Hids Hsize Hkept Hdrawn)
    as (s' & buffers' & Hupdate & Hre & Hv & Hi & Ho & _).
  exists s', buffers'. repeat split; assumption.
Qed.

(** After such an update every vertex of every data that was drawn
    carries the color of the data and the uniform of its style: the
    vertices of a data are the four per glyph of its run in the
    recompacted state. *)
Theorem doUpdate_vertex_attributes dataIds nodeOffsets nodeSizes styles s
    buffers :
  consistent s ->
  styles <> [] ->
  Forall (drawable s styles nodeOffsets nodeSizes) dataIds ->
  Z.of_nat (length dataIds) + 1 < 2 ^ 64 ->
  4 * total (survivors (glyphRuns s)) < 2 ^ 32 ->
  6 * glyphsDrawn s dataIds < 2 ^ 32 ->
  exists s' buffers',
    doUpdate dataIds nodeOffsets nodeSizes styles s buffers =
    Some (s', buffers') /\
    forall dataId, In dataId dataIds ->
      exists d run styleData,
        data s' !! Z.to_nat dataId = Some d /\
        glyphRuns s' !! Z.to_nat (glyphRun d) = Some run /\
        styles !! Z.to_nat (style d) = Some styleData /\
        forall k,
          4 * glyphOffset run <= Z.of_nat k <
            4 * (glyphOffset run + glyphCount run) ->
          exists vertex,
            vertices buffers' !! k = Some vertex /\
            TextLayerVertex.color vertex = color d /\
            TextLayerVertex.styleUniform vertex =
              TextLayerShared.TextLayerStyle.uniform styleData.
Proof.
  intros Hcons Hstyles Hids Hsize Hkept Hdrawn.
  destruct (doUpdate_spec dataIds nodeOffsets nodeSizes styles s buffers
              Hcons Hstyles Hids Hsize Hkept Hdrawn)
    as (s' & buffers' & Hupdate & _ & _ & _ & _ & Hpainted).
  exists s', buffers'. split; [exact Hupdate |].
  intros dataId Hin. rewrite List.Forall_forall in Hpainted.
  exact (Hpainted dataId Hin).
Qed.

(** *** Shaping a text: [shapeInternal()], [create()] and [setText()] *)

(** What shaping takes from outside.  The shared state of the layer is
    [TextLayer::Shared::State] with its style array.  Font objects,
    shapers, the glyph cache, texts and [TextProperties] belong to
    Magnum::Text; of the properties the layer itself looks at [font()]
    and [alignment()].  [createShaper] is
    [Text::AbstractFont::createShaper()].  [shape] stands for what a shaper
    and the glyph positioning of Magnum::Text do with a text between
    "Shape the text" and [glyphIdsInto()]: the shaper as the calls leave
    it, and one glyph per shaped glyph with its aligned position and its
    font-specific id.  [cacheGlyphId] is [Text::AbstractGlyphCache::glyphId()]. *)
Variable Font : Type.
Variable Shaper : Type.
Variable GlyphCache : Type.
Variable Text : Type.
Variable TextProperties : Type.
Variable propertiesFont : TextProperties -> Z.
Variable propertiesAlignment : TextProperties -> Z.
Variable createShaper : Font -> Shaper.
Variable shape :
  TextLayerShared.TextLayerFont Font Shaper Float -> Shaper -> Text ->
  TextProperties -> Shaper * list (TextLayerGlyphData Float).
Variable cacheGlyphId : GlyphCache -> Z -> Z -> Z.

Abbreviation SharedState :=
  (TextLayerShared.State Font Shaper Float GlyphCache).
Abbreviation TextLayerFont := (TextLayerShared.TextLayerFont Font Shaper Float).
Abbreviation TextLayerStyle := (TextLayerShared.TextLayerStyle.t Float).

(** "Decide on a font": the font of the properties if there is one, which
    has to be valid, else the font of the style, for which style data has
    to be set. *)
Definition decideFont (shared : SharedState) (styles : list TextLayerStyle)
    (style : Z) (properties : TextProperties) : option Z :=
  if propertiesFont properties =? Handle.FontHandle_Null then
    match styles with
    | [] => None
    | _ => TextLayerShared.TextLayerStyle.font <$> styles !! Z.to_nat style
    end
  else if TextLayerShared.isHandleValid _ _ _ _ shared
            (propertiesFont properties)
       then Some (propertiesFont properties)
       else None.

(** "Get a shaper instance": [if(!fontState.shaper) fontState.shaper =
    fontState.font->createShaper()] *)
Definition shaperOf (fontState : TextLayerFont) : Shaper :=
  match TextLayerShared.shaper _ _ _ fontState with
  | Some shaper => shaper
  | None => createShaper (TextLayerShared.font _ _ _ fontState)
  end.

Definition withShaper (fontState : TextLayerFont) (value : Shaper)
    : TextLayerFont :=
  {| TextLayerShared.fontStorage := TextLayerShared.fontStorage _ _ _ fontState;
     TextLayerShared.font := TextLayerShared.font _ _ _ fontState;
     TextLayerShared.shaper := Some value;
     TextLayerShared.scale := TextLayerShared.scale _ _ _ fontState;
     TextLayerShared.glyphCacheFontId :=
       TextLayerShared.glyphCacheFontId _ _ _ fontState |}.

Definition withFonts (shared : SharedState) (value : list TextLayerFont)
    : SharedState :=
  {| TextLayerShared.styleUniformCount :=
       TextLayerShared.styleUniformCount _ _ _ _ shared;
     TextLayerShared.styleCount := TextLayerShared.styleCount _ _ _ _ shared;
     TextLayerShared.glyphCache := TextLayerShared.glyphCache _ _ _ _ shared;
     TextLayerShared.fonts := value |}.

(** "Query font-specific glyph IDs and convert them to cache-global":
    [glyph.glyphId = sharedState.glyphCache->glyphId(
    fontState.glyphCacheFontId, glyph.glyphId)] for every glyph, which
    needs the glyph cache if there is a glyph. *)
Definition cacheGlobal (cache : GlyphCache) (fontState : TextLayerFont)
    (glyph : TextLayerGlyphData Float) : TextLayerGlyphData Float :=
  {| position := position glyph;
     glyphId := cacheGlyphId cache
                  (TextLayerShared.glyphCacheFontId _ _ _ fontState)
                  (glyphId glyph) |}.

Definition toCacheGlobal (shared : SharedState) (fontState : TextLayerFont)
    (glyphs : list (TextLayerGlyphData Float))
    : option (list (TextLayerGlyphData Float)) :=
  match glyphs with
  | [] => Some []
  | _ =>
      cache ← TextLayerShared.glyphCache _ _ _ _ shared;
      Some (map (cacheGlobal cache fontState) glyphs)
  end.

(** [TextLayer::shapeInternal()]: the font is decided on, its shaper
    taken (and kept in the shared state), the text shaped, the glyphs
    appended as a new run, and scale, alignment and the run saved with
    the data.  A failed assertion or an access outside an array is
    [None]. *)
Definition shapeInternal (id style : Z) (text : Text)
    (properties : TextProperties) (shared : SharedState)
    (styles : list TextLayerStyle) (s : State)
    : option (SharedState * State) :=
  font ← decideFont shared styles style properties;
  let fontId := Z.to_nat (Handle.fontHandleId font) in
  fontState ← TextLayerShared.fonts _ _ _ _ shared !! fontId;
  let '(shaper, shaped) := shape fontState (shaperOf fontState) text properties in
  glyphs ← toCacheGlobal shared fontState shaped;
  s' ← addGlyphRun id glyphs (TextLayerShared.scale _ _ _ fontState)
         (propertiesAlignment properties) s;
  Some (withFonts shared
          (<[fontId := withShaper fontState shaper]>
             (TextLayerShared.fonts _ _ _ _ shared)),
        s').

(** [TextLayer::create()] *)
Definition create (style : Z) (text : Text) (properties : TextProperties)
    (newColor : Float * Float * Float) (node : Z) (shared : SharedState)
    (styles : list TextLayerStyle) (layer : Layer)
    : option (SharedState * Layer * Z) :=
  if negb (TextLayerShared.hasGlyphCache _ _ _ _ shared) then None
  else if negb (style <? TextLayerShared.styleCount _ _ _ _ shared) then None
  else
    (* Create a data *)
    '(b, handle) ← AbstractLayer_create node (base layer);
    let id := Handle.dataHandleId handle in
    (* Shape the text, save its properties *)
    '(shared', s) ← shapeInternal id style text properties shared styles
                      {| data := growTo id (data (state layer));
                         glyphData := glyphData (state layer);
                         glyphRuns := glyphRuns (state layer) |};
    d ← data s !! Z.to_nat id;
    Some (shared',
          {| base := b;
             state :=
               {| data := <[Z.to_nat id :=
                              {| padding := (fzero, fzero, fzero, fzero);
                                 glyphRun := glyphRun d;
                                 style := style;
                                 scale := scale d;
                                 alignment := alignment d;
                                 color := newColor |}]> (data s);
                  glyphData := glyphData s;
                  glyphRuns := glyphRuns s |} |}, handle).

(** [TextLayer::setTextInternal()]: the run of the data is marked unused,
    the new text shaped with the style of the data, and the layer marked
    as needing an update. *)
Definition setTextInternal (id : Z) (text : Text)
    (properties : TextProperties) (shared : SharedState)
    (styles : list TextLayerStyle) (layer : Layer)
    : option (SharedState * Layer) :=
  d ← data (state layer) !! Z.to_nat id;
  s1 ← markUnused (state layer) id;
  '(shared', s2) ← shapeInternal id (style d) text properties shared styles s1;
  Some (shared', {| base := setNeedsUpdate (base layer); state := s2 |}).

(** The glyphs a text is shaped to with a font, with cache-global ids. *)
Definition shapedGlyphs (cache : GlyphCache) (fontState : TextLayerFont)
    (text : Text) (properties : TextProperties)
    : list (TextLayerGlyphData Float) :=
  map (cacheGlobal cache fontState)
    (snd (shape fontState (shaperOf fontState) text properties)).

(** What shaping leaves of the shared state: everything but the shapers
    kept with the fonts. *)
Definition forgetShaper (fontState : TextLayerFont)
    : option Font * Font * Float * Z :=
  (TextLayerShared.fontStorage _ _ _ fontState,
   TextLayerShared.font _ _ _ fontState,
   TextLayerShared.scale _ _ _ fontState,
   TextLayerShared.glyphCacheFontId _ _ _ fontState).

Definition sameButShapers (shared shared' : SharedState) : Prop :=
  TextLayerShared.styleUniformCount _ _ _ _ shared' =
    TextLayerShared.styleUniformCount _ _ _ _ shared /\
  TextLayerShared.styleCount _ _ _ _ shared' =
    TextLayerShared.styleCount _ _ _ _ shared /\
  TextLayerShared.glyphCache _ _ _ _ shared' =
    TextLayerShared.glyphCache _ _ _ _ shared /\
  map forgetShaper (TextLayerShared.fonts _ _ _ _ shared') =
    map forgetShaper (TextLayerShared.fonts _ _ _ _ shared).

(** *** Properties of shaping *)

(** The font of a shaped text is the one [TextLayerShared.shapeFont]
    gives: the entry of the font decided on. *)
Lemma decideFont_shapeFont shared styles style properties :
  TextLayerShared.shapeFont _ _ _ _ shared styles style
    (propertiesFont properties) =
  (font ← decideFont shared styles style properties;
   TextLayerShared.fonts _ _ _ _ shared !! Z.to_nat (Handle.fontHandleId font)).
Proof. reflexivity. Qed.

Lemma sameButShapers_insert shared i fontState shaper :
  TextLayerShared.fonts _ _ _ _ shared !! i = Some fontState ->
  sameButShapers shared
    (withFonts shared
       (<[i := withShaper fontState shaper]>
          (TextLayerShared.fonts _ _ _ _ shared))).
Proof.
  intros Hi. unfold sameButShapers. simpl.
  split; [reflexivity |]. split; [reflexivity |]. split; [reflexivity |].
  apply list_eq. intros j. rewrite !list_lookup_fmap.
  destruct (Nat.eq_dec j i) as [-> | Hne].
  - rewrite list_lookup_insert_eq by (apply lookup_lt_is_Some; eauto).
    rewrite Hi. reflexivity.
  - rewrite list_lookup_insert_ne by congruence. reflexivity.
Qed.

Lemma toCacheGlobal_Some shared cache fontState glyphs :
  TextLayerShared.glyphCache _ _ _ _ shared = Some cache ->
  toCacheGlobal shared fontState glyphs =
  Some (map (cacheGlobal cache fontState) glyphs).
Proof.
  intros Hcache. unfold toCacheGlobal. rewrite Hcache.
  destruct glyphs; reflexivity.
Qed.

Lemma toCacheGlobal_length shared fontState glyphs glyphs' :
  toCacheGlobal shared fontState glyphs = Some glyphs' ->
  length glyphs' = length glyphs.
Proof.
  unfold toCacheGlobal. destruct glyphs as [| glyph rest].
  - intros H. injection H as <-. reflexivity.
  - destruct (TextLayerShared.glyphCache _ _ _ _ shared) as [cache |];
      simpl; [| discriminate].
    intros H. injection H as <-. simpl. rewrite length_map. reflexivity.
Qed.

(** With a font decided on and a glyph cache, [shapeInternal()] does to
    the layer state what [addGlyphRun] does with the shaped glyphs, and
    leaves the shared state as it was but for the shaper. *)
Lemma shapeInternal_returns id style text properties shared styles s
    fontState cache :
  TextLayerShared.shapeFont _ _ _ _ shared styles style
    (propertiesFont properties) = Some fontState ->
  TextLayerShared.glyphCache _ _ _ _ shared = Some cache ->
  exists shared',
    shapeInternal id style text properties shared styles s =
    (s' ← addGlyphRun id (shapedGlyphs cache fontState text properties)
            (TextLayerShared.scale _ _ _ fontState)
            (propertiesAlignment properties) s;
     Some (shared', s')) /\
    sameButShapers shared shared'.
Proof.
  intros Hfont Hcache. rewrite decideFont_shapeFont in Hfont.
  unfold shapeInternal, shapedGlyphs.
  destruct (decideFont shared styles style properties) as [font |];
    simpl in *; [| discriminate].
  rewrite Hfont. simpl.
  destruct (shape fontState (shaperOf fontState) text properties)
    as [shaper shaped].
  rewrite (toCacheGlobal_Some shared cache fontState shaped Hcache). simpl.
  eexists. split; [reflexivity |].
  apply sameButShapers_insert. exact Hfont.
Qed.

(** Without a font decided on, [shapeInternal()] fails. *)
Lemma shapeInternal_expects id style text properties shared styles s :
  TextLayerShared.shapeFont _ _ _ _ shared styles style
    (propertiesFont properties) = None ->
  shapeInternal id style text properties shared styles s = None.
Proof.
  intros Hfont. rewrite decideFont_shapeFont in Hfont. unfold shapeInternal.
  destruct (decideFont shared styles style properties) as [font |];
    simpl in *; [| reflexivity].
  rewrite Hfont. reflexivity.
Qed.

Lemma shapeInternal_inv id style text properties shared styles s shared' s' :
  shapeInternal id style text properties shared styles s =
    Some (shared', s') ->
  exists fontState glyphs,
    TextLayerShared.shapeFont _ _ _ _ shared styles style
      (propertiesFont properties) = Some fontState /\
    length glyphs =
      length (snd (shape fontState (shaperOf fontState) text properties)) /\
    addGlyphRun id glyphs (TextLayerShared.scale _ _ _ fontState)
      (propertiesAlignment properties) s = Some s'.
Proof.
  intros H. rewrite decideFont_shapeFont. unfold shapeInternal in H.
  destruct (decideFont shared styles style properties) as [font |];
    simpl in *; [| discriminate].
  destruct (TextLayerShared.fonts _ _ _ _ shared !!
              Z.to_nat (Handle.fontHandleId font)) as [fontState |];
    simpl in *; [| discriminate].
  destruct (shape fontState (shaperOf fontState) text properties)
    as [shaper shaped] eqn:Hshape.
  destruct (toCacheGlobal shared fontState shaped) as [glyphs |] eqn:Hglyphs;
    simpl in H; [| discriminate].
  destruct (addGlyphRun id glyphs _ _ s) as [s1 |] eqn:Hadd; simpl in H;
    [| discriminate].
  injection H as _ <-.
  exists fontState, glyphs. split; [reflexivity |].
  rewrite Hshape.
  split; [exact (toCacheGlobal_length _ _ _ _ Hglyphs) | exact Hadd].
Qed.

(** [create()] called as it expects (a glyph cache is set, the style is
    below the style count, and a font is decided on: the valid font of
    the properties, or the font of the style when style data is set)
    registers the data with the base and returns its handle.  The text is
    shaped with that font and the glyphs, with cache-global ids, are
    appended to the glyph data as a new last run of the data; the record
    of the data gets zero padding, the given style and color, the scale of
    the font and the alignment of the properties, and refers to the new
    run; the data array covers the id afterwards, and the records of all
    other data it held are what they were; of the shared state only a
    shaper changes.  Without a glyph cache, with a style that is out of
    range, or without a font decided on (an invalid font in the
    properties, or none there and no style data) it fails an assertion
    whatever the base would do. *)
Theorem create_adds_run style text properties newColor node shared styles
    layer :
  (forall b handle cache fontState,
     TextLayerShared.glyphCache _ _ _ _ shared = Some cache ->
     0 <= style < TextLayerShared.styleCount _ _ _ _ shared ->
     TextLayerShared.shapeFont _ _ _ _ shared styles style
       (propertiesFont properties) = Some fontState ->
     AbstractLayer_create node (base layer) = Some (b, handle) ->
     let id := Z.to_nat (Handle.dataHandleId handle) in
     let glyphs := shapedGlyphs cache fontState text properties in
     exists shared' layer',
       create style text properties newColor node shared styles layer =
         Some (shared', layer', handle) /\
       sameButShapers shared shared' /\
       base layer' = b /\
       glyphData (state layer') = glyphData (state layer) ++ glyphs /\
       glyphRuns (state layer') =
         glyphRuns (state layer) ++
         [ {| glyphOffset := u32 (Z.of_nat (length (glyphData (state layer))));
              glyphCount := u32 (Z.of_nat (length glyphs));
              Implementation.data := Handle.dataHandleId handle |} ] /\
       data (state layer') !! id =
         Some {| padding := (fzero, fzero, fzero, fzero);
                 glyphRun := u32 (Z.of_nat (length (glyphRuns (state layer))));
                 style := style;
                 scale := TextLayerShared.scale _ _ _ fontState;
                 alignment := propertiesAlignment properties;
                 color := newColor |} /\
       length (data (state layer')) =
         Nat.max (length (data (state layer))) (S id) /\
       (forall j, j <> id -> (j < length (data (state layer)))%nat ->
          data (state layer') !! j = data (state layer) !! j)) /\
  (TextLayerShared.glyphCache _ _ _ _ shared = None ->
   create style text properties newColor node shared styles layer = None) /\
  (TextLayerShared.styleCount _ _ _ _ shared <= style ->
   create style text properties newColor node shared styles layer = None) /\
  (TextLayerShared.shapeFont _ _ _ _ shared styles style
     (propertiesFont properties) = None ->
   create style text properties newColor node shared styles layer = None).
Proof.
  split; [| split; [| split]].
  - intros b handle cache fontState Hcache Hstyle Hfont Hbase id glyphs.
    pose proof (dataHandleId_range handle) as Hid.
    destruct (growTo_spec (Handle.dataHandleId handle) (data (state layer)) Hid)
      as (Hlt & Hlen & Hold & _).
    fold id in Hlt, Hlen.
    destruct (lookup_lt_is_Some_2 _ _ Hlt) as [d Hd].
    unfold create, TextLayerShared.hasGlyphCache. rewrite Hcache. simpl.
    destruct (Z.ltb_spec style (TextLayerShared.styleCount _ _ _ _ shared))
      as [_ | Hge]; [| lia].
    simpl. rewrite Hbase. simpl.
    match goal with
    | |- context [shapeInternal ?i style text properties shared styles ?s] =>
        destruct (shapeInternal_returns i style text properties shared styles
                    s fontState cache Hfont Hcache)
          as (shared' & Hshape & Hsame);
        rewrite Hshape
    end.
    unfold addGlyphRun. simpl. fold id. rewrite Hd. simpl.
    rewrite list_lookup_insert_eq by exact Hlt. simpl.
    eexists _, _. split; [reflexivity |]. simpl.
    split; [exact Hsame |].
    split; [reflexivity |]. split; [reflexivity |]. split; [reflexivity |].
    split; [apply list_lookup_insert_eq; rewrite length_insert; exact Hlt |].
    split; [rewrite !length_insert; exact Hlen |].
    intros j Hne Hj. rewrite !list_lookup_insert_ne by congruence.
    apply Hold. exact Hj.
  - intros Hcache. unfold create, TextLayerShared.hasGlyphCache.
    rewrite Hcache. reflexivity.
  - intros Hstyle. unfold create.
    destruct (TextLayerShared.hasGlyphCache _ _ _ _ shared); [| reflexivity].
    simpl.
    destruct (Z.ltb_spec style (TextLayerShared.styleCount _ _ _ _ shared))
      as [Hlt | _]; [lia |].
    reflexivity.
  - intros Hfont. unfold create.
    destruct (TextLayerShared.hasGlyphCache _ _ _ _ shared); [| reflexivity].
    simpl.
    destruct (style <? TextLayerShared.styleCount _ _ _ _ shared);
      [| reflexivity].
    simpl.
    destruct (AbstractLayer_create node (base layer)) as [[b handle] |];
      [| reflexivity].
    simpl. rewrite (shapeInternal_expects _ _ _ _ _ _ _ Hfont). reflexivity.
Qed.

(** [create()] keeps the glyph run bookkeeping consistent, provided the
    base hands out ids of data that have no used glyph run (new ones, or
    ones whose run [remove()] or [doClean()] has marked unused), and the
    two glyph arrays stay within what an [UnsignedInt] can count, as does
    the number of glyphs the text is shaped to. *)
Theorem create_consistent style text properties newColor node shared styles
    layer shared' layer' handle :
  consistent (state layer) ->
  0 <= glyphRun uninitializedData <= UnsignedIntMax ->
  (forall fontState,
     TextLayerShared.shapeFont _ _ _ _ shared styles style
       (propertiesFont properties) = Some fontState ->
     Z.of_nat (length (snd (shape fontState (shaperOf fontState) text
                              properties))) <= UnsignedIntMax) ->
  Z.of_nat (length (glyphRuns (state layer))) <= UnsignedIntMax ->
  Z.of_nat (length (glyphData (state layer))) <= UnsignedIntMax ->
  (forall j run, glyphRuns (state layer) !! j = Some run ->
     unused run = false ->
     Implementation.data run <> Handle.dataHandleId handle) ->
  create style text properties newColor node shared styles layer =
    Some (shared', layer', handle) ->
  consistent (state layer').
Proof.
  intros Hcons Huninit Hglyphs Hruns Hdata Hfresh Hcreate.
  pose proof (dataHandleId_range handle) as Hid.
  unfold create in Hcreate.
  destruct (TextLayerShared.hasGlyphCache _ _ _ _ shared); simpl in Hcreate;
    [| discriminate].
  destruct (negb (style <? TextLayerShared.styleCount _ _ _ _ shared));
    [discriminate |].
  destruct (AbstractLayer_create node (base layer)) as [[b handle'] |];
    simpl in Hcreate; [| discriminate].
  destruct (shapeInternal (Handle.dataHandleId handle') style text properties
              shared styles _) as [[shared1 s] |] eqn:Hshape;
    simpl in Hcreate; [| discriminate].
  destruct (data s !! Z.to_nat (Handle.dataHandleId handle')) as [d |] eqn:Hd;
    simpl in Hcreate; [| discriminate].
  injection Hcreate as _ <- ->. simpl.
  apply (consistent_same_runs s _ d); [exact Hd | reflexivity |].
  destruct (shapeInternal_inv _ _ _ _ _ _ _ _ _ Hshape)
    as (fontState & glyphs & Hfont & Hlength & Hadd).
  destruct (growTo_spec (Handle.dataHandleId handle) (data (state layer)) Hid)
    as (_ & _ & Hold & Hnew).
  apply (addGlyphRun_consistent (Handle.dataHandleId handle) glyphs
           (TextLayerShared.scale _ _ _ fontState)
           (propertiesAlignment properties)
           {| data := growTo (Handle.dataHandleId handle) (data (state layer));
              glyphData := glyphData (state layer);
              glyphRuns := glyphRuns (state layer) |} s);
    [ | | | exact Hruns | exact Hdata | | exact Hadd].
  - destruct Hcons as ((Htr & Htd) & Hlen & Hback).
    split; [split |]; [| | split]; simpl.
    + exact Htr.
    + intros j e He. destruct (Hnew j e He) as [He' | ->];
        [apply (Htd j e He') | exact Huninit].
    + exact Hlen.
    + intros j run Hj Hu. destruct (Hback j run Hj Hu) as (Hoff & e & He & Hg).
      split; [exact Hoff |]. exists e. split; [| exact Hg].
      rewrite Hold; [exact He |]. apply lookup_lt_is_Some. eauto.
  - unfold UnsignedIntMax. change (2 ^ 20) with 1048576 in Hid.
    change (2 ^ 32) with 4294967296. lia.
  - rewrite Hlength. exact (Hglyphs fontState Hfont).
  - simpl. intros j run Hj Hu Heq.
    destruct Hcons as ((Htr & _) & _).
    destruct (Htr j run Hj) as (_ & _ & Hrd).
    apply (Hfresh j run Hj Hu). lia.
Qed.

(** Marking the run of a data unused and adding a new one for it keeps
    the bookkeeping. *)
Lemma markUnused_addGlyphRun_consistent id glyphs newScale newAlignment s s1
    s2 :
  consistent s ->
  0 <= id <= UnsignedIntMax ->
  Z.of_nat (length glyphs) <= UnsignedIntMax ->
  Z.of_nat (length (glyphRuns s)) <= UnsignedIntMax ->
  Z.of_nat (length (glyphData s)) <= UnsignedIntMax ->
  markUnused s id = Some s1 ->
  addGlyphRun id glyphs newScale newAlignment s1 = Some s2 ->
  consistent s2.
Proof.
  intros Hcons Hid Hglyphs Hruns Hdata Hmark Hshape.
  pose proof (markUnused_consistent _ _ _ Hcons Hmark) as Hcons1.
  unfold markUnused in Hmark.
  destruct (data s !! Z.to_nat id) as [d |] eqn:Hd; simpl in Hmark;
    [| discriminate].
  destruct (glyphRuns s !! Z.to_nat (glyphRun d)) as [run |] eqn:Hrun;
    simpl in Hmark; [| discriminate].
  injection Hmark as <-.
  apply (addGlyphRun_consistent id glyphs newScale newAlignment _ s2 Hcons1);
    simpl; try assumption.
  - rewrite length_insert. exact Hruns.
  - intros j other Hj Hu Heq.
    destruct (Nat.eq_dec (Z.to_nat (glyphRun d)) j) as [<- | Hne].
    + rewrite list_lookup_insert_eq in Hj by (apply lookup_lt_is_Some; eauto).
      injection Hj as <-. discriminate Hu.
    + rewrite list_lookup_insert_ne in Hj by exact Hne.
      destruct Hcons as (_ & _ & Hback).
      destruct (Hback j other Hj Hu) as (_ & d' & Hd' & Hg').
      rewrite Heq, Hd in Hd'. injection Hd' as <-. lia.
Qed.

(** [setTextInternal()], whenever it returns, keeps the bookkeeping and
    marks the layer as needing an update. *)
Lemma setTextInternal_consistent id text properties shared styles layer
    shared' layer' :
  consistent (state layer) ->
  0 <= id <= UnsignedIntMax ->
  (forall d fontState,
     data (state layer) !! Z.to_nat id = Some d ->
     TextLayerShared.shapeFont _ _ _ _ shared styles (style d)
       (propertiesFont properties) = Some fontState ->
     Z.of_nat (length (snd (shape fontState (shaperOf fontState) text
                              properties))) <= UnsignedIntMax) ->
  Z.of_nat (length (glyphRuns (state layer))) <= UnsignedIntMax ->
  Z.of_nat (length (glyphData (state layer))) <= UnsignedIntMax ->
  setTextInternal id text properties shared styles layer =
    Some (shared', layer') ->
  consistent (state layer') /\ base layer' = setNeedsUpdate (base layer).
Proof.
  intros Hcons Hid Hglyphs Hruns Hdata Hset. unfold setTextInternal in Hset.
  destruct (data (state layer) !! Z.to_nat id) as [d |] eqn:Hd; simpl in Hset;
    [| discriminate].
  destruct (markUnused (state layer) id) as [s1 |] eqn:Hmark; simpl in Hset;
    [| discriminate].
  destruct (shapeInternal id (style d) text properties shared styles s1)
    as [[shared1 s2] |] eqn:Hshape; simpl in Hset; [| discriminate].
  injection Hset as _ <-. simpl. split; [| reflexivity].
  destruct (shapeInternal_inv _ _ _ _ _ _ _ _ _ Hshape)
    as (fontState & glyphs & Hfont & Hlength & Hadd).
  apply (markUnused_addGlyphRun_consistent id glyphs
           (TextLayerShared.scale _ _ _ fontState)
           (propertiesAlignment properties) (state layer) s1 s2 Hcons Hid);
    try assumption.
  rewrite Hlength. exact (Hglyphs d fontState eq_refl Hfont).
Qed.

(** [setTextInternal()] replaces the glyph run of a data.  For a data
    with a run, a font decided on (the valid font of the properties, or
    the font of the style of the data when style data is set) and a glyph
    cache, it returns: the old run of the data is marked unused and
    otherwise stays where it is, the glyphs the text is shaped to are
    appended as a new last run of the data, the record of the data refers
    to the new run and has the scale of the font and the alignment of the
    properties, with padding, style and color as before; no other data
    and no other run changes, of the shared state only a shaper changes,
    [setNeedsUpdate()] is called and the bookkeeping stays consistent.
    Without a font decided on, or for an id outside the data array, it
    fails. *)
Theorem setTextInternal_replaces_run id text properties shared styles layer :
  (forall d run fontState cache,
     consistent (state layer) ->
     0 <= id <= UnsignedIntMax ->
     data (state layer) !! Z.to_nat id = Some d ->
     glyphRuns (state layer) !! Z.to_nat (glyphRun d) = Some run ->
     TextLayerShared.shapeFont _ _ _ _ shared styles (style d)
       (propertiesFont properties) = Some fontState ->
     TextLayerShared.glyphCache _ _ _ _ shared = Some cache ->
     let glyphs := shapedGlyphs cache fontState text properties in
     Z.of_nat (length glyphs) <= UnsignedIntMax ->
     Z.of_nat (length (glyphRuns (state layer))) <= UnsignedIntMax ->
     Z.of_nat (length (glyphData (state layer))) <= UnsignedIntMax ->
     exists shared' layer',
       setTextInternal id text properties shared styles layer =
         Some (shared', layer') /\
       sameButShapers shared shared' /\
       base layer' = setNeedsUpdate (base layer) /\
       consistent (state layer') /\
       glyphData (state layer') = glyphData (state layer) ++ glyphs /\
       glyphRuns (state layer') =
         <[Z.to_nat (glyphRun d) := setGlyphOffset run UnsignedIntMax]>
           (glyphRuns (state layer)) ++
         [ {| glyphOffset := Z.of_nat (length (glyphData (state layer)));
              glyphCount := Z.of_nat (length glyphs);
              Implementation.data := id |} ] /\
       data (state layer') !! Z.to_nat id =
         Some {| padding := padding d;
                 glyphRun := Z.of_nat (length (glyphRuns (state layer)));
                 style := style d;
                 scale := TextLayerShared.scale _ _ _ fontState;
                 alignment := propertiesAlignment properties;
                 color := color d |} /\
       (forall j, j <> Z.to_nat id ->
          data (state layer') !! j = data (state layer) !! j)) /\
  (forall d,
     data (state layer) !! Z.to_nat id = Some d ->
     TextLayerShared.shapeFont _ _ _ _ shared styles (style d)
       (propertiesFont properties) = None ->
     setTextInternal id text properties shared styles layer = None) /\
  (data (state layer) !! Z.to_nat id = None ->
   setTextInternal id text properties shared styles layer = None).
Proof.
  split; [| split].
  - intros d run fontState cache Hcons Hid Hd Hrun Hfont Hcache glyphs
      Hglyphs Hruns Hdata.
    assert (Hmark : markUnused (state layer) id =
                    Some {| data := data (state layer);
                            glyphData := glyphData (state layer);
                            glyphRuns :=
                              <[Z.to_nat (glyphRun d) :=
                                  setGlyphOffset run UnsignedIntMax]>
                                (glyphRuns (state layer)) |}).
    { unfold markUnused. rewrite Hd. simpl. rewrite Hrun. reflexivity. }
    match type of Hmark with
    | _ = Some ?s1 =>
        destruct (shapeInternal_returns id (style d) text properties shared
                    styles s1 fontState cache Hfont Hcache)
          as (shared' & Hshape & Hsame)
    end.
    assert (Hlt : (Z.to_nat id < length (data (state layer)))%nat)
      by (apply lookup_lt_is_Some; eauto).
    unfold addGlyphRun in Hshape. simpl in Hshape. rewrite Hd in Hshape.
    simpl in Hshape. rewrite length_insert in Hshape.
    rewrite (u32_max (Z.of_nat (length (glyphRuns (state layer)))))
      in Hshape by lia.
    rewrite (u32_max (Z.of_nat (length (glyphData (state layer)))))
      in Hshape by lia.
    fold glyphs in Hshape.
    rewrite (u32_max (Z.of_nat (length glyphs))) in Hshape by lia.
    match type of Hshape with
    | _ = Some (_, ?s2) =>
        assert (Hset : setTextInternal id text properties shared styles layer =
                       Some (shared',
                             {| base := setNeedsUpdate (base layer);
                                state := s2 |}))
          by (unfold setTextInternal; rewrite Hd; simpl; rewrite Hmark; simpl;
              rewrite Hshape; reflexivity)
    end.
    eexists _, _. split; [exact Hset |]. simpl.
    split; [exact Hsame |]. split; [reflexivity |].
    split.
    { refine (proj1 (setTextInternal_consistent id text properties shared
                       styles layer _ _ Hcons Hid _ Hruns Hdata Hset)).
      intros d0 fontState0 Hd0 Hfont0.
      rewrite Hd in Hd0. injection Hd0 as <-.
      rewrite Hfont in Hfont0. injection Hfont0 as <-.
      unfold glyphs, shapedGlyphs in Hglyphs. rewrite length_map in Hglyphs.
      exact Hglyphs. }
    split; [reflexivity |]. split; [reflexivity |].
    split; [apply list_lookup_insert_eq; exact Hlt |].
    intros j Hne. apply list_lookup_insert_ne. congruence.
  - intros d Hd Hfont. unfold setTextInternal. rewrite Hd. simpl.
    destruct (markUnused (state layer) id) as [s1 |]; [| reflexivity].
    simpl. rewrite (shapeInternal_expects _ _ _ _ _ _ _ Hfont). reflexivity.
  - intros Hd. unfold setTextInternal. rewrite Hd. reflexivity.
Qed.

End Layer.

(** A layer with five texts of which the second and the fourth were
    removed; floats are integers here. *)
Definition exampleData (run : Z) : TextLayerData Z :=
  {| padding := (0, 0, 0, 0); glyphRun := run; style := 0; scale := 1;
     alignment := 0; color := (0, 0, 0) |}.

Definition exampleGlyph (id : Z) : TextLayerGlyphData Z :=
  {| position := (0, 0); glyphId := id |}.

Definition exampleState : State Z :=
  {| data := map exampleData [0; 1; 2; 3; 4];
     glyphData := map exampleGlyph [10; 11; 20; 21; 22; 30; 40; 41; 50; 51];
     glyphRuns :=
       [ {| glyphOffset := 0; glyphCount := 2; Implementation.data := 0 |};
         {| glyphOffset := UnsignedIntMax; glyphCount := 3; Implementation.data := 1 |};
         {| glyphOffset := 5; glyphCount := 1; Implementation.data := 2 |};
         {| glyphOffset := UnsignedIntMax; glyphCount := 2; Implementation.data := 3 |};
         {| glyphOffset := 8; glyphCount := 2; Implementation.data := 4 |} ] |}.

Lemma exampleState_consistent : consistent Z exampleState.
Proof.
  split; [split |]; [| | split].
  - intros i run H.
    do 5 (destruct i as [| i]; [injection H as <-; vm_compute; intuition congruence |]).
    discriminate H.
  - intros i d H.
    do 5 (destruct i as [| i]; [injection H as <-; vm_compute; intuition congruence |]).
    discriminate H.
  - reflexivity.
  - intros i run H Hu.
    do 5 (destruct i as [| i];
          [injection H as <-; first [discriminate Hu |
             split; [reflexivity | eexists; split; reflexivity]] |]).
    discriminate H.
Defined.

Example exampleState_recompact :
  recompact Z exampleState =
  Some {| data := map exampleData [0; 1; 1; 3; 2];
          glyphData := map exampleGlyph [10; 11; 30; 50; 51];
          glyphRuns :=
            [ {| glyphOffset := 0; glyphCount := 2; Implementation.data := 0 |};
              {| glyphOffset := 2; glyphCount := 1; Implementation.data := 2 |};
              {| glyphOffset := 3; glyphCount := 2; Implementation.data := 4 |} ] |}.
Proof. reflexivity. Qed.

Lemma recompact_compacts_witness :
  exists s',
    recompact Z exampleState = Some s' /\
    (forall j run, glyphRuns Z s' !! j = Some run ->
       glyphOffset run <> UnsignedIntMax) /\
    map contents (glyphRuns Z s') =
      map contents (survivors (glyphRuns Z exampleState)) /\
    (forall j run, glyphRuns Z s' !! j = Some run ->
       glyphOffset run = total (take j (glyphRuns Z s'))) /\
    Z.of_nat (length (glyphData Z s')) = total (glyphRuns Z s') /\
    glyphData Z s' =
      keptGlyphs (glyphData Z exampleState) (glyphRuns Z exampleState) /\
    (forall j run, glyphRuns Z s' !! j = Some run ->
       exists d, data Z s' !! Z.to_nat (Implementation.data run) = Some d /\
                 glyphRun d = Z.of_nat j).
Proof.
  exact (recompact_compacts Z exampleState exampleState_consistent).
Defined.

(** The same layer with a base object that is just its state flags, and a
    base class [remove()] that sets the bit 2 in them. *)
Definition exampleLayer : Layer Z Z :=
  {| base := 0; state := exampleState |}.

Lemma removal_only_marks_the_run_witness :
  exists layer',
    removeInternal Z Z 2 exampleLayer = Some layer' /\
    base Z Z layer' = 0 /\
    data Z (state Z Z layer') = data Z exampleState /\
    glyphData Z (state Z Z layer') = glyphData Z exampleState /\
    glyphRuns Z (state Z Z layer') !! 2%nat =
      Some {| glyphOffset := UnsignedIntMax; glyphCount := 1;
              Implementation.data := 2 |} /\
    forall j, j <> 2%nat ->
      glyphRuns Z (state Z Z layer') !! j = glyphRuns Z exampleState !! j.
Proof.
  exact (proj1 (removal_only_marks_the_run Z Z (fun _ flags => Some (Z.lor flags 4)))
           2 exampleLayer (exampleData 2)
           {| glyphOffset := 5; glyphCount := 1; Implementation.data := 2 |}
           eq_refl eq_refl).
Defined.

Lemma removal_keeps_bookkeeping_witness :
  exists layer',
    removeInternal Z Z 2 exampleLayer = Some layer' /\
    consistent Z (state Z Z layer').
Proof.
  eexists. split; [reflexivity |].
  apply (proj1 (removal_keeps_bookkeeping Z Z
                  (fun _ flags => Some (Z.lor flags 4)) exampleLayer _
                  exampleState_consistent) 2).
  reflexivity.
Defined.

Lemma setters_change_one_field_witness :
  exists layer',
    setColorInternal Z Z (Z.lor 1) 2 (1, 2, 3) exampleLayer = Some layer' /\
    color_ Z Z 2 layer' = Some (1, 2, 3) /\
    padding_ Z Z 2 layer' = Some (0, 0, 0, 0).
Proof.
  destruct (proj1 (setters_change_one_field Z Z (Z.lor 1) 2 exampleLayer
                     (exampleData 2) eq_refl) (1, 2, 3))
    as (layer' & Hset & _ & Hcolor & Hpadding & _).
  exists layer'. split; [exact Hset |]. split; [exact Hcolor |].
  rewrite Hpadding. reflexivity.
Defined.

Lemma recompact_idempotent_witness :
  exists s',
    recompact Z exampleState = Some s' /\ consistent Z s' /\
    recompact Z s' = Some s'.
Proof.
  exact (proj1 (recompact_idempotent Z exampleState exampleState_consistent)).
Defined.

(** An update that draws the last and the first text of [exampleState],
    in this order. All data are attached to the node 0; the renderers of
    Magnum are replaced by ones that leave the views as they are, the
    alignment bits by powers of two, and the floats by integers, among
    which the half is taken as 0. *)
Definition exampleBits : TextAlignment.t :=
  {| TextAlignment.AlignmentHorizontal := 7;
     TextAlignment.AlignmentLeft := 1;
     TextAlignment.AlignmentCenter := 2;
     TextAlignment.AlignmentRight := 4;
     TextAlignment.AlignmentVertical := 120;
     TextAlignment.AlignmentLine := 8;
     TextAlignment.AlignmentMiddle := 16;
     TextAlignment.AlignmentTop := 32;
     TextAlignment.AlignmentBottom := 64;
     TextAlignment.AlignmentIntegral := 128 |}.

Definition exampleVertex : TextLayerVertex.t Z :=
  {| TextLayerVertex.position := (0, 0);
     TextLayerVertex.textureCoordinates := (0, 0, 0);
     TextLayerVertex.color := (0, 0, 0);
     TextLayerVertex.styleUniform := 0 |}.

Definition exampleStyles : list (TextLayerShared.TextLayerStyle.t Z) :=
  [ {| TextLayerShared.TextLayerStyle.uniform := 0;
       TextLayerShared.TextLayerStyle.font := 0;
       TextLayerShared.TextLayerStyle.padding := (1, 1, 1, 1) |} ].

Definition exampleBuffers : Buffers Z :=
  {| vertices := []; indices := []; indexDrawOffsets := [] |}.

Definition exampleUpdate : option (State Z * Buffers Z) :=
  doUpdate Z 0 [0; 0; 0; 0; 0] (fun _ _ vertexData => vertexData)
    (fun _ indexData => indexData) exampleBits Z.add Z.sub Z.mul
    (fun x => x) 0 1 (-1) exampleVertex 0 [4; 0] [(0, 0)] [(10, 10)]
    exampleStyles exampleState exampleBuffers.

Lemma example_drawable :
  Forall (drawable Z [0; 0; 0; 0; 0] exampleState exampleStyles [(0, 0)]
            [(10, 10)]) [4; 0].
Proof.
  repeat constructor;
    try (eexists _, _, _; repeat split; try reflexivity;
         eexists; reflexivity);
    lia.
Defined.

Lemma doUpdate_draw_offsets_witness :
  exists s' buffers',
    exampleUpdate = Some (s', buffers') /\
    recompact Z exampleState = Some s' /\
    Z.of_nat (length (vertices Z buffers')) =
      4 * Z.of_nat (length (glyphData Z s')) /\
    Z.of_nat (length (indices Z buffers')) =
      6 * glyphsDrawn Z exampleState [4; 0] /\
    indexDrawOffsets Z buffers' =
      drawOffsets 0 (map (glyphCountOf Z exampleState) [4; 0]).
Proof.
  apply (doUpdate_draw_offsets Z 0 [0; 0; 0; 0; 0]
           (fun _ _ vertexData => vertexData) (fun _ _ _ => eq_refl)
           (fun _ indexData => indexData) (fun _ _ => eq_refl)
           exampleBits Z.add Z.sub Z.mul (fun x => x) 0 1 (-1) exampleVertex 0
           [4; 0] [(0, 0)] [(10, 10)] exampleStyles exampleState
           exampleBuffers exampleState_consistent).
  - discriminate.
  - exact example_drawable.
  - reflexivity.
  - reflexivity.
  - reflexivity.
Defined.

Lemma doUpdate_vertex_attributes_witness :
  exists s' buffers',
    exampleUpdate = Some (s', buffers') /\
    forall dataId, In dataId [4; 0] ->
      exists d run styleData,
        data Z s' !! Z.to_nat dataId = Some d /\
        glyphRuns Z s' !! Z.to_nat (glyphRun d) = Some run /\
        exampleStyles !! Z.to_nat (style d) = Some styleData /\
        forall k,
          4 * glyphOffset run <= Z.of_nat k <
            4 * (glyphOffset run + glyphCount run) ->
          exists vertex,
            vertices Z buffers' !! k = Some vertex /\
            TextLayerVertex.color vertex = color d /\
            TextLayerVertex.styleUniform vertex =
              TextLayerShared.TextLayerStyle.uniform styleData.
Proof.
  apply (doUpdate_vertex_attributes Z 0 [0; 0; 0; 0; 0]
           (fun _ _ vertexData => vertexData) (fun _ _ _ => eq_refl)
           (fun _ indexData => indexData) (fun _ _ => eq_refl)
           exampleBits Z.add Z.sub Z.mul (fun x => x) 0 1 (-1) exampleVertex 0
           [4; 0] [(0, 0)] [(10, 10)] exampleStyles exampleState
           exampleBuffers exampleState_consistent).
  - discriminate.
  - exact example_drawable.
  - reflexivity.
  - reflexivity.
  - reflexivity.
Defined.

Example exampleUpdate_offsets :
  (fun update => indexDrawOffsets Z (snd update)) <$> exampleUpdate =
  Some [0; 12; 24].
Proof. reflexivity. Qed.

(** A base class [create()] that counts the data in the base object and
    hands out the id 5, the first one that [exampleState] has no data
    for. *)
Definition exampleCreate (node : Z) (b : Z) : option (Z * Z) :=
  Some (b + 1, Handle.dataHandle (Handle.layerHandle 1 1) 5 1).

(** Shaping in the examples.  The shared state is
    [TextLayerShared.twoFonts], with one style that has the second font.
    A text is the list of its font-specific glyph ids, the properties are
    the font and the alignment, and a text is shaped to one glyph per id,
    placed by the scale of the font; shapers carry no state.  The glyph
    cache numbers the glyphs of a font from a hundred times the id of the
    font. *)
Definition exampleTextStyles : list (TextLayerShared.TextLayerStyle.t Z) :=
  [ {| TextLayerShared.TextLayerStyle.uniform := 0;
       TextLayerShared.TextLayerStyle.font := Handle.fontHandle 1 1;
       TextLayerShared.TextLayerStyle.padding := (1, 1, 1, 1) |} ].

Definition exampleShape (fontState : TextLayerShared.TextLayerFont nat unit Z)
    (shaper : unit) (text : list Z) (properties : Z * Z)
    : unit * list (TextLayerGlyphData Z) :=
  (shaper,
   map (fun id => {| position := (TextLayerShared.scale _ _ _ fontState * id, 0);
                     glyphId := id |}) text).

Definition exampleCacheGlyphId (cache : list nat) (fontId glyph : Z) : Z :=
  100 * fontId + glyph.

Definition exampleCreateText (style : Z) (text : list Z) (properties : Z * Z)
    : option (TextLayerShared.State nat unit Z (list nat) * Layer Z Z * Z) :=
  create Z Z exampleCreate (exampleData 77) 0 nat unit (list nat) (list Z)
    (Z * Z) fst snd (fun _ => tt) exampleShape exampleCacheGlyphId
    style text properties (1, 1, 1) 0 TextLayerShared.twoFonts
    exampleTextStyles exampleLayer.

Definition exampleSetText (id : Z) (text : list Z) (properties : Z * Z)
    : option (TextLayerShared.State nat unit Z (list nat) * Layer Z Z) :=
  setTextInternal Z Z (Z.lor 1) nat unit (list nat) (list Z) (Z * Z) fst snd
    (fun _ => tt) exampleShape exampleCacheGlyphId id text properties
    TextLayerShared.twoFonts exampleTextStyles exampleLayer.

(** A text of two glyphs in style 0 and without a font of its own is
    shaped with the second font, the font of the style. *)
Lemma create_adds_run_witness :
  exists shared' layer',
    exampleCreateText 0 [60; 61] (Handle.FontHandle_Null, 2) =
    Some (shared', layer', Handle.dataHandle (Handle.layerHandle 1 1) 5 1) /\
    base Z Z layer' = 1 /\
    glyphData Z (state Z Z layer') =
      glyphData Z exampleState ++
      [ {| position := (120, 0); glyphId := 160 |};
        {| position := (122, 0); glyphId := 161 |} ] /\
    data Z (state Z Z layer') !! 5%nat =
      Some {| padding := (0, 0, 0, 0); glyphRun := 5; style := 0; scale := 2;
              alignment := 2; color := (1, 1, 1) |} /\
    length (data Z (state Z Z layer')) = 6%nat.
Proof.
  destruct (proj1 (create_adds_run Z Z exampleCreate (exampleData 77) 0 nat
                     unit (list nat) (list Z) (Z * Z) fst snd (fun _ => tt)
                     exampleShape exampleCacheGlyphId 0 [60; 61]
                     (Handle.FontHandle_Null, 2) (1, 1, 1) 0
                     TextLayerShared.twoFonts exampleTextStyles exampleLayer)
              1 (Handle.dataHandle (Handle.layerHandle 1 1) 5 1)
              [7; 8; 9]%nat
              {| TextLayerShared.fontStorage := None;
                 TextLayerShared.font := 8%nat;
                 TextLayerShared.shaper := None;
                 TextLayerShared.scale := 2;
                 TextLayerShared.glyphCacheFontId := 1 |})
    as (shared' & layer' & Hcreate & _ & Hbase & Hglyphs & _ & Hdata & Hlen & _).
  - reflexivity.
  - vm_compute. split; congruence.
  - reflexivity.
  - reflexivity.
  - exists shared', layer'. split; [exact Hcreate |]. split; [exact Hbase |].
    split; [exact Hglyphs |]. split; [exact Hdata | exact Hlen].
Defined.

(** With a font that is not valid the same call fails, as it does when
    no style data is set and the text has no font of its own. *)
Example exampleCreateText_expects :
  exampleCreateText 0 [60; 61] (Handle.fontHandle 2 1, 2) = None /\
  create Z Z exampleCreate (exampleData 77) 0 nat unit (list nat) (list Z)
    (Z * Z) fst snd (fun _ => tt) exampleShape exampleCacheGlyphId
    0 [60; 61] (Handle.FontHandle_Null, 2) (1, 1, 1) 0
    TextLayerShared.twoFonts [] exampleLayer = None.
Proof. split; reflexivity. Qed.

Lemma create_consistent_witness :
  exists shared' layer',
    exampleCreateText 0 [60; 61] (Handle.FontHandle_Null, 2) =
    Some (shared', layer', Handle.dataHandle (Handle.layerHandle 1 1) 5 1) /\
    consistent Z (state Z Z layer').
Proof.
  eexists _, _. split; [reflexivity |].
  eapply (create_consistent Z Z exampleCreate (exampleData 77) 0 nat
           unit (list nat) (list Z) (Z * Z) fst snd (fun _ => tt)
           exampleShape exampleCacheGlyphId 0 [60; 61]
           (Handle.FontHandle_Null, 2) (1, 1, 1) 0
           TextLayerShared.twoFonts exampleTextStyles exampleLayer _ _
           (Handle.dataHandle (Handle.layerHandle 1 1) 5 1)
           exampleState_consistent).
  - vm_compute. split; congruence.
  - intros fontState _. vm_compute. congruence.
  - vm_compute. congruence.
  - vm_compute. congruence.
  - intros j run Hj Hu.
    do 5 (destruct j as [| j];
          [injection Hj as <-; vm_compute; congruence |]).
    discriminate Hj.
  - reflexivity.
Defined.

(** The third text of [exampleState] is replaced by one of two glyphs in
    the first font. *)
Lemma setTextInternal_replaces_run_witness :
  exists shared' layer',
    exampleSetText 2 [31; 32] (Handle.fontHandle 0 1, 3) =
      Some (shared', layer') /\
    base Z Z layer' = 1 /\
    consistent Z (state Z Z layer') /\
    glyphRuns Z (state Z Z layer') =
      [ {| glyphOffset := 0; glyphCount := 2; Implementation.data := 0 |};
        {| glyphOffset := UnsignedIntMax; glyphCount := 3;
           Implementation.data := 1 |};
        {| glyphOffset := UnsignedIntMax; glyphCount := 1;
           Implementation.data := 2 |};
        {| glyphOffset := UnsignedIntMax; glyphCount := 2;
           Implementation.data := 3 |};
        {| glyphOffset := 8; glyphCount := 2; Implementation.data := 4 |};
        {| glyphOffset := 10; glyphCount := 2; Implementation.data := 2 |} ] /\
    data Z (state Z Z layer') !! 2%nat =
      Some {| padding := (0, 0, 0, 0); glyphRun := 5; style := 0; scale := 1;
              alignment := 3; color := (0, 0, 0) |}.
Proof.
  destruct (proj1 (setTextInternal_replaces_run Z Z (Z.lor 1) nat unit
                     (list nat) (list Z) (Z * Z) fst snd (fun _ => tt)
                     exampleShape exampleCacheGlyphId 2 [31; 32]
                     (Handle.fontHandle 0 1, 3) TextLayerShared.twoFonts
                     exampleTextStyles exampleLayer)
              (exampleData 2)
              {| glyphOffset := 5; glyphCount := 1; Implementation.data := 2 |}
              {| TextLayerShared.fontStorage := None;
                 TextLayerShared.font := 7%nat;
                 TextLayerShared.shaper := None;
                 TextLayerShared.scale := 1;
                 TextLayerShared.glyphCacheFontId := 0 |}
              [7; 8; 9]%nat exampleState_consistent)
    as (shared' & layer' & Hset & _ & Hbase & Hcons & _ & Hruns & Hdata & _).
  - vm_compute. split; congruence.
  - reflexivity.
  - reflexivity.
  - reflexivity.
  - reflexivity.
  - vm_compute. congruence.
  - vm_compute. congruence.
  - vm_compute. congruence.
  - exists shared', layer'. split; [exact Hset |]. split; [exact Hbase |].
    split; [exact Hcons |]. split; [exact Hruns | exact Hdata].
Defined.

End TextLayer.

(** ** BaseLayer: quad generation (Whee/BaseLayer.cpp) *)

(** Modelled from the spec: the structs of
    Whee/Implementation/baseLayerState.h, which is missing.  The
    specification leaves the layers' contents out, so the fields are the
    ones BaseLayer.cpp reads and writes. *)
Module BaseLayerData.

Record t (Float : Type) : Type := {
  outlineWidth : Float * Float * Float * Float;
  color : Float * Float * Float;
  style : Z
}.

Arguments outlineWidth {Float} _.
Arguments color {Float} _.
Arguments style {Float} _.

End BaseLayerData.

Module BaseLayerVertex.

Record t (Float : Type) : Type := {
  position : Float * Float;
  centerDistance : Float * Float;
  outlineWidth : Float * Float * Float * Float;
  color : Float * Float * Float;
  style : Z
}.

Arguments position {Float} _.
Arguments centerDistance {Float} _.
Arguments outlineWidth {Float} _.
Arguments color {Float} _.
Arguments style {Float} _.

End BaseLayerVertex.

Module BaseLayer.

Section Layer.

(** Floats and their operations are left abstract. *)
Variable Float : Type.
Variable fadd : Float -> Float -> Float.
Variable fmul : Float -> Float -> Float.
Variable fneg : Float -> Float.
Variable half : Float.

(** What the [AbstractLayer] base provides: [capacity()] and [nodes()],
    the node handle each data is attached to. *)
Variable capacity : Z.
Variable nodes : list Z.

(** What [arrayResize(..., NoInit, ...)] leaves in new elements. *)
Variable uninitializedIndex : Z.
Variable uninitializedVertex : BaseLayerVertex.t Float.

Definition Vector2 : Type := Float * Float.

(** [BaseLayer::State], the fields [doUpdate()] uses. *)
Record State : Type := {
  data : list (BaseLayerData.t Float);
  vertices : list (BaseLayerVertex.t Float);
  indices : list Z
}.

(** [arrayResize(array, NoInit, size)] *)
Definition arrayResize {A} (uninitialized : A) (array : list A) (size : Z)
    : list A :=
  take (Z.to_nat size) array ++
  replicate (Z.to_nat size - length array) uninitialized.

(** [array[i]] of a Corrade array or view, which asserts the range. *)
Definition at_ {A} (array : list A) (i : Z) : option A :=
  if (0 <=? i) && (i <? Z.of_nat (length array))
  then array !! Z.to_nat i else None.

(** [array[i] = value] *)
Definition assign {A} (array : list A) (i : Z) (value : A) : option (list A) :=
  if (0 <=? i) && (i <? Z.of_nat (length array))
  then Some (<[Z.to_nat i := value]> array) else None.

(** [state.indices[indexOffset++] = value], for each of [values]. *)
Fixpoint assignEach (indices : list Z) (indexOffset : Z) (values : list Z)
    : option (list Z) :=
  match values with
  | [] => Some indices
  | value :: rest =>
      indices' ← assign indices indexOffset value;
      assignEach indices' (u32 (indexOffset + 1)) rest
  end.

(** The six indices of the quad at [vertexOffset]:
<<
    0---1 0---2 5
    |   | |  / /|
    |   | | / / |
    |   | |/ /  |
    2---3 1 3---4
>> *)
Definition quadIndices (vertexOffset : Z) : list Z :=
  [ u32 (vertexOffset + 0); u32 (vertexOffset + 2); u32 (vertexOffset + 1);
    u32 (vertexOffset + 2); u32 (vertexOffset + 3); u32 (vertexOffset + 1) ].

(** The first loop, from iteration [i] on. *)
Fixpoint fillIndices (i : Z) (dataIds : list Z) (indices : list Z)
    : option (list Z) :=
  match dataIds with
  | [] => Some indices
  | dataId :: rest =>
      let vertexOffset := u32 (dataId * 4) in
      let indexOffset := u32 (i * 6) in
      indices' ← assignEach indices indexOffset (quadIndices vertexOffset);
      fillIndices (u32 (i + 1)) rest indices'
  end.

Definition vadd (a b : Vector2) : Vector2 :=
  (fadd (fst a) (fst b), fadd (snd a) (snd b)).
Definition vscale (a : Vector2) (s : Float) : Vector2 :=
  (fmul (fst a) s, fmul (snd a) s).
Definition vneg (a : Vector2) : Vector2 := (fneg (fst a), fneg (snd a)).

(** [Math::lerp(a, b, BitVector2{i})]: component-wise, [b] where the bit
    of [i] is set and [a] where it is not; bit 0 is for x, bit 1 for y. *)
Definition lerp (a b : Vector2) (i : Z) : Vector2 :=
  (if Z.testbit i 0 then fst b else fst a,
   if Z.testbit i 1 then snd b else snd a).

(** The vertex [i] of the quad of a data on a node. *)
Definition quadVertex (d : BaseLayerData.t Float) (offset size : Vector2)
    (i : Z) : BaseLayerVertex.t Float :=
  let min := offset in
  let max := vadd min size in
  let sizeHalf := vscale size half in
  let sizeHalfNegative := vneg sizeHalf in
  {| BaseLayerVertex.position := lerp min max i;
     BaseLayerVertex.centerDistance := lerp sizeHalfNegative sizeHalf i;
     BaseLayerVertex.outlineWidth := BaseLayerData.outlineWidth d;
     BaseLayerVertex.color := BaseLayerData.color d;
     BaseLayerVertex.style := BaseLayerData.style d |}.

(** The inner loop, [for(UnsignedByte i = 0; i != 4; ++i)]. *)
Fixpoint fillQuad (corners : list Z) (dataId : Z) (d : BaseLayerData.t Float)
    (offset size : Vector2) (vertices : list (BaseLayerVertex.t Float))
    : option (list (BaseLayerVertex.t Float)) :=
  match corners with
  | [] => Some vertices
  | i :: rest =>
      vertices' ← assign vertices (u32 (u32 (dataId * 4) + i))
                    (quadVertex d offset size i);
      fillQuad rest dataId d offset size vertices'
  end.

(** The second loop. *)
Fixpoint fillVertices (s : State) (nodeOffsets nodeSizes : list Vector2)
    (dataIds : list Z) (vertices : list (BaseLayerVertex.t Float))
    : option (list (BaseLayerVertex.t Float)) :=
  match dataIds with
  | [] => Some vertices
  | dataId :: rest =>
      node ← at_ nodes dataId;
      let nodeId := Handle.nodeHandleId node in
      d ← at_ (data s) dataId;
      size ← at_ nodeSizes nodeId;
      min ← at_ nodeOffsets nodeId;
      vertices' ← fillQuad [0; 1; 2; 3] dataId d min size vertices;
      fillVertices s nodeOffsets nodeSizes rest vertices'
  end.

(** [BaseLayer::doUpdate()] *)
Definition doUpdate (dataIds : list Z) (nodeOffsets nodeSizes : list Vector2)
    (s : State) : option State :=
  indices' ← fillIndices 0 dataIds
               (arrayResize uninitializedIndex (indices s)
                  (u64 (Z.of_nat (length dataIds) * 6)));
  vertices' ← fillVertices s nodeOffsets nodeSizes dataIds
                (arrayResize uninitializedVertex (vertices s)
                   (u64 (capacity * 4)));
  Some {| data := data s; vertices := vertices'; indices := indices' |}.

(** *** What [doUpdate()] produces *)

(** The six indices the specification gives for a data. *)
Definition expectedQuadIndices (dataId : Z) : list Z :=
  map (fun corner => 4 * dataId + corner) [0; 2; 1; 2; 3; 1].

(** The inputs of the quad of a data: its record, and the offset and size
    of the node it is attached to. *)
Definition quadOf (s : State) (nodeOffsets nodeSizes : list Vector2)
    (dataId : Z) : option (BaseLayerData.t Float * Vector2 * Vector2) :=
  node ← at_ nodes dataId;
  d ← at_ (data s) dataId;
  size ← at_ nodeSizes (Handle.nodeHandleId node);
  min ← at_ nodeOffsets (Handle.nodeHandleId node);
  Some (d, min, size).

(** *** Properties of [doUpdate()] *)

Lemma u32_id x : 0 <= x < 4294967296 -> u32 x = x.
Proof. apply u32_small. Qed.

Lemma u64_id x : 0 <= x < 18446744073709551616 -> u64 x = x.
Proof. apply u64_small. Qed.

Lemma assign_in_range {A} (array : list A) i value :
  0 <= i < Z.of_nat (length array) ->
  assign array i value = Some (<[Z.to_nat i := value]> array).
Proof.
  intros H. unfold assign.
  destruct (Z.leb_spec 0 i); [| lia].
  destruct (Z.ltb_spec i (Z.of_nat (length array))); [| lia].
  reflexivity.
Qed.

Lemma at_in_range {A} (array : list A) i :
  0 <= i < Z.of_nat (length array) -> at_ array i = array !! Z.to_nat i.
Proof.
  intros H. unfold at_.
  destruct (Z.leb_spec 0 i); [| lia].
  destruct (Z.ltb_spec i (Z.of_nat (length array))); [| lia].
  reflexivity.
Qed.

Lemma at_Some {A} (array : list A) i x :
  at_ array i = Some x ->
  0 <= i < Z.of_nat (length array) /\ array !! Z.to_nat i = Some x.
Proof.
  unfold at_.
  destruct (Z.leb_spec 0 i) as [H0 | H0]; [| discriminate].
  destruct (Z.ltb_spec i (Z.of_nat (length array))) as [H1 | H1];
    [| discriminate].
  simpl. intros Hx. split; [lia | exact Hx].
Qed.

Lemma arrayResize_length {A} (uninitialized : A) array size :
  0 <= size -> Z.of_nat (length (arrayResize uninitialized array size)) = size.
Proof.
  intros H. unfold arrayResize.
  rewrite length_app, length_take, length_replicate. lia.
Qed.

Lemma assignEach_app values done tail :
  Z.of_nat (length done) + Z.of_nat (length values) < 4294967296 ->
  (length values <= length tail)%nat ->
  assignEach (done ++ tail) (Z.of_nat (length done)) values =
  Some (done ++ values ++ drop (length values) tail).
Proof.
  revert done tail. induction values as [| value rest IH];
    intros done tail Hfit Hlen; simpl in *.
  - rewrite drop_0. reflexivity.
  - destruct tail as [| old tail]; simpl in *; [lia |].
    rewrite assign_in_range by (rewrite length_app; simpl; lia).
    simpl. rewrite Nat2Z.id.
    rewrite insert_app_r_alt by lia. rewrite Nat.sub_diag. simpl.
    rewrite u32_id by lia.
    replace (done ++ value :: tail) with ((done ++ [value]) ++ tail)
      by (rewrite <- app_assoc; reflexivity).
    replace (Z.of_nat (length done) + 1)
      with (Z.of_nat (length (done ++ [value])))
      by (rewrite length_app; simpl; lia).
    rewrite IH.
    + rewrite <- app_assoc. reflexivity.
    + rewrite length_app. simpl. lia.
    + lia.
Qed.

Lemma quadIndices_expected dataId :
  0 <= dataId -> dataId * 4 + 3 < 4294967296 ->
  quadIndices (u32 (dataId * 4)) = expectedQuadIndices dataId.
Proof.
  intros H0 H1. unfold quadIndices, expectedQuadIndices. simpl.
  rewrite (u32_id (dataId * 4)) by lia.
  rewrite !u32_id by lia.
  repeat (f_equal; try lia).
Qed.

Lemma expectedQuadIndices_length dataId :
  length (expectedQuadIndices dataId) = 6%nat.
Proof. reflexivity. Qed.

Lemma fillIndices_app dataIds i done tail :
  Z.of_nat (length done) = 6 * Z.of_nat i ->
  Z.of_nat (length tail) = 6 * Z.of_nat (length dataIds) ->
  6 * (Z.of_nat i + Z.of_nat (length dataIds)) < 4294967296 ->
  Forall (fun dataId => 0 <= dataId /\ dataId * 4 + 3 < 4294967296) dataIds ->
  fillIndices (Z.of_nat i) dataIds (done ++ tail) =
  Some (done ++ flat_map expectedQuadIndices dataIds).
Proof.
  revert i done tail.
  induction dataIds as [| dataId rest IH];
    intros i done tail Hdone Htail Hfit Hids;
    simpl in Htail, Hfit; cbn [fillIndices flat_map].
  - destruct tail; simpl in *; [reflexivity | lia].
  - inversion Hids as [| ? ? [Hd0 Hd1] Hrest]; subst.
    rewrite (quadIndices_expected dataId Hd0 Hd1).
    rewrite (u32_id (Z.of_nat i * 6)) by lia.
    rewrite (u32_id (Z.of_nat i + 1)) by lia.
    replace (Z.of_nat i * 6) with (Z.of_nat (length done)) by lia.
    rewrite assignEach_app by (rewrite ?expectedQuadIndices_length; lia).
    cbn [mbind option_bind].
    replace (Z.of_nat i + 1) with (Z.of_nat (S i)) by lia.
    rewrite !app_assoc.
    apply IH.
    + rewrite length_app, expectedQuadIndices_length. lia.
    + rewrite length_drop, expectedQuadIndices_length. lia.
    + lia.
    + exact Hrest.
Qed.

Lemma quadOf_Some s nodeOffsets nodeSizes dataId d offset size :
  quadOf s nodeOffsets nodeSizes dataId = Some (d, offset, size) ->
  exists node,
    at_ nodes dataId = Some node /\
    at_ (data s) dataId = Some d /\
    at_ nodeSizes (Handle.nodeHandleId node) = Some size /\
    at_ nodeOffsets (Handle.nodeHandleId node) = Some offset.
Proof.
  unfold quadOf. intros H.
  destruct (at_ nodes dataId) as [node |] eqn:Hn; simpl in H;
    [| discriminate].
  destruct (at_ (data s) dataId) as [d' |] eqn:Hd; simpl in H;
    [| discriminate].
  destruct (at_ nodeSizes (Handle.nodeHandleId node)) as [size' |] eqn:Hs;
    simpl in H; [| discriminate].
  destruct (at_ nodeOffsets (Handle.nodeHandleId node)) as [offset' |] eqn:Ho;
    simpl in H; [| discriminate].
  injection H as -> -> ->. exists node. repeat split; assumption.
Qed.

Lemma fillQuad_spec dataId d offset size vertices :
  0 <= dataId ->
  dataId * 4 + 3 < Z.of_nat (length vertices) ->
  dataId * 4 + 3 < 4294967296 ->
  exists vertices',
    fillQuad [0; 1; 2; 3] dataId d offset size vertices = Some vertices' /\
    length vertices' = length vertices /\
    (forall i, 0 <= i < 4 ->
       vertices' !! Z.to_nat (4 * dataId + i) =
       Some (quadVertex d offset size i)) /\
    (forall j, Z.of_nat j / 4 <> dataId -> vertices' !! j = vertices !! j).
Proof.
  intros H0 Hlen Hfit. cbn [fillQuad].
  rewrite (u32_id (dataId * 4)) by lia.
  rewrite !u32_id by lia.
  rewrite assign_in_range by lia. cbn [mbind option_bind].
  rewrite assign_in_range by (rewrite !length_insert; lia).
  cbn [mbind option_bind].
  rewrite assign_in_range by (rewrite !length_insert; lia).
  cbn [mbind option_bind].
  rewrite assign_in_range by (rewrite !length_insert; lia).
  cbn [mbind option_bind].
  eexists. split; [reflexivity |].
  split; [rewrite !length_insert; reflexivity |]. split.
  - intros i Hi.
    assert (Hcases : i = 0 \/ i = 1 \/ i = 2 \/ i = 3) by lia.
    destruct Hcases as [-> | [-> | [-> | ->]]].
    + rewrite !list_lookup_insert_ne by lia.
      replace (4 * dataId + 0) with (dataId * 4 + 0) by lia.
      apply list_lookup_insert_eq. lia.
    + rewrite !list_lookup_insert_ne by lia.
      replace (4 * dataId + 1) with (dataId * 4 + 1) by lia.
      apply list_lookup_insert_eq. rewrite !length_insert. lia.
    + rewrite !list_lookup_insert_ne by lia.
      replace (4 * dataId + 2) with (dataId * 4 + 2) by lia.
      apply list_lookup_insert_eq. rewrite !length_insert. lia.
    + replace (4 * dataId + 3) with (dataId * 4 + 3) by lia.
      apply list_lookup_insert_eq. rewrite !length_insert. lia.
  - intros j Hj.
    rewrite !list_lookup_insert_ne; [reflexivity | | | |];
      intros Heq; apply Hj; rewrite <- Heq; rewrite Z2Nat.id by lia;
      Z.div_mod_to_equations; lia.
Qed.

Lemma fillVertices_spec s nodeOffsets nodeSizes dataIds vertices :
  Forall (fun dataId =>
            0 <= dataId /\
            dataId * 4 + 3 < Z.of_nat (length vertices) /\
            dataId * 4 + 3 < 4294967296 /\
            is_Some (quadOf s nodeOffsets nodeSizes dataId)) dataIds ->
  exists vertices',
    fillVertices s nodeOffsets nodeSizes dataIds vertices = Some vertices' /\
    length vertices' = length vertices /\
    (forall dataId d offset size i,
       In dataId dataIds ->
       quadOf s nodeOffsets nodeSizes dataId = Some (d, offset, size) ->
       0 <= i < 4 ->
       vertices' !! Z.to_nat (4 * dataId + i) =
       Some (quadVertex d offset size i)) /\
    (forall j, ~ In (Z.of_nat j / 4) dataIds -> vertices' !! j = vertices !! j).
Proof.
  revert vertices. induction dataIds as [| dataId rest IH];
    intros vertices Hids; cbn [fillVertices].
  - exists vertices. split; [reflexivity |]. split; [reflexivity |].
    split; [intros ? ? ? ? ? [] | reflexivity].
  - inversion Hids as [| ? ? (H0 & Hlen & Hfit & [[[d offset] size] Hq]) Hrest];
      subst.
    destruct (quadOf_Some _ _ _ _ _ _ _ Hq) as (node & Hn & Hd & Hs & Ho).
    rewrite Hn. cbn [mbind option_bind]. rewrite Hd. cbn [mbind option_bind].
    rewrite Hs. cbn [mbind option_bind]. rewrite Ho. cbn [mbind option_bind].
    destruct (fillQuad_spec dataId d offset size vertices H0 Hlen Hfit)
      as (vertices1 & Hfill & Hlen1 & Hquad & Hframe1).
    rewrite Hfill. cbn [mbind option_bind].
    destruct (IH vertices1) as (vertices' & Hrec & Hlen' & Hquads & Hframe').
    { rewrite Hlen1. exact Hrest. }
    exists vertices'. split; [exact Hrec |].
    split; [congruence |]. split.
    + intros dataId' d' offset' size' i Hin Hq' Hi.
      destruct (in_dec Z.eq_dec dataId' rest) as [Hin' | Hnotin].
      * apply (Hquads dataId' d' offset' size' i Hin' Hq' Hi).
      * destruct Hin as [<- | Hin']; [| contradiction].
        rewrite Hq in Hq'. injection Hq' as <- <- <-.
        rewrite Hframe'; [apply Hquad; exact Hi |].
        rewrite Z2Nat.id by lia.
        replace ((4 * dataId + i) / 4) with dataId
          by (Z.div_mod_to_equations; lia).
        exact Hnotin.
    + intros j Hj. rewrite Hframe', Hframe1; [reflexivity | |].
      * intros Heq. apply Hj. left. symmetry. exact Heq.
      * intros Hin. apply Hj. right. exact Hin.
Qed.

Lemma flat_map_block {A B} (f : A -> list B) (n : nat) (l : list A) i x :
  (forall y, length (f y) = n) -> l !! i = Some x ->
  take n (drop (n * i) (flat_map f l)) = f x.
Proof.
  intros Hn. revert i. induction l as [| a l IH]; intros i Hi;
    [discriminate |].
  simpl. destruct i as [| i]; simpl in Hi.
  - injection Hi as ->. rewrite Nat.mul_0_r, drop_0.
    apply take_app_length'. symmetry. apply Hn.
  - replace (n * S i)%nat with (length (f a) + n * i)%nat
      by (rewrite Hn; lia).
    rewrite drop_app_add. apply IH. exact Hi.
Qed.

Lemma flat_map_length {A B} (f : A -> list B) (n : nat) (l : list A) :
  (forall y, length (f y) = n) -> length (flat_map f l) = (n * length l)%nat.
Proof.
  intros Hn. induction l as [| a l IH]; simpl; [lia |].
  rewrite length_app, Hn, IH. lia.
Qed.

(** C10: [doUpdate()] called with the ids of data that exist (below
    [capacity()], at most 2^20, attached to nodes the offset and size
    arrays cover) returns.  The index array then has exactly
    6 * |dataIds| elements, the six at positions 6i..6i+5 being
    4*dataIds[i] + (0, 2, 1, 2, 3, 1), in the order of [dataIds]; the
    vertex array has 4 * capacity() elements, and the four vertices of
    each data in [dataIds] are the corners between the node offset and
    offset + size, with the data's outline width, color and style. *)
Theorem doUpdate_quads dataIds nodeOffsets nodeSizes s :
  Z.of_nat (length dataIds) * 6 < 2 ^ 32 ->
  0 <= capacity <= 2 ^ 20 ->
  Forall (fun dataId =>
            0 <= dataId < capacity /\
            is_Some (quadOf s nodeOffsets nodeSizes dataId)) dataIds ->
  exists s',
    doUpdate dataIds nodeOffsets nodeSizes s = Some s' /\
    data s' = data s /\
    Z.of_nat (length (indices s')) = 6 * Z.of_nat (length dataIds) /\
    (forall i dataId, dataIds !! i = Some dataId ->
       take 6 (drop (6 * i) (indices s')) =
       map (fun corner => 4 * dataId + corner) [0; 2; 1; 2; 3; 1]) /\
    Z.of_nat (length (vertices s')) = 4 * capacity /\
    (forall dataId d offset size i,
       In dataId dataIds ->
       quadOf s nodeOffsets nodeSizes dataId = Some (d, offset, size) ->
       0 <= i < 4 ->
       exists vertex,
         vertices s' !! Z.to_nat (4 * dataId + i) = Some vertex /\
         BaseLayerVertex.position vertex =
           (if Z.testbit i 0 then fadd (fst offset) (fst size) else fst offset,
            if Z.testbit i 1 then fadd (snd offset) (snd size) else snd offset) /\
         vertex = quadVertex d offset size i).
Proof.
  intros Hcount Hcap Hids.
  change (2 ^ 32) with 4294967296 in Hcount.
  change (2 ^ 20) with 1048576 in Hcap.
  unfold doUpdate.
  rewrite (u64_id (Z.of_nat (length dataIds) * 6)) by lia.
  rewrite (u64_id (capacity * 4)) by lia.
  pose proof (arrayResize_length uninitializedIndex (indices s)
                (Z.of_nat (length dataIds) * 6)) as Hil.
  pose proof (arrayResize_length uninitializedVertex (vertices s)
                (capacity * 4)) as Hvl.
  rewrite <- (app_nil_l (arrayResize uninitializedIndex _ _)).
  rewrite (fillIndices_app dataIds 0 []); [| reflexivity | lia | lia |].
  2:{ eapply List.Forall_impl; [| exact Hids]. simpl. intros dataId [Hd _]. lia. }
  cbn [mbind option_bind app].
  destruct (fillVertices_spec s nodeOffsets nodeSizes dataIds
              (arrayResize uninitializedVertex (vertices s) (capacity * 4)))
    as (vertices' & Hfill & Hlen & Hquads & _).
  { eapply List.Forall_impl; [| exact Hids]. simpl. intros dataId [Hd Hq].
    repeat split; try lia. exact Hq. }
  rewrite Hfill. cbn [mbind option_bind].
  eexists. split; [reflexivity |]. simpl.
  split; [reflexivity |].
  split; [rewrite (flat_map_length _ 6%nat)
            by exact expectedQuadIndices_length; lia |].
  split; [intros i dataId Hi;
          apply (flat_map_block expectedQuadIndices 6 dataIds i dataId
                   expectedQuadIndices_length Hi) |].
  split; [lia |].
  intros dataId d offset size i Hin Hq Hi.
  exists (quadVertex d offset size i).
  split; [apply (Hquads dataId d offset size i Hin Hq Hi) |].
  split; reflexivity.
Qed.

(** *** More about what [doUpdate()] produces *)

Lemma arrayResize_same {A} (uninitialized : A) array size :
  Z.of_nat (length array) = size ->
  arrayResize uninitialized array size = array.
Proof.
  intros H. unfold arrayResize.
  rewrite firstn_all2 by lia.
  replace (Z.to_nat size - length array)%nat with 0%nat by lia.
  apply app_nil_r.
Qed.

Lemma quadOf_data s s' nodeOffsets nodeSizes dataId :
  data s' = data s ->
  quadOf s' nodeOffsets nodeSizes dataId = quadOf s nodeOffsets nodeSizes dataId.
Proof. intros H. unfold quadOf. rewrite H. reflexivity. Qed.

(** [doUpdate()] in full: the indices are the ones of the quads, whatever
    was in the array; the vertices of the data in [dataIds] are their
    quads, the others are what the resized array held. *)
Lemma doUpdate_result dataIds nodeOffsets nodeSizes s :
  Z.of_nat (length dataIds) * 6 < 2 ^ 32 ->
  0 <= capacity <= 2 ^ 20 ->
  Forall (fun dataId =>
            0 <= dataId < capacity /\
            is_Some (quadOf s nodeOffsets nodeSizes dataId)) dataIds ->
  exists vertices',
    doUpdate dataIds nodeOffsets nodeSizes s =
    Some {| data := data s; vertices := vertices';
            indices := flat_map expectedQuadIndices dataIds |} /\
    Z.of_nat (length vertices') = 4 * capacity /\
    (forall dataId d offset size i,
       In dataId dataIds ->
       quadOf s nodeOffsets nodeSizes dataId = Some (d, offset, size) ->
       0 <= i < 4 ->
       vertices' !! Z.to_nat (4 * dataId + i) =
       Some (quadVertex d offset size i)) /\
    (forall j, ~ In (Z.of_nat j / 4) dataIds ->
       vertices' !! j =
       arrayResize uninitializedVertex (vertices s) (capacity * 4) !! j).
Proof.
  intros Hcount Hcap Hids.
  change (2 ^ 32) with 4294967296 in Hcount.
  change (2 ^ 20) with 1048576 in Hcap.
  unfold doUpdate.
  rewrite (u64_id (Z.of_nat (length dataIds) * 6)) by lia.
  rewrite (u64_id (capacity * 4)) by lia.
  pose proof (arrayResize_length uninitializedIndex (indices s)
                (Z.of_nat (length dataIds) * 6)) as Hil.
  pose proof (arrayResize_length uninitializedVertex (vertices s)
                (capacity * 4)) as Hvl.
  rewrite <- (app_nil_l (arrayResize uninitializedIndex _ _)).
  rewrite (fillIndices_app dataIds 0 []); [| reflexivity | lia | lia |].
  2:{ eapply List.Forall_impl; [| exact Hids]. simpl. intros dataId [Hd _]. lia. }
  cbn [mbind option_bind app].
  destruct (fillVertices_spec s nodeOffsets nodeSizes dataIds
              (arrayResize uninitializedVertex (vertices s) (capacity * 4)))
    as (vertices' & Hfill & Hlen & Hquads & Hframe).
  { eapply List.Forall_impl; [| exact Hids]. simpl. intros dataId [Hd Hq].
    repeat split; try lia. exact Hq. }
  rewrite Hfill. cbn [mbind option_bind].
  exists vertices'. split; [reflexivity |]. split; [lia |].
  split; [exact Hquads | exact Hframe].
Qed.

(** Every index [doUpdate()] writes refers to a vertex of the vertex
    array it leaves: with [dataIds] below [capacity()], all of the
    6 * |dataIds| indices are below 4 * [capacity()], the size of the
    vertex array. *)
Theorem doUpdate_indices_in_range dataIds nodeOffsets nodeSizes s :
  Z.of_nat (length dataIds) * 6 < 2 ^ 32 ->
  0 <= capacity <= 2 ^ 20 ->
  Forall (fun dataId =>
            0 <= dataId < capacity /\
            is_Some (quadOf s nodeOffsets nodeSizes dataId)) dataIds ->
  exists s',
    doUpdate dataIds nodeOffsets nodeSizes s = Some s' /\
    Forall (fun index => 0 <= index < Z.of_nat (length (vertices s')))
      (indices s').
Proof.
  intros Hcount Hcap Hids.
  destruct (doUpdate_result dataIds nodeOffsets nodeSizes s Hcount Hcap Hids)
    as (vertices' & Hupdate & Hlen & _).
  eexists. split; [exact Hupdate |]. simpl. rewrite Hlen.
  clear Hupdate Hcount. induction Hids as [| dataId rest [Hd _] _ IH]; simpl.
  - constructor.
  - repeat (apply List.Forall_cons; [lia |]). exact IH.
Qed.

(** [doUpdate()] is idempotent: run again with the same data ids and node
    offsets and sizes on the state it has produced, it returns that
    state. *)
Theorem doUpdate_idempotent dataIds nodeOffsets nodeSizes s s' :
  Z.of_nat (length dataIds) * 6 < 2 ^ 32 ->
  0 <= capacity <= 2 ^ 20 ->
  Forall (fun dataId =>
            0 <= dataId < capacity /\
            is_Some (quadOf s nodeOffsets nodeSizes dataId)) dataIds ->
  doUpdate dataIds nodeOffsets nodeSizes s = Some s' ->
  doUpdate dataIds nodeOffsets nodeSizes s' = Some s'.
Proof.
  intros Hcount Hcap Hids Hfirst.
  destruct (doUpdate_result dataIds nodeOffsets nodeSizes s Hcount Hcap Hids)
    as (vertices1 & Hupdate & Hlen1 & Hquads1 & _).
  rewrite Hupdate in Hfirst. injection Hfirst as <-.
  set (s1 := {| data := data s; vertices := vertices1;
                indices := flat_map expectedQuadIndices dataIds |}).
  assert (Hq : forall dataId,
            quadOf s1 nodeOffsets nodeSizes dataId =
            quadOf s nodeOffsets nodeSizes dataId)
    by (intros dataId; apply quadOf_data; reflexivity).
  assert (Hids1 : Forall (fun dataId =>
                            0 <= dataId < capacity /\
                            is_Some (quadOf s1 nodeOffsets nodeSizes dataId))
                    dataIds).
  { eapply List.Forall_impl; [| exact Hids]. simpl. intros dataId [Hd Hs].
    rewrite Hq. split; assumption. }
  destruct (doUpdate_result dataIds nodeOffsets nodeSizes s1 Hcount Hcap Hids1)
    as (vertices2 & Hupdate2 & Hlen2 & Hquads2 & Hframe2).
  rewrite Hupdate2. unfold s1 at 2. simpl. do 2 f_equal.
  apply list_eq. intros j.
  destruct (in_dec Z.eq_dec (Z.of_nat j / 4) dataIds) as [Hin | Hnotin].
  - destruct (proj1 (List.Forall_forall _ _) Hids _ Hin)
      as [Hd [[[d offset] size] Hquad]].
    assert (Hj : j = Z.to_nat (4 * (Z.of_nat j / 4) + Z.of_nat j mod 4)).
    { pose proof (Z.div_mod (Z.of_nat j) 4). lia. }
    assert (Hm : 0 <= Z.of_nat j mod 4 < 4) by (apply Z.mod_pos_bound; lia).
    rewrite Hj.
    rewrite (Hquads1 _ d offset size _ Hin Hquad Hm).
    apply (Hquads2 _ d offset size _ Hin); [rewrite Hq; exact Hquad | exact Hm].
  - rewrite (Hframe2 j Hnotin). simpl.
    rewrite arrayResize_same by lia. reflexivity.
Qed.

(** *** Styles, setters and pointer events *)

(** What the [AbstractLayer] base provides besides: [setNeedsUpdate()],
    [isHandleValid()] and [create()], which registers a data for a node and
    gives its handle.  [uninitializedData] is what
    [arrayAppend(..., NoInit, ...)] leaves in new elements. *)
Variable Base : Type.
Variable setNeedsUpdate : Base -> Base.
Variable isHandleValid : Base -> Z -> bool.
Variable AbstractLayer_create : Z -> Base -> option (Base * Z).
Variable uninitializedData : BaseLayerData.t Float.

(** Modelled from the spec: the pointer types of Whee/Event.h, which is
    missing.  BaseLayer.cpp names three of them. *)
Variable Pointer : Type.
Context `{EqDecision Pointer}.
Variable MouseLeft : Pointer.
Variable Finger : Pointer.
Variable Pen : Pointer.

(** Modelled from the spec: the events of Whee/Event.h, which is missing,
    with the members BaseLayer.cpp calls. *)
Record PointerEvent : Type := {
  type : Pointer;
  isHovering : bool;
  isAccepted : bool
}.

Record PointerMoveEvent : Type := {
  isCaptured : bool;
  isMoveAccepted : bool
}.

(** [event.setAccepted()] *)
Definition setAccepted (event : PointerEvent) : PointerEvent :=
  {| type := type event; isHovering := isHovering event; isAccepted := true |}.

Definition setMoveAccepted (event : PointerMoveEvent) : PointerMoveEvent :=
  {| isCaptured := isCaptured event; isMoveAccepted := true |}.

(** [Implementation::styleTransitionPassthrough()]
    (Whee/Implementation/abstractVisualLayerState.h) *)
Definition styleTransitionPassthrough (index : Z) : Z := index.

(** Modelled from the spec: [BaseLayer::Shared::State] of
    Whee/Implementation/baseLayerState.h, which is missing; the fields are
    the ones BaseLayer.cpp reads and writes. *)
Record SharedState : Type := {
  styleCount : Z;
  styleTransitionToPressedBlur : Z -> Z;
  styleTransitionToPressedHover : Z -> Z;
  styleTransitionToInactiveBlur : Z -> Z;
  styleTransitionToInactiveHover : Z -> Z
}.

(** [BaseLayer::Shared::setStyleTransition()]; a null function pointer is
    [None]. *)
Definition setStyleTransition
    (toPressedBlur toPressedHover toInactiveBlur toInactiveHover
       : option (Z -> Z))
    (shared : SharedState) : SharedState :=
  {| styleCount := styleCount shared;
     styleTransitionToPressedBlur :=
       match toPressedBlur with
       | Some transition => transition
       | None => styleTransitionPassthrough
       end;
     styleTransitionToPressedHover :=
       match toPressedHover with
       | Some transition => transition
       | None => styleTransitionPassthrough
       end;
     styleTransitionToInactiveBlur :=
       match toInactiveBlur with
       | Some transition => transition
       | None => styleTransitionPassthrough
       end;
     styleTransitionToInactiveHover :=
       match toInactiveHover with
       | Some transition => transition
       | None => styleTransitionPassthrough
       end |}.

(** A layer: the base object, the shared state it refers to, and
    [*_state]. *)
Record Layer : Type := {
  base : Base;
  shared : SharedState;
  state : State
}.

Definition withData (layer : Layer) (value : list (BaseLayerData.t Float))
    : Layer :=
  {| base := base layer; shared := shared layer;
     state := {| data := value; vertices := vertices (state layer);
                 indices := indices (state layer) |} |}.

Definition withStyle (d : BaseLayerData.t Float) (value : Z)
    : BaseLayerData.t Float :=
  {| BaseLayerData.outlineWidth := BaseLayerData.outlineWidth d;
     BaseLayerData.color := BaseLayerData.color d;
     BaseLayerData.style := value |}.

Definition withColor (d : BaseLayerData.t Float)
    (value : Float * Float * Float) : BaseLayerData.t Float :=
  {| BaseLayerData.outlineWidth := BaseLayerData.outlineWidth d;
     BaseLayerData.color := value;
     BaseLayerData.style := BaseLayerData.style d |}.

Definition withOutlineWidth (d : BaseLayerData.t Float)
    (value : Float * Float * Float * Float) : BaseLayerData.t Float :=
  {| BaseLayerData.outlineWidth := value;
     BaseLayerData.color := BaseLayerData.color d;
     BaseLayerData.style := BaseLayerData.style d |}.

(** [_state->data[id].field = value; setNeedsUpdate()], the body of
    [setStyleInternal()], [setColorInternal()] and
    [setOutlineWidthInternal()]. *)
Definition setInternal (id : Z)
    (set : BaseLayerData.t Float -> BaseLayerData.t Float) (layer : Layer)
    : option Layer :=
  d ← at_ (data (state layer)) id;
  data' ← assign (data (state layer)) id (set d);
  Some {| base := setNeedsUpdate (base layer); shared := shared layer;
          state := {| data := data'; vertices := vertices (state layer);
                      indices := indices (state layer) |} |}.

Definition setStyleInternal (id style : Z) (layer : Layer) : option Layer :=
  setInternal id (fun d => withStyle d style) layer.

Definition setColorInternal (id : Z) (color : Float * Float * Float)
    (layer : Layer) : option Layer :=
  setInternal id (fun d => withColor d color) layer.

Definition setOutlineWidthInternal (id : Z)
    (width : Float * Float * Float * Float) (layer : Layer) : option Layer :=
  setInternal id (fun d => withOutlineWidth d width) layer.

(** [BaseLayer::setStyle()], [setColor()] and [setOutlineWidth()]; a
    [DataHandle] and a [LayerDataHandle] keep the data id in the same
    bits. *)
Definition setStyle (handle style : Z) (layer : Layer) : option Layer :=
  if negb (isHandleValid (base layer) handle) then None
  else if negb (style <? styleCount (shared layer)) then None
  else setStyleInternal (Handle.dataHandleId handle) style layer.

Definition setColor (handle : Z) (color : Float * Float * Float)
    (layer : Layer) : option Layer :=
  if negb (isHandleValid (base layer) handle) then None
  else setColorInternal (Handle.dataHandleId handle) color layer.

Definition setOutlineWidth (handle : Z)
    (width : Float * Float * Float * Float) (layer : Layer) : option Layer :=
  if negb (isHandleValid (base layer) handle) then None
  else setOutlineWidthInternal (Handle.dataHandleId handle) width layer.

(** [if(id >= _state->data.size()) arrayAppend(_state->data, NoInit,
    id - _state->data.size() + 1)] *)
Definition growTo (id : Z) (array : list (BaseLayerData.t Float))
    : list (BaseLayerData.t Float) :=
  if Z.of_nat (length array) <=? id
  then array ++
       replicate (Z.to_nat (u64 (id - Z.of_nat (length array) + 1)))
         uninitializedData
  else array.

(** [BaseLayer::create()] *)
Definition create (style : Z) (color : Float * Float * Float)
    (outlineWidth : Float * Float * Float * Float) (node : Z) (layer : Layer)
    : option (Layer * Z) :=
  if negb (style <? styleCount (shared layer)) then None
  else
    '(b, handle) ← AbstractLayer_create node (base layer);
    let id := Handle.dataHandleId handle in
    data' ← assign (growTo id (data (state layer))) id
              {| BaseLayerData.outlineWidth := outlineWidth;
                 BaseLayerData.color := color;
                 BaseLayerData.style := style |};
    Some ({| base := b; shared := shared layer;
             state := {| data := data'; vertices := vertices (state layer);
                         indices := indices (state layer) |} |}, handle).

(** What the four pointer event functions do once they have chosen a
    transition: the style the transition gives for the style of the data
    has to be in range, and is stored, with a [setNeedsUpdate()], if it is
    a different one. *)
Definition transitionStyle (transition : Z -> Z) (dataId : Z) (layer : Layer)
    : option Layer :=
  d ← at_ (data (state layer)) dataId;
  let nextStyle := u32 (transition (BaseLayerData.style d)) in
  if negb (nextStyle <? styleCount (shared layer)) then None
  else if negb (nextStyle =? BaseLayerData.style d)
       then
         data' ← assign (data (state layer)) dataId (withStyle d nextStyle);
         Some {| base := setNeedsUpdate (base layer); shared := shared layer;
                 state := {| data := data'; vertices := vertices (state layer);
                             indices := indices (state layer) |} |}
       else Some layer.

(** The pointer types a press and a release react to. *)
Definition reacts (pointer : Pointer) : bool :=
  negb (bool_decide (pointer <> MouseLeft) &&
        bool_decide (pointer <> Finger) &&
        bool_decide (pointer <> Pen)).

(** [BaseLayer::doPointerPressEvent()] *)
Definition doPointerPressEvent (dataId : Z) (event : PointerEvent)
    (layer : Layer) : option (Layer * PointerEvent) :=
  if bool_decide (type event <> MouseLeft) &&
     bool_decide (type event <> Finger) &&
     bool_decide (type event <> Pen)
  then Some (layer, event)
  else
    let transition :=
      if isHovering event
      then styleTransitionToPressedHover (shared layer)
      else styleTransitionToPressedBlur (shared layer) in
    layer' ← transitionStyle transition dataId layer;
    Some (layer', setAccepted event).

(** [BaseLayer::doPointerReleaseEvent()] *)
Definition doPointerReleaseEvent (dataId : Z) (event : PointerEvent)
    (layer : Layer) : option (Layer * PointerEvent) :=
  if bool_decide (type event <> MouseLeft) &&
     bool_decide (type event <> Finger) &&
     bool_decide (type event <> Pen)
  then Some (layer, event)
  else
    let transition :=
      if isHovering event
      then styleTransitionToInactiveHover (shared layer)
      else styleTransitionToInactiveBlur (shared layer) in
    layer' ← transitionStyle transition dataId layer;
    Some (layer', setAccepted event).

(** [BaseLayer::doPointerMoveEvent()] *)
Definition doPointerMoveEvent (dataId : Z) (event : PointerMoveEvent)
    (layer : Layer) : option (Layer * PointerMoveEvent) :=
  Some (layer, setMoveAccepted event).

(** [BaseLayer::doPointerEnterEvent()] *)
Definition doPointerEnterEvent (dataId : Z) (event : PointerMoveEvent)
    (layer : Layer) : option (Layer * PointerMoveEvent) :=
  let transition :=
    if isCaptured event
    then styleTransitionToPressedHover (shared layer)
    else styleTransitionToInactiveHover (shared layer) in
  layer' ← transitionStyle transition dataId layer;
  Some (layer', event).

(** [BaseLayer::doPointerLeaveEvent()] *)
Definition doPointerLeaveEvent (dataId : Z) (event : PointerMoveEvent)
    (layer : Layer) : option (Layer * PointerMoveEvent) :=
  let transition :=
    if isCaptured event
    then styleTransitionToPressedBlur (shared layer)
    else styleTransitionToInactiveBlur (shared layer) in
  layer' ← transitionStyle transition dataId layer;
  Some (layer', event).

(** *** Properties of the pointer events *)

(** What a pointer event may do to a layer: the style of the data it is
    for is in range afterwards, and nothing but that style differs from
    before. *)
Definition restyled (dataId : Z) (layer layer' : Layer) : Prop :=
  shared layer' = shared layer /\
  vertices (state layer') = vertices (state layer) /\
  indices (state layer') = indices (state layer) /\
  length (data (state layer')) = length (data (state layer)) /\
  (forall j, j <> Z.to_nat dataId ->
     data (state layer') !! j = data (state layer) !! j) /\
  exists d d',
    data (state layer) !! Z.to_nat dataId = Some d /\
    data (state layer') !! Z.to_nat dataId = Some d' /\
    BaseLayerData.outlineWidth d' = BaseLayerData.outlineWidth d /\
    BaseLayerData.color d' = BaseLayerData.color d /\
    0 <= BaseLayerData.style d' < styleCount (shared layer).

(** The style of a data, if there is one. *)
Definition styleOf (dataId : Z) (layer : Layer) : option Z :=
  BaseLayerData.style <$> data (state layer) !! Z.to_nat dataId.

Lemma reacts_iff pointer :
  reacts pointer = true <->
  pointer = MouseLeft \/ pointer = Finger \/ pointer = Pen.
Proof.
  unfold reacts.
  destruct (decide (pointer = MouseLeft)) as [-> | H1].
  { rewrite bool_decide_eq_false_2 by tauto. simpl. tauto. }
  destruct (decide (pointer = Finger)) as [-> | H2].
  { rewrite (bool_decide_eq_false_2 (Finger <> Finger)) by tauto.
    rewrite andb_false_r. simpl. tauto. }
  destruct (decide (pointer = Pen)) as [-> | H3].
  { rewrite (bool_decide_eq_false_2 (Pen <> Pen)) by tauto.
    rewrite andb_false_r. simpl. tauto. }
  rewrite !bool_decide_eq_true_2 by assumption. simpl.
  split; [discriminate | tauto].
Qed.

Lemma u32_nonneg x : 0 <= u32 x.
Proof. unfold u32. apply Z.mod_pos_bound. reflexivity. Qed.

Lemma transitionStyle_inv transition dataId layer layer' :
  transitionStyle transition dataId layer = Some layer' ->
  exists d,
    at_ (data (state layer)) dataId = Some d /\
    u32 (transition (BaseLayerData.style d)) < styleCount (shared layer) /\
    ((u32 (transition (BaseLayerData.style d)) = BaseLayerData.style d /\
      layer' = layer) \/
     (u32 (transition (BaseLayerData.style d)) <> BaseLayerData.style d /\
      layer' =
        {| base := setNeedsUpdate (base layer); shared := shared layer;
           state :=
             {| data := <[Z.to_nat dataId :=
                            withStyle d
                              (u32 (transition (BaseLayerData.style d)))]>
                          (data (state layer));
                vertices := vertices (state layer);
                indices := indices (state layer) |} |})).
Proof.
  unfold transitionStyle. intros H.
  destruct (at_ (data (state layer)) dataId) as [d |] eqn:Hd; simpl in H;
    [| discriminate].
  exists d. split; [reflexivity |].
  destruct (Z.ltb_spec (u32 (transition (BaseLayerData.style d)))
              (styleCount (shared layer))) as [Hlt | Hge];
    simpl in H; [| discriminate].
  split; [exact Hlt |].
  destruct (Z.eqb_spec (u32 (transition (BaseLayerData.style d)))
              (BaseLayerData.style d)) as [Heq | Hne]; simpl in H.
  - left. injection H as <-. split; [exact Heq | reflexivity].
  - right. destruct (at_Some _ _ _ Hd) as [Hrange _].
    rewrite assign_in_range in H by exact Hrange. simpl in H.
    injection H as <-. split; [exact Hne | reflexivity].
Qed.

Lemma transitionStyle_restyled transition dataId layer layer' :
  transitionStyle transition dataId layer = Some layer' ->
  restyled dataId layer layer'.
Proof.
  intros H. destruct (transitionStyle_inv _ _ _ _ H)
    as (d & Hd & Hlt & [[Heq ->] | [Hne ->]]);
    destruct (at_Some _ _ _ Hd) as [Hrange Hlookup];
    pose proof (u32_nonneg (transition (BaseLayerData.style d))) as Hnn;
    unfold restyled; simpl.
  - do 5 (split; [reflexivity |]).
    exists d, d. repeat split; try assumption; lia.
  - do 3 (split; [reflexivity |]).
    split; [apply length_insert |].
    split; [intros j Hj; apply list_lookup_insert_ne; congruence |].
    exists d, (withStyle d (u32 (transition (BaseLayerData.style d)))).
    split; [exact Hlookup |].
    split; [apply list_lookup_insert_eq; lia |].
    repeat split; simpl; lia.
Qed.

Lemma transitionStyle_update transition dataId layer layer' :
  transitionStyle transition dataId layer = Some layer' ->
  layer' = layer \/
  (base layer' = setNeedsUpdate (base layer) /\
   styleOf dataId layer' <> styleOf dataId layer).
Proof.
  intros H. destruct (transitionStyle_inv _ _ _ _ H)
    as (d & Hd & Hlt & [[Heq ->] | [Hne ->]]); [left; reflexivity | right].
  destruct (at_Some _ _ _ Hd) as [Hrange Hlookup].
  split; [reflexivity |]. unfold styleOf. simpl.
  rewrite list_lookup_insert_eq by lia. rewrite Hlookup. simpl. congruence.
Qed.

(** Whatever the style transitions are, a pointer event that is handled
    leaves the style of its data below the style count, and changes
    nothing else: not the shared state, not the vertices and indices, not
    the other data, and not the outline width and color of the data. *)
Theorem pointer_events_keep_style_in_range dataId layer layer' :
  (forall event event',
     reacts (type event) = true ->
     doPointerPressEvent dataId event layer = Some (layer', event') ->
     restyled dataId layer layer') /\
  (forall event event',
     reacts (type event) = true ->
     doPointerReleaseEvent dataId event layer = Some (layer', event') ->
     restyled dataId layer layer') /\
  (forall event event',
     doPointerEnterEvent dataId event layer = Some (layer', event') ->
     restyled dataId layer layer') /\
  (forall event event',
     doPointerLeaveEvent dataId event layer = Some (layer', event') ->
     restyled dataId layer layer').
Proof.
  split; [| split; [| split]].
  - intros event event' Hr H. unfold doPointerPressEvent in H.
    unfold reacts in Hr. apply negb_true_iff in Hr. rewrite Hr in H.
    destruct (transitionStyle _ dataId layer) as [layer1 |] eqn:Ht;
      simpl in H; [| discriminate].
    injection H as <- <-. exact (transitionStyle_restyled _ _ _ _ Ht).
  - intros event event' Hr H. unfold doPointerReleaseEvent in H.
    unfold reacts in Hr. apply negb_true_iff in Hr. rewrite Hr in H.
    destruct (transitionStyle _ dataId layer) as [layer1 |] eqn:Ht;
      simpl in H; [| discriminate].
    injection H as <- <-. exact (transitionStyle_restyled _ _ _ _ Ht).
  - intros event event' H. unfold doPointerEnterEvent in H.
    destruct (transitionStyle _ dataId layer) as [layer1 |] eqn:Ht;
      simpl in H; [| discriminate].
    injection H as <- <-. exact (transitionStyle_restyled _ _ _ _ Ht).
  - intros event event' H. unfold doPointerLeaveEvent in H.
    destruct (transitionStyle _ dataId layer) as [layer1 |] eqn:Ht;
      simpl in H; [| discriminate].
    injection H as <- <-. exact (transitionStyle_restyled _ _ _ _ Ht).
Qed.

(** A pointer event asks for an update exactly when it changes a style:
    after each of the four event functions the layer is either what it
    was, base object included, or [setNeedsUpdate()] was called and the
    style of the data differs from before. *)
Theorem pointer_events_update_iff_restyled dataId layer layer' :
  (forall event event',
     doPointerPressEvent dataId event layer = Some (layer', event') ->
     layer' = layer \/
     (base layer' = setNeedsUpdate (base layer) /\
      styleOf dataId layer' <> styleOf dataId layer)) /\
  (forall event event',
     doPointerReleaseEvent dataId event layer = Some (layer', event') ->
     layer' = layer \/
     (base layer' = setNeedsUpdate (base layer) /\
      styleOf dataId layer' <> styleOf dataId layer)) /\
  (forall event event',
     doPointerEnterEvent dataId event layer = Some (layer', event') ->
     layer' = layer \/
     (base layer' = setNeedsUpdate (base layer) /\
      styleOf dataId layer' <> styleOf dataId layer)) /\
  (forall event event',
     doPointerLeaveEvent dataId event layer = Some (layer', event') ->
     layer' = layer \/
     (base layer' = setNeedsUpdate (base layer) /\
      styleOf dataId layer' <> styleOf dataId layer)).
Proof.
  split; [| split; [| split]].
  - intros event event' H. unfold doPointerPressEvent in H.
    destruct (_ && _) in H; [injection H as <- <-; left; reflexivity |].
    destruct (transitionStyle _ dataId layer) as [layer1 |] eqn:Ht;
      simpl in H; [| discriminate].
    injection H as <- <-. exact (transitionStyle_update _ _ _ _ Ht).
  - intros event event' H. unfold doPointerReleaseEvent in H.
    destruct (_ && _) in H; [injection H as <- <-; left; reflexivity |].
    destruct (transitionStyle _ dataId layer) as [layer1 |] eqn:Ht;
      simpl in H; [| discriminate].
    injection H as <- <-. exact (transitionStyle_update _ _ _ _ Ht).
  - intros event event' H. unfold doPointerEnterEvent in H.
    destruct (transitionStyle _ dataId layer) as [layer1 |] eqn:Ht;
      simpl in H; [| discriminate].
    injection H as <- <-. exact (transitionStyle_update _ _ _ _ Ht).
  - intros event event' H. unfold doPointerLeaveEvent in H.
    destruct (transitionStyle _ dataId layer) as [layer1 |] eqn:Ht;
      simpl in H; [| discriminate].
    injection H as <- <-. exact (transitionStyle_update _ _ _ _ Ht).
Qed.

(** Which events are accepted.  A press and a release are accepted when
    the pointer is the left mouse button, a finger or a pen; with any
    other pointer they return at once, leaving the layer and the event as
    they are, whatever the data id.  A move is always accepted and changes
    nothing in the layer.  An enter and a leave never touch the
    acceptance. *)
Theorem pointer_events_acceptance dataId layer :
  (forall event layer' event',
     doPointerPressEvent dataId event layer = Some (layer', event') ->
     event' = (if reacts (type event) then setAccepted event else event)) /\
  (forall event layer' event',
     doPointerReleaseEvent dataId event layer = Some (layer', event') ->
     event' = (if reacts (type event) then setAccepted event else event)) /\
  (forall event,
     type event <> MouseLeft -> type event <> Finger -> type event <> Pen ->
     doPointerPressEvent dataId event layer = Some (layer, event) /\
     doPointerReleaseEvent dataId event layer = Some (layer, event)) /\
  (forall event,
     doPointerMoveEvent dataId event layer =
     Some (layer, setMoveAccepted event)) /\
  (forall event layer' event',
     doPointerEnterEvent dataId event layer = Some (layer', event') ->
     event' = event) /\
  (forall event layer' event',
     doPointerLeaveEvent dataId event layer = Some (layer', event') ->
     event' = event).
Proof.
  split; [| split; [| split; [| split; [| split]]]].
  - intros event layer' event' H.
    unfold doPointerPressEvent in H. unfold reacts.
    destruct (_ && _) in H |- *; simpl;
      [injection H as <- <-; reflexivity |].
    destruct (transitionStyle _ dataId layer); simpl in H; [| discriminate].
    injection H as <- <-. reflexivity.
  - intros event layer' event' H.
    unfold doPointerReleaseEvent in H. unfold reacts.
    destruct (_ && _) in H |- *; simpl;
      [injection H as <- <-; reflexivity |].
    destruct (transitionStyle _ dataId layer); simpl in H; [| discriminate].
    injection H as <- <-. reflexivity.
  - intros event H1 H2 H3.
    unfold doPointerPressEvent, doPointerReleaseEvent.
    rewrite !bool_decide_eq_true_2 by assumption. split; reflexivity.
  - reflexivity.
  - intros event layer' event' H. unfold doPointerEnterEvent in H.
    destruct (transitionStyle _ dataId layer); simpl in H; [| discriminate].
    injection H as <- <-. reflexivity.
  - intros event layer' event' H. unfold doPointerLeaveEvent in H.
    destruct (transitionStyle _ dataId layer); simpl in H; [| discriminate].
    injection H as <- <-. reflexivity.
Qed.

Lemma transitionStyle_passthrough dataId layer d :
  at_ (data (state layer)) dataId = Some d ->
  0 <= BaseLayerData.style d < styleCount (shared layer) ->
  styleCount (shared layer) <= 2 ^ 32 ->
  transitionStyle styleTransitionPassthrough dataId layer = Some layer.
Proof.
  intros Hd Hstyle Hcount. unfold transitionStyle, styleTransitionPassthrough.
  rewrite Hd. simpl. rewrite u32_small by lia.
  destruct (Z.ltb_spec (BaseLayerData.style d) (styleCount (shared layer)));
    [| lia].
  rewrite Z.eqb_refl. reflexivity.
Qed.

(** After [setStyleTransition()] with four null pointers every transition
    is the identity: the four event functions then leave a layer whose
    data has a style in range exactly as it is, without asking for an
    update, and a press and a release still accept the event. *)
Theorem passthrough_events_change_nothing dataId layer d previous :
  shared layer = setStyleTransition None None None None previous ->
  styleCount previous <= 2 ^ 32 ->
  at_ (data (state layer)) dataId = Some d ->
  0 <= BaseLayerData.style d < styleCount previous ->
  (forall event,
     doPointerPressEvent dataId event layer =
     Some (layer, if reacts (type event) then setAccepted event else event)) /\
  (forall event,
     doPointerReleaseEvent dataId event layer =
     Some (layer, if reacts (type event) then setAccepted event else event)) /\
  (forall event, doPointerEnterEvent dataId event layer = Some (layer, event)) /\
  (forall event, doPointerLeaveEvent dataId event layer = Some (layer, event)).
Proof.
  intros Hshared Hcount Hd Hstyle.
  assert (Hpass : transitionStyle styleTransitionPassthrough dataId layer =
                  Some layer).
  { apply (transitionStyle_passthrough dataId layer d Hd);
      rewrite Hshared; simpl; assumption. }
  split; [| split; [| split]]; intros event.
  - unfold doPointerPressEvent, reacts. rewrite Hshared. simpl.
    destruct (_ && _); simpl; [reflexivity |].
    destruct (isHovering event); rewrite Hpass; reflexivity.
  - unfold doPointerReleaseEvent, reacts. rewrite Hshared. simpl.
    destruct (_ && _); simpl; [reflexivity |].
    destruct (isHovering event); rewrite Hpass; reflexivity.
  - unfold doPointerEnterEvent. rewrite Hshared. simpl.
    destruct (isCaptured event); rewrite Hpass; reflexivity.
  - unfold doPointerLeaveEvent. rewrite Hshared. simpl.
    destruct (isCaptured event); rewrite Hpass; reflexivity.
Qed.

(** *** Properties of the setters and of [create()] *)

Lemma setInternal_spec id set layer d :
  at_ (data (state layer)) id = Some d ->
  setInternal id set layer =
  Some {| base := setNeedsUpdate (base layer); shared := shared layer;
          state := {| data := <[Z.to_nat id := set d]> (data (state layer));
                      vertices := vertices (state layer);
                      indices := indices (state layer) |} |}.
Proof.
  intros Hd. unfold setInternal. rewrite Hd. simpl.
  destruct (at_Some _ _ _ Hd) as [Hrange _].
  rewrite assign_in_range by exact Hrange. reflexivity.
Qed.

(** What a setter does to a layer: it asks for an update and replaces the
    record of one data; the shared state, the other data, the vertices and
    the indices stay. *)
Definition replaced (id : Z) (d' : BaseLayerData.t Float)
    (layer layer' : Layer) : Prop :=
  base layer' = setNeedsUpdate (base layer) /\
  shared layer' = shared layer /\
  vertices (state layer') = vertices (state layer) /\
  indices (state layer') = indices (state layer) /\
  length (data (state layer')) = length (data (state layer)) /\
  data (state layer') !! Z.to_nat id = Some d' /\
  forall j, j <> Z.to_nat id ->
    data (state layer') !! j = data (state layer) !! j.

Lemma setInternal_replaced id set layer d :
  at_ (data (state layer)) id = Some d ->
  exists layer',
    setInternal id set layer = Some layer' /\ replaced id (set d) layer layer'.
Proof.
  intros Hd. rewrite (setInternal_spec id set layer d Hd).
  destruct (at_Some _ _ _ Hd) as [Hrange _].
  eexists. split; [reflexivity |]. unfold replaced. simpl.
  do 4 (split; [reflexivity |]). split; [apply length_insert |].
  split; [apply list_lookup_insert_eq; lia |].
  intros j Hj. apply list_lookup_insert_ne. congruence.
Qed.

(** [setStyle()], [setColor()] and [setOutlineWidth()] with a valid handle
    of a data the layer has change that one field of that one data and ask
    for an update: the two other fields, the other data, the shared state,
    the vertices and the indices stay.  [setStyle()] with a style that is
    not below the style count, and any of the three with an invalid
    handle, fail an assertion. *)
Theorem setters_set_one_field handle layer :
  (forall d, isHandleValid (base layer) handle = true ->
     at_ (data (state layer)) (Handle.dataHandleId handle) = Some d ->
     (forall style, style < styleCount (shared layer) ->
        exists layer',
          setStyle handle style layer = Some layer' /\
          replaced (Handle.dataHandleId handle)
            {| BaseLayerData.outlineWidth := BaseLayerData.outlineWidth d;
               BaseLayerData.color := BaseLayerData.color d;
               BaseLayerData.style := style |} layer layer') /\
     (forall color, exists layer',
          setColor handle color layer = Some layer' /\
          replaced (Handle.dataHandleId handle)
            {| BaseLayerData.outlineWidth := BaseLayerData.outlineWidth d;
               BaseLayerData.color := color;
               BaseLayerData.style := BaseLayerData.style d |} layer layer') /\
     (forall width, exists layer',
          setOutlineWidth handle width layer = Some layer' /\
          replaced (Handle.dataHandleId handle)
            {| BaseLayerData.outlineWidth := width;
               BaseLayerData.color := BaseLayerData.color d;
               BaseLayerData.style := BaseLayerData.style d |} layer layer')) /\
  (forall style, styleCount (shared layer) <= style ->
     setStyle handle style layer = None) /\
  (isHandleValid (base layer) handle = false ->
   (forall style, setStyle handle style layer = None) /\
   (forall color, setColor handle color layer = None) /\
   (forall width, setOutlineWidth handle width layer = None)).
Proof.
  split; [| split].
  - intros d Hvalid Hd. split; [| split].
    + intros style Hstyle. unfold setStyle, setStyleInternal.
      rewrite Hvalid. simpl.
      destruct (Z.ltb_spec style (styleCount (shared layer))); [| lia].
      simpl. apply (setInternal_replaced _ (fun d => withStyle d style) _ d Hd).
    + intros color. unfold setColor, setColorInternal. rewrite Hvalid. simpl.
      apply (setInternal_replaced _ (fun d => withColor d color) _ d Hd).
    + intros width. unfold setOutlineWidth, setOutlineWidthInternal.
      rewrite Hvalid. simpl.
      apply (setInternal_replaced _ (fun d => withOutlineWidth d width) _ d Hd).
  - intros style Hstyle. unfold setStyle.
    destruct (isHandleValid (base layer) handle); [| reflexivity]. simpl.
    destruct (Z.ltb_spec style (styleCount (shared layer))); [lia |].
    reflexivity.
  - intros Hinvalid. unfold setStyle, setColor, setOutlineWidth.
    rewrite Hinvalid. repeat split.
Qed.

Lemma growTo_covers id array :
  0 <= id < 2 ^ 20 ->
  0 <= id < Z.of_nat (length (growTo id array)) /\
  length (growTo id array) = Nat.max (length array) (S (Z.to_nat id)) /\
  (forall j, (j < length array)%nat -> growTo id array !! j = array !! j).
Proof.
  intros Hid. change (2 ^ 20) with 1048576 in Hid. unfold growTo.
  destruct (Z.leb_spec (Z.of_nat (length array)) id) as [Hle | Hgt].
  - rewrite u64_small
      by (change (2 ^ 64) with 18446744073709551616; lia).
    split; [rewrite length_app, length_replicate; lia |].
    split; [rewrite length_app, length_replicate; lia |].
    intros j Hj. apply lookup_app_l. exact Hj.
  - split; [lia |]. split; [lia | reflexivity].
Qed.

Lemma dataHandleId_bounds handle : 0 <= Handle.dataHandleId handle < 2 ^ 20.
Proof.
  unfold Handle.dataHandleId, Handle.layerDataHandleId, Handle.extractId,
    Handle.LayerDataHandleIdBits.
  rewrite Handle.shiftl_1_ones by lia. rewrite Z.land_ones by lia.
  apply Z.mod_pos_bound. lia.
Qed.

(** [create()] with a style below the style count registers the data
    with the base and returns its handle; the data array then covers the
    id of the handle, the record at that id holds the given outline width,
    color and style, and the records of all other data the array held are
    what they were, as are the shared state, the vertices and the indices.
    With a style that is out of range it fails an assertion whatever the
    base would do. *)
Theorem create_stores_data style color outlineWidth node layer :
  (forall b handle,
     style < styleCount (shared layer) ->
     AbstractLayer_create node (base layer) = Some (b, handle) ->
     let id := Z.to_nat (Handle.dataHandleId handle) in
     exists layer',
       create style color outlineWidth node layer = Some (layer', handle) /\
       base layer' = b /\
       shared layer' = shared layer /\
       vertices (state layer') = vertices (state layer) /\
       indices (state layer') = indices (state layer) /\
       data (state layer') !! id =
         Some {| BaseLayerData.outlineWidth := outlineWidth;
                 BaseLayerData.color := color;
                 BaseLayerData.style := style |} /\
       length (data (state layer')) =
         Nat.max (length (data (state layer))) (S id) /\
       (forall j, j <> id -> (j < length (data (state layer)))%nat ->
          data (state layer') !! j = data (state layer) !! j)) /\
  (styleCount (shared layer) <= style ->
   create style color outlineWidth node layer = None).
Proof.
  split.
  - intros b handle Hstyle Hbase id.
    pose proof (dataHandleId_bounds handle) as Hid.
    destruct (growTo_covers (Handle.dataHandleId handle)
                (data (state layer)) Hid) as (Hlt & Hlen & Hold).
    fold id in Hlen.
    unfold create.
    destruct (Z.ltb_spec style (styleCount (shared layer))); [| lia].
    simpl. rewrite Hbase. simpl.
    rewrite assign_in_range by exact Hlt. simpl. fold id.
    eexists. split; [reflexivity |]. simpl.
    do 4 (split; [reflexivity |]).
    split; [apply list_lookup_insert_eq; lia |].
    split; [rewrite length_insert; exact Hlen |].
    intros j Hne Hj. rewrite list_lookup_insert_ne by congruence.
    apply Hold. exact Hj.
  - intros Hstyle. unfold create.
    destruct (Z.ltb_spec style (styleCount (shared layer))); [lia |].
    reflexivity.
Qed.

End Layer.

(** A layer with room for three data, of which data 2 (on node 1) and
    data 0 (on node 1 as well) are visible, in this order; floats are
    rationals here. *)
Definition exampleNodes : list Z :=
  [Handle.nodeHandle 1 1; Handle.nodeHandle 0 1; Handle.nodeHandle 1 1].

Definition exampleStyle (style : Z) : BaseLayerData.t Q :=
  {| BaseLayerData.outlineWidth := (0, 0, 0, 0)%Q;
     BaseLayerData.color := (1, 1, 1)%Q;
     BaseLayerData.style := style |}.

Definition exampleState : State Q :=
  {| data := [exampleStyle 0; exampleStyle 1; exampleStyle 2];
     vertices := [];
     indices := [7; 7] |}.

Definition exampleUninitialized : BaseLayerVertex.t Q :=
  {| BaseLayerVertex.position := (0, 0)%Q;
     BaseLayerVertex.centerDistance := (0, 0)%Q;
     BaseLayerVertex.outlineWidth := (0, 0, 0, 0)%Q;
     BaseLayerVertex.color := (0, 0, 0)%Q;
     BaseLayerVertex.style := 0 |}.

Example exampleState_indices :
  indices Q <$> doUpdate Q Qplus Qmult Qopp (1 # 2)%Q 3 exampleNodes 0
                  exampleUninitialized [2; 0]
                  [(0, 0)%Q; (10, 20)%Q] [(100, 50)%Q; (30, 40)%Q] exampleState =
  Some [8; 10; 9; 10; 11; 9; 0; 2; 1; 2; 3; 1].
Proof. reflexivity. Qed.

Lemma doUpdate_quads_witness :
  exists s',
    doUpdate Q Qplus Qmult Qopp (1 # 2)%Q 3 exampleNodes 0
      exampleUninitialized [2; 0]
      [(0, 0)%Q; (10, 20)%Q] [(100, 50)%Q; (30, 40)%Q] exampleState = Some s' /\
    Z.of_nat (length (indices Q s')) = 12 /\
    take 6 (drop 6 (indices Q s')) = [0; 2; 1; 2; 3; 1] /\
    Z.of_nat (length (vertices Q s')) = 12.
Proof.
  destruct (doUpdate_quads Q Qplus Qmult Qopp (1 # 2)%Q 3 exampleNodes 0
              exampleUninitialized [2; 0]
              [(0, 0)%Q; (10, 20)%Q] [(100, 50)%Q; (30, 40)%Q] exampleState)
    as (s' & Hs' & _ & Hlen & Hquad & Hvertices & _).
  - vm_compute. reflexivity.
  - vm_compute. split; discriminate.
  - repeat constructor; try (vm_compute; congruence); eexists; reflexivity.
  - exists s'. split; [exact Hs' |]. split; [exact Hlen |].
    split; [exact (Hquad 1%nat 0 eq_refl) |]. exact Hvertices.
Defined.

(** The layer above as a button with three styles, 0 inactive, 1 hovered
    and 2 pressed.  The base object counts the calls of
    [setNeedsUpdate()], every handle but the null one is valid, the base
    class [create()] hands out the id 3, and the pointers are numbered:
    0 the left mouse button, 1 a finger, 2 a pen. *)
Definition exampleShared : SharedState :=
  setStyleTransition
    (Some (fun style => 2)) (Some (fun style => 2))
    (Some (fun style => 0)) (Some (fun style => 1))
    {| styleCount := 3;
       styleTransitionToPressedBlur := styleTransitionPassthrough;
       styleTransitionToPressedHover := styleTransitionPassthrough;
       styleTransitionToInactiveBlur := styleTransitionPassthrough;
       styleTransitionToInactiveHover := styleTransitionPassthrough |}.

Definition exampleLayer : Layer Q Z :=
  {| base := 0; shared := exampleShared; state := exampleState |}.

Definition examplePassthroughLayer : Layer Q Z :=
  {| base := 0;
     shared := setStyleTransition None None None None exampleShared;
     state := exampleState |}.

Definition exampleIsHandleValid (b : Z) (handle : Z) : bool :=
  negb (handle =? Handle.DataHandle_Null).

Definition exampleCreate (node : Z) (b : Z) : option (Z * Z) :=
  Some (b + 1, Handle.dataHandle (Handle.layerHandle 1 1) 3 1).

Definition examplePress : PointerEvent nat :=
  {| type := 0%nat; isHovering := true; isAccepted := false |}.

Lemma doUpdate_indices_in_range_witness :
  exists s',
    doUpdate Q Qplus Qmult Qopp (1 # 2)%Q 3 exampleNodes 0
      exampleUninitialized [2; 0]
      [(0, 0)%Q; (10, 20)%Q] [(100, 50)%Q; (30, 40)%Q] exampleState = Some s' /\
    Forall (fun index => 0 <= index < Z.of_nat (length (vertices Q s')))
      (indices Q s').
Proof.
  apply (doUpdate_indices_in_range Q Qplus Qmult Qopp (1 # 2)%Q 3
           exampleNodes 0 exampleUninitialized [2; 0]
           [(0, 0)%Q; (10, 20)%Q] [(100, 50)%Q; (30, 40)%Q] exampleState).
  - vm_compute. reflexivity.
  - vm_compute. split; discriminate.
  - repeat constructor; try (vm_compute; congruence); eexists; reflexivity.
Defined.

Lemma doUpdate_idempotent_witness :
  exists s',
    doUpdate Q Qplus Qmult Qopp (1 # 2)%Q 3 exampleNodes 0
      exampleUninitialized [2; 0]
      [(0, 0)%Q; (10, 20)%Q] [(100, 50)%Q; (30, 40)%Q] exampleState = Some s' /\
    doUpdate Q Qplus Qmult Qopp (1 # 2)%Q 3 exampleNodes 0
      exampleUninitialized [2; 0]
      [(0, 0)%Q; (10, 20)%Q] [(100, 50)%Q; (30, 40)%Q] s' = Some s'.
Proof.
  eexists. split; [reflexivity |].
  apply (doUpdate_idempotent Q Qplus Qmult Qopp (1 # 2)%Q 3 exampleNodes 0
           exampleUninitialized [2; 0]
           [(0, 0)%Q; (10, 20)%Q] [(100, 50)%Q; (30, 40)%Q] exampleState).
  - vm_compute. reflexivity.
  - vm_compute. split; discriminate.
  - repeat constructor; try (vm_compute; congruence); eexists; reflexivity.
  - reflexivity.
Defined.

Lemma pointer_events_keep_style_in_range_witness :
  exists layer' event',
    doPointerPressEvent Q Z Z.succ nat 0%nat 1%nat 2%nat 0 examplePress
      exampleLayer = Some (layer', event') /\
    restyled Q Z 0 exampleLayer layer'.
Proof.
  eexists. eexists. split; [reflexivity |].
  apply (proj1 (pointer_events_keep_style_in_range Q Z Z.succ nat
                  0%nat 1%nat 2%nat 0 exampleLayer _) examplePress
           (setAccepted nat examplePress)).
  - reflexivity.
  - reflexivity.
Defined.

Lemma pointer_events_update_iff_restyled_witness :
  exists layer' event',
    doPointerPressEvent Q Z Z.succ nat 0%nat 1%nat 2%nat 0 examplePress
      exampleLayer = Some (layer', event') /\
    (layer' = exampleLayer \/
     (base Q Z layer' = 1 /\
      styleOf Q Z 0 layer' <> styleOf Q Z 0 exampleLayer)).
Proof.
  eexists. eexists. split; [reflexivity |].
  apply (proj1 (pointer_events_update_iff_restyled Q Z Z.succ nat
                  0%nat 1%nat 2%nat 0 exampleLayer _) examplePress
           (setAccepted nat examplePress)).
  reflexivity.
Defined.

Lemma pointer_events_acceptance_witness :
  doPointerPressEvent Q Z Z.succ nat 0%nat 1%nat 2%nat 7
    {| type := 5%nat; isHovering := true; isAccepted := false |}
    exampleLayer =
  Some (exampleLayer,
        {| type := 5%nat; isHovering := true; isAccepted := false |}).
Proof.
  apply (proj1 (proj2 (proj2 (pointer_events_acceptance Q Z Z.succ nat
                                0%nat 1%nat 2%nat 7 exampleLayer)))
           {| type := 5%nat; isHovering := true; isAccepted := false |});
    discriminate.
Defined.

Lemma passthrough_events_change_nothing_witness :
  doPointerPressEvent Q Z Z.succ nat 0%nat 1%nat 2%nat 1 examplePress
    examplePassthroughLayer =
  Some (examplePassthroughLayer, setAccepted nat examplePress).
Proof.
  assert (Hcount : styleCount exampleShared <= 2 ^ 32)
    by (vm_compute; discriminate).
  assert (Hstyle : 0 <= BaseLayerData.style (exampleStyle 1) <
                   styleCount exampleShared)
    by (vm_compute; split; congruence).
  exact (proj1 (passthrough_events_change_nothing Q Z Z.succ nat
                  0%nat 1%nat 2%nat 1 examplePassthroughLayer
                  (exampleStyle 1) exampleShared eq_refl Hcount eq_refl Hstyle)
           examplePress).
Defined.

Lemma setters_set_one_field_witness :
  exists layer',
    setStyle Q Z Z.succ exampleIsHandleValid
      (Handle.dataHandle (Handle.layerHandle 1 1) 2 1) 1 exampleLayer =
    Some layer' /\
    replaced Q Z Z.succ 2
      {| BaseLayerData.outlineWidth := (0, 0, 0, 0)%Q;
         BaseLayerData.color := (1, 1, 1)%Q;
         BaseLayerData.style := 1 |} exampleLayer layer'.
Proof.
  apply (proj1 (proj1 (setters_set_one_field Q Z Z.succ exampleIsHandleValid
                         (Handle.dataHandle (Handle.layerHandle 1 1) 2 1)
                         exampleLayer)
                  (exampleStyle 2) eq_refl eq_refl) 1).
  vm_compute. reflexivity.
Defined.

Lemma create_stores_data_witness :
  exists layer',
    create Q Z exampleCreate (exampleStyle 99) 1 (1, 0, 0)%Q (2, 2, 2, 2)%Q 0
      exampleLayer =
    Some (layer', Handle.dataHandle (Handle.layerHandle 1 1) 3 1) /\
    base Q Z layer' = 1 /\
    data Q (state Q Z layer') !! 3%nat =
      Some {| BaseLayerData.outlineWidth := (2, 2, 2, 2)%Q;
              BaseLayerData.color := (1, 0, 0)%Q;
              BaseLayerData.style := 1 |} /\
    length (data Q (state Q Z layer')) = 4%nat.
Proof.
  destruct (proj1 (create_stores_data Q Z exampleCreate (exampleStyle 99) 1
                     (1, 0, 0)%Q (2, 2, 2, 2)%Q 0 exampleLayer)
              1 (Handle.dataHandle (Handle.layerHandle 1 1) 3 1))
    as (layer' & Hcreate & Hbase & _ & _ & _ & Hdata & Hlen & _).
  - vm_compute. reflexivity.
  - reflexivity.
  - exists layer'. split; [exact Hcreate |]. split; [exact Hbase |].
    split; [exact Hdata | exact Hlen].
Defined.

End BaseLayer.

(** ** AbstractUserInterface: event dispatch (Ui/AbstractUserInterface.h) *)

(** Only the header is present: the enum, the declarations and their
    documentation.  The implementation (AbstractUserInterface.cpp), the
    events (Event.h) and the node flags (NodeFlags.h) are missing, so the
    definitions of this module follow the specification, section 4.3 and
    4.4, and the documentation of the declarations in the header. *)
Module AbstractUserInterface.

(** Modelled from the spec: the pointer types of Event.h (missing), of
    which a press with the left mouse button, a primary finger or a pen
    affects the focus. *)
Inductive Pointer : Set :=
  | MouseLeft | MouseMiddle | MouseRight | Finger | Pen | Eraser.

(** Modelled from the spec: the event functions of AbstractLayer.h
    (missing) that the dispatch calls on layer data. *)
Inductive EventKind : Set :=
  | PointerPress | PointerRelease | PointerTapOrClick
  | Focus | Blur | KeyPress | KeyRelease | TextInput | VisibilityLost.

(** Modelled from the spec: the node flags of NodeFlags.h (missing),
    "Hidden, Clip, NoEvents, Disabled, Focusable". *)
Record NodeFlags : Set := {
  Hidden : bool;
  Clip : bool;
  NoEvents : bool;
  Disabled : bool;
  Focusable : bool
}.

(** Modelled from the spec: a node slot of the node hierarchy store
    (AbstractUserInterface.cpp, missing), with the parent handle and the own
    flags. *)
Record Node : Set := {
  slot : Handle.Slot;
  parent : Z;
  flags : NodeFlags
}.

(** Modelled from the spec: an event object of Event.h (missing), as the
    dispatch sees it. *)
Record Event : Set := {
  type : Pointer;
  isPrimary : bool;
  isAccepted : bool;
  isCaptured : bool
}.

(** What a layer does with an event it is given: whether it calls
    [setAccepted()], and whether and with what it calls [setCaptured()]. *)
Record Response : Set := {
  setAccepted : bool;
  setCaptured : option bool
}.

(** A call of a layer event function on a data, with whether the data
    accepted the event. *)
Record Call : Set := {
  kind : EventKind;
  data : Z;
  accepted : bool
}.

Definition withAccepted (event : Event) (value : bool) : Event :=
  {| type := type event; isPrimary := isPrimary event;
     isAccepted := value; isCaptured := isCaptured event |}.

Definition withCaptured (event : Event) (value : bool) : Event :=
  {| type := type event; isPrimary := isPrimary event;
     isAccepted := isAccepted event; isCaptured := value |}.

(** Modelled from the spec: the state of AbstractUserInterface.cpp
    (missing) that the event functions read and write: the nodes, the
    top-level order (back to front), the data attached to nodes (data
    handle and node handle, in layer order), the four interaction
    references, the last pointer position and the dirty bits. *)
Record UserInterface (Position : Type) : Type := {
  nodes : list Node;
  nodeOrder : list Z;
  attachments : list (Z * Z);
  currentPressedNode : Z;
  currentCapturedNode : Z;
  currentHoveredNode : Z;
  currentFocusedNode : Z;
  currentGlobalPointerPosition : option Position;
  state : Z
}.

Arguments nodes {Position} _.
Arguments nodeOrder {Position} _.
Arguments attachments {Position} _.
Arguments currentPressedNode {Position} _.
Arguments currentCapturedNode {Position} _.
Arguments currentHoveredNode {Position} _.
Arguments currentFocusedNode {Position} _.
Arguments currentGlobalPointerPosition {Position} _.
Arguments state {Position} _.

(** The user interface together with what is outside of it: the state the
    layers keep, and the calls made on them so far. *)
Record World (Position User : Type) : Type := {
  ui : UserInterface Position;
  user : User;
  calls : list Call
}.

Arguments ui {Position User} _.
Arguments user {Position User} _.
Arguments calls {Position User} _.

Section Dispatch.

Variable Position : Type.
Variable User : Type.

(** The layers: what the event function [kind] of the layer of a data
    does, given the event and the state the layers keep. *)
Variable handler : EventKind -> Z -> Event -> User -> Response * User.

(** The geometry, which the event claims do not depend on: the visible
    nodes under a position in the order hit testing tries them (front to
    back, then parents), and whether a position is inside a node. *)
Variable nodesUnder : UserInterface Position -> Position -> list Z.
Variable isInside : UserInterface Position -> Position -> Z -> bool.

Definition Null : Z := Handle.NodeHandle_Null.

Definition setUi (w : World Position User) (value : UserInterface Position)
    : World Position User :=
  {| ui := value; user := user w; calls := calls w |}.

Definition setReferences (u : UserInterface Position)
    (pressed captured hovered focused : Z) : UserInterface Position :=
  {| nodes := nodes u; nodeOrder := nodeOrder u; attachments := attachments u;
     currentPressedNode := pressed; currentCapturedNode := captured;
     currentHoveredNode := hovered; currentFocusedNode := focused;
     currentGlobalPointerPosition := currentGlobalPointerPosition u;
     state := state u |}.

Definition setPosition (u : UserInterface Position) (value : option Position)
    : UserInterface Position :=
  {| nodes := nodes u; nodeOrder := nodeOrder u; attachments := attachments u;
     currentPressedNode := currentPressedNode u;
     currentCapturedNode := currentCapturedNode u;
     currentHoveredNode := currentHoveredNode u;
     currentFocusedNode := currentFocusedNode u;
     currentGlobalPointerPosition := value;
     state := state u |}.

Definition setState (u : UserInterface Position) (value : Z)
    : UserInterface Position :=
  {| nodes := nodes u; nodeOrder := nodeOrder u; attachments := attachments u;
     currentPressedNode := currentPressedNode u;
     currentCapturedNode := currentCapturedNode u;
     currentHoveredNode := currentHoveredNode u;
     currentFocusedNode := currentFocusedNode u;
     currentGlobalPointerPosition := currentGlobalPointerPosition u;
     state := value |}.

(** Modelled from the spec: [isHandleValid(NodeHandle)] of
    AbstractUserInterface.cpp (missing). *)
Definition isHandleValid (u : UserInterface Position) (node : Z) : bool :=
  Handle.isHandleValid Handle.NodeHandleIdBits (map slot (nodes u)) node.

(** The data attached to a node, in layer order. *)
Definition dataOn (u : UserInterface Position) (node : Z) : list Z :=
  map fst (List.filter (fun attachment => snd attachment =? node)
             (attachments u)).

(** Modelled from the spec: the visible and enabled node mask that
    [update()] of AbstractUserInterface.cpp (missing) computes.  A node takes
    part in event handling when it and all its parents are valid, none of
    them is Hidden, NoEvents or Disabled, and its root is in the top-level
    order. *)
Fixpoint isVisibleForEventsWithin (fuel : nat) (u : UserInterface Position)
    (node : Z) : bool :=
  match fuel with
  | O => false
  | S fuel' =>
      isHandleValid u node &&
      match nodes u !! Z.to_nat (Handle.nodeHandleId node) with
      | Some n =>
          negb (Hidden (flags n)) && negb (NoEvents (flags n)) &&
          negb (Disabled (flags n)) &&
          (if parent n =? Null
           then existsb (Z.eqb node) (nodeOrder u)
           else isVisibleForEventsWithin fuel' u (parent n))
      | None => false
      end
  end.

Definition isVisibleForEvents (u : UserInterface Position) (node : Z) : bool :=
  isVisibleForEventsWithin (S (length (nodes u))) u node.

Definition isFocusable (u : UserInterface Position) (node : Z) : bool :=
  match nodes u !! Z.to_nat (Handle.nodeHandleId node) with
  | Some n => Focusable (flags n)
  | None => false
  end.

(** Modelled from the spec: the loop of [callEventOnNode()],
    [callFocusEventOnNode()], [callKeyEventOnNode()] and
    [callTextInputEventOnNode()] of AbstractUserInterface.cpp (missing).
    The event function is called on all data attached to the node,
    regardless of the accept status; each call starts with the event not
    accepted; a capture request of a data that does not accept is dropped.
    Returns whether any data accepted, and the event. *)
Fixpoint callOnData (eventKind : EventKind) (dataIds : list Z) (event : Event)
    (acceptedByAnyData : bool) (w : World Position User)
    : bool * Event * World Position User :=
  match dataIds with
  | [] => (acceptedByAnyData, event, w)
  | dataId :: rest =>
      let '(response, user') :=
        handler eventKind dataId (withAccepted event false) (user w) in
      let captured :=
        if setAccepted response
        then match setCaptured response with
             | Some value => value
             | None => isCaptured event
             end
        else isCaptured event in
      callOnData eventKind rest
        (withCaptured (withAccepted event (setAccepted response)) captured)
        (acceptedByAnyData || setAccepted response)
        {| ui := ui w; user := user';
           calls := calls w ++ [ {| kind := eventKind; data := dataId;
                                    accepted := setAccepted response |} ] |}
  end.

Definition callEventOnNode (eventKind : EventKind) (node : Z) (event : Event)
    (w : World Position User) : bool * Event * World Position User :=
  callOnData eventKind (dataOn (ui w) node) event false w.

(** Modelled from the spec: [callEvent()] of AbstractUserInterface.cpp
    (missing), the hit test.  The nodes under the position are tried in
    order until the data of one accept; returns that node, or Null. *)
Fixpoint callEventOnNodes (eventKind : EventKind) (candidates : list Z)
    (event : Event) (w : World Position User)
    : Z * Event * World Position User :=
  match candidates with
  | [] => (Null, event, w)
  | node :: rest =>
      let '(acceptedByAnyData, event', w') :=
        callEventOnNode eventKind node event w in
      if acceptedByAnyData then (node, event', w')
      else callEventOnNodes eventKind rest event' w'
  end.

Definition callEvent (eventKind : EventKind) (globalPosition : Position)
    (event : Event) (w : World Position User)
    : Z * Event * World Position User :=
  callEventOnNodes eventKind (nodesUnder (ui w) globalPosition) event w.

(** Modelled from the spec: [callVisibilityLostEventOnNode()] of
    AbstractUserInterface.cpp (missing). *)
Definition callVisibilityLostEventOnNode (node : Z) (w : World Position User)
    : World Position User :=
  snd (callEventOnNode VisibilityLost node
         {| type := MouseLeft; isPrimary := false; isAccepted := false;
            isCaptured := false |} w).

(** Modelled from the spec: what [clean()] of AbstractUserInterface.cpp
    (missing) does to the dirty bits: nothing unless NeedsDataClean (which
    NeedsNodeClean contains) is set; then NeedsNodeClean is reset to
    NeedsNodeUpdate and NeedsDataClean is cleared.  The pruning of removed
    nodes is not modelled: a node below a removed node is never visible
    here, which is what the event functions look at. *)
Definition clean (u : UserInterface Position) : UserInterface Position :=
  if Z.land (state u) UserInterfaceState.NeedsDataClean
     =? UserInterfaceState.NeedsDataClean
  then setState u
         (Z.ldiff (state u)
            (Z.ldiff UserInterfaceState.NeedsNodeClean
               UserInterfaceState.NeedsNodeUpdate))
  else u.

(** Modelled from the spec: step 8 of [update()], for one of the four
    references.  A reference to a node that no longer exists is reset; one
    to a node that is not visible, or has NoEvents or Disabled set on it or
    its parents, or (for the focused node) is no longer Focusable, is reset
    after a visibility lost event. *)
Definition revalidate (focused : bool) (node : Z) (w : World Position User)
    : Z * World Position User :=
  if node =? Null then (Null, w)
  else if negb (isHandleValid (ui w) node) then (Null, w)
  else if isVisibleForEvents (ui w) node &&
          (negb focused || isFocusable (ui w) node)
  then (node, w)
  else (Null, callVisibilityLostEventOnNode node w).

(** Modelled from the spec: [update()] of AbstractUserInterface.cpp
    (missing), as far as the event functions depend on it.  It cleans first,
    is a no-op if none of NeedsDataUpdate .. NeedsNodeUpdate is set (all of
    which contain NeedsDataUpdate), and otherwise revalidates the four
    references and leaves only NeedsAnimationAdvance in the state. *)
Definition update (w : World Position User) : World Position User :=
  let w0 := setUi w (clean (ui w)) in
  if Z.land (state (ui w0)) UserInterfaceState.NeedsDataUpdate =? 0 then w0
  else
    let '(pressed, w1) := revalidate false (currentPressedNode (ui w0)) w0 in
    let '(captured, w2) := revalidate false (currentCapturedNode (ui w0)) w1 in
    let '(hovered, w3) := revalidate false (currentHoveredNode (ui w0)) w2 in
    let '(focused, w4) := revalidate true (currentFocusedNode (ui w0)) w3 in
    setUi w4
      (setState (setReferences (ui w4) pressed captured hovered focused)
         (Z.land (state (ui w4)) UserInterfaceState.NeedsAnimationAdvance)).










(** Modelled from the spec: [pointerReleaseEvent()] of
    AbstractUserInterface.cpp (missing), after the documentation of its
    declaration. *)
Definition pointerReleaseEvent (globalPosition : Position) (event : Event)
    (w : World Position User) : option (bool * World Position User) :=
  if isAccepted event then None
  else
    let w := update w in
    let captured := currentCapturedNode (ui w) in
    let pressed := currentPressedNode (ui w) in
    let '(releaseAccepted, calledNode, event', w1) :=
      if negb (captured =? Null) then
        let '(acceptedByAnyData, event', w') :=
          callEventOnNode PointerRelease captured (withCaptured event true) w in
        (acceptedByAnyData, captured, event', w')
      else
        let '(node, event', w') :=
          callEvent PointerRelease globalPosition (withCaptured event false) w in
        (negb (node =? Null), node, event', w') in
    let w2 :=
      if releaseAccepted && isPrimary event && negb (calledNode =? Null) &&
         (calledNode =? pressed) && isInside (ui w1) globalPosition calledNode
      then snd (callEventOnNode PointerTapOrClick calledNode
                  (withAccepted event' false) w1)
      else w1 in
    let u2 := ui w2 in
    let u3 :=
      if isPrimary event then
        setPosition
          (setReferences u2 Null Null (currentHoveredNode u2)
             (currentFocusedNode u2))
          (Some globalPosition)
      else if releaseAccepted then
        setReferences u2 (currentPressedNode u2)
          (if isCaptured event' then calledNode else Null)
          (currentHoveredNode u2) (currentFocusedNode u2)
      else u2 in
    Some (releaseAccepted, setUi w2 u3).

(** Modelled from the spec: [keyPressOrReleaseEvent()] of
    AbstractUserInterface.cpp (missing): to the focused node if there is
    one, else to the nodes under the last pointer position if there is
    one. *)
Definition keyPressOrReleaseEvent (eventKind : EventKind) (event : Event)
    (w : World Position User) : option (bool * World Position User) :=
  if isAccepted event then None
  else
    let w := update w in
    let focused := currentFocusedNode (ui w) in
    if negb (focused =? Null) then
      let '(acceptedByAnyData, _, w1) :=
        callEventOnNode eventKind focused event w in
      Some (acceptedByAnyData, w1)
    else
      match currentGlobalPointerPosition (ui w) with
      | Some globalPosition =>
          let '(node, _, w1) := callEvent eventKind globalPosition event w in
          Some (negb (node =? Null), w1)
      | None => Some (false, w)
      end.

Definition keyPressEvent := keyPressOrReleaseEvent KeyPress.
Definition keyReleaseEvent := keyPressOrReleaseEvent KeyRelease.

(** Modelled from the spec: [textInputEvent()] of
    AbstractUserInterface.cpp (missing), after the documentation of its
    declaration. *)
Definition textInputEvent (event : Event) (w : World Position User)
    : option (bool * World Position User) :=
  if isAccepted event then None
  else
    let w := update w in
    let focused := currentFocusedNode (ui w) in
    if negb (focused =? Null) then
      let '(acceptedByAnyData, _, w1) :=
        callEventOnNode TextInput focused event w in
      Some (acceptedByAnyData, w1)
    else Some (false, w).

(** *** What a dispatch does *)

(** The calls [new] are calls of [eventKind] on exactly the data [dataIds],
    in order. *)
Definition callsOf (eventKind : EventKind) (dataIds : list Z)
    (new : list Call) : Prop :=
  Forall (fun call => kind call = eventKind) new /\ map data new = dataIds.

(** *** Properties of the dispatch *)

Lemma callOnData_spec eventKind dataIds event acceptedByAnyData w :
  exists new,
    callsOf eventKind dataIds new /\
    ui (snd (callOnData eventKind dataIds event acceptedByAnyData w)) = ui w /\
    calls (snd (callOnData eventKind dataIds event acceptedByAnyData w)) =
      calls w ++ new /\
    fst (fst (callOnData eventKind dataIds event acceptedByAnyData w)) =
      acceptedByAnyData || existsb accepted new.
Proof.
  revert event acceptedByAnyData w.
  induction dataIds as [| dataId rest IH]; intros event acceptedByAnyData w.
  - exists []. simpl. split; [split; constructor |].
    split; [reflexivity |]. split; [symmetry; apply app_nil_r |].
    symmetry. apply orb_false_r.
  - cbn [callOnData].
    destruct (handler eventKind dataId (withAccepted event false) (user w))
      as [response user'].
    match goal with
    | |- context [callOnData eventKind rest ?e ?a ?w'] =>
        destruct (IH e a w') as (new & [Hkind Hdata] & Hui & Hcalls & Hacc)
    end.
    exists ({| kind := eventKind; data := dataId;
               accepted := setAccepted response |} :: new).
    split; [split |].
    + constructor; [reflexivity | exact Hkind].
    + simpl. rewrite Hdata. reflexivity.
    + split; [rewrite Hui; reflexivity |].
      split; [rewrite Hcalls; simpl; rewrite <- app_assoc; reflexivity |].
      rewrite Hacc. simpl. rewrite orb_assoc. reflexivity.
Qed.

Lemma callEventOnNode_spec eventKind node event w :
  exists new,
    callsOf eventKind (dataOn (ui w) node) new /\
    ui (snd (callEventOnNode eventKind node event w)) = ui w /\
    calls (snd (callEventOnNode eventKind node event w)) = calls w ++ new /\
    fst (fst (callEventOnNode eventKind node event w)) = existsb accepted new.
Proof.
  unfold callEventOnNode.
  destruct (callOnData_spec eventKind (dataOn (ui w) node) event false w)
    as (new & Hof & Hui & Hcalls & Hacc).
  exists new. repeat split; try assumption; apply Hof.
Qed.








(** The ways a node fails to be visible for events: it is Hidden, has
    NoEvents or is Disabled, or it is a root outside the top-level order, or
    its parent is not visible for events. *)
Lemma isVisibleForEventsWithin_false fuel (u : UserInterface Position) node n :
  nodes u !! Z.to_nat (Handle.nodeHandleId node) = Some n ->
  Hidden (flags n) = true \/ NoEvents (flags n) = true \/
  Disabled (flags n) = true \/
  (parent n = Null /\ existsb (Z.eqb node) (nodeOrder u) = false) \/
  (parent n <> Null /\ isVisibleForEventsWithin fuel u (parent n) = false) ->
  isVisibleForEventsWithin (S fuel) u node = false.
Proof.
  intros Hn Hcases. cbn [isVisibleForEventsWithin]. rewrite Hn.
  destruct (isHandleValid u node); [| reflexivity]. cbn [andb].
  destruct Hcases as [H | [H | [H | [[Hroot Horder] | [Hchild Hparent]]]]].
  - rewrite H. reflexivity.
  - rewrite H. destruct (Hidden (flags n)); reflexivity.
  - rewrite H. destruct (Hidden (flags n)), (NoEvents (flags n)); reflexivity.
  - rewrite Hroot, Z.eqb_refl, Horder. apply andb_false_r.
  - destruct (Z.eqb_spec (parent n) Null) as [Heq | _]; [contradiction |].
    rewrite Hparent. apply andb_false_r.
Qed.








(** C5: a primary [pointerReleaseEvent()] clears the capture.  For every
    state, position and not yet accepted primary event, and whatever the
    layers do with the event (accept it or not, call [setCaptured()] with
    any value), the call returns and [currentCapturedNode()] is Null
    afterwards, and so is [currentPressedNode()].  While a node is captured
    the release goes to the data of that node, and the result is whether any
    of them accepted. *)
Theorem pointerReleaseEvent_clears_capture globalPosition event w :
  isAccepted event = false ->
  isPrimary event = true ->
  exists releaseAccepted w',
    pointerReleaseEvent globalPosition event w = Some (releaseAccepted, w') /\
    currentCapturedNode (ui w') = Null /\
    currentPressedNode (ui w') = Null /\
    (currentCapturedNode (ui (update w)) <> Null ->
     exists released tapped,
       calls w' = calls (update w) ++ released ++ tapped /\
       callsOf PointerRelease
         (dataOn (ui (update w)) (currentCapturedNode (ui (update w))))
         released /\
       releaseAccepted = existsb accepted released /\
       Forall (fun call => kind call = PointerTapOrClick) tapped).
Proof.
  intros Haccepted Hprimary. unfold pointerReleaseEvent.
  rewrite Haccepted, Hprimary.
  set (w0 := update w).
  destruct (Z.eqb_spec (currentCapturedNode (ui w0)) Null) as [Hnull | Hcaptured];
    cbn [negb].
  - destruct (callEvent PointerRelease globalPosition
                (withCaptured event false) w0) as [[node event'] w1].
    eexists _, _. split; [reflexivity |]. simpl.
    split; [reflexivity |]. split; [reflexivity |].
    intros Hne. contradiction.
  - destruct (callEventOnNode_spec PointerRelease
                (currentCapturedNode (ui w0)) (withCaptured event true) w0)
      as (released & Hof & Hui & Hcalls & Hacc).
    destruct (callEventOnNode PointerRelease (currentCapturedNode (ui w0))
                (withCaptured event true) w0) as [[acceptedByAnyData event'] w1].
    simpl in Hui, Hcalls, Hacc.
    eexists _, _. split; [reflexivity |]. simpl.
    split; [reflexivity |]. split; [reflexivity |].
    intros _. exists released.
    match goal with
    | |- context [if ?c then _ else _] => destruct c
    end.
    + destruct (callEventOnNode_spec PointerTapOrClick
                  (currentCapturedNode (ui w0)) (withAccepted event' false) w1)
        as (tapped & [Hkind _] & _ & Htapped & _).
      exists tapped. rewrite Htapped, Hcalls, <- app_assoc.
      repeat split; try assumption; apply Hof.
    + exists []. rewrite app_nil_r.
      repeat split; try assumption; try apply Hof. constructor.
Qed.



End Dispatch.

(** *** An interface with two root nodes *)

(** Node 0 is visible and focusable and has one data attached; node 1 is
    focusable but hidden.  Node 0 is pressed and captured, nothing is
    focused, and the pointer was last seen at position 5 (positions are
    integers here).  The one layer accepts every event, asks to keep the
    capture, and counts the events it got. *)
Definition plainNode (hidden : bool) : Node :=
  {| slot := {| Handle.slotGeneration := 1; Handle.slotUsed := true |};
     parent := Handle.NodeHandle_Null;
     flags := {| Hidden := hidden; Clip := false; NoEvents := false;
                 Disabled := false; Focusable := true |} |}.

Definition exampleData : Z := Handle.dataHandle (Handle.layerHandle 0 1) 0 1.

Definition exampleInterface : UserInterface Z :=
  {| nodes := [plainNode false; plainNode true];
     nodeOrder := [Handle.nodeHandle 0 1; Handle.nodeHandle 1 1];
     attachments := [(exampleData, Handle.nodeHandle 0 1)];
     currentPressedNode := Handle.nodeHandle 0 1;
     currentCapturedNode := Handle.nodeHandle 0 1;
     currentHoveredNode := Handle.NodeHandle_Null;
     currentFocusedNode := Handle.NodeHandle_Null;
     currentGlobalPointerPosition := Some 5;
     state := 0 |}.

Definition exampleWorld : World Z nat :=
  {| ui := exampleInterface; user := 0%nat; calls := [] |}.

Definition exampleHandler (eventKind : EventKind) (dataId : Z) (event : Event)
    (count : nat) : Response * nat :=
  ({| setAccepted := true; setCaptured := Some true |}, S count).

Definition exampleNodesUnder (u : UserInterface Z) (position : Z) : list Z :=
  List.filter (isVisibleForEvents Z u) (rev (nodeOrder u)).

Definition exampleIsInside (u : UserInterface Z) (position : Z) (node : Z)
    : bool := true.

Definition exampleEvent (primary : bool) : Event :=
  {| type := MouseLeft; isPrimary := primary; isAccepted := false;
     isCaptured := false |}.

Lemma pointerReleaseEvent_clears_capture_witness :
  exists releaseAccepted w',
    pointerReleaseEvent Z nat exampleHandler exampleNodesUnder exampleIsInside
      5 (exampleEvent true) exampleWorld = Some (releaseAccepted, w') /\
    currentCapturedNode (ui w') = Handle.NodeHandle_Null /\
    currentPressedNode (ui w') = Handle.NodeHandle_Null.
Proof.
  destruct (pointerReleaseEvent_clears_capture Z nat exampleHandler
              exampleNodesUnder exampleIsInside 5 (exampleEvent true)
              exampleWorld eq_refl eq_refl)
    as (releaseAccepted & w' & Hrelease & Hcaptured & Hpressed & _).
  exists releaseAccepted, w'. split; [exact Hrelease |].
  split; [exact Hcaptured | exact Hpressed].
Defined.

(** The release was accepted, the layer asked to keep the capture, and a
    tap or click followed; the capture is gone all the same. *)
Example exampleWorld_release :
  pointerReleaseEvent Z nat exampleHandler exampleNodesUnder exampleIsInside
    5 (exampleEvent true) exampleWorld =
  Some (true,
        {| ui := setReferences Z exampleInterface 0 0 0 0;
           user := 2%nat;
           calls := [ {| kind := PointerRelease; data := exampleData;
                         accepted := true |};
                      {| kind := PointerTapOrClick; data := exampleData;
                         accepted := true |} ] |}).
Proof. vm_compute. reflexivity. Qed.

(** The same interface with node 0 focused and a node update pending. *)
Definition focusedWorld : World Z nat :=
  {| ui := setState Z (setReferences Z exampleInterface
                         (Handle.nodeHandle 0 1) (Handle.nodeHandle 0 1)
                         Handle.NodeHandle_Null (Handle.nodeHandle 0 1))
             UserInterfaceState.NeedsNodeUpdate;
     user := 0%nat; calls := [] |}.





Example focusedWorld_text :
  textInputEvent Z nat exampleHandler (exampleEvent false) focusedWorld =
  Some (true,
        {| ui := setState Z (ui focusedWorld) 0; user := 1%nat;
           calls := [ {| kind := TextInput; data := exampleData;
                         accepted := true |} ] |}).
Proof. vm_compute. reflexivity. Qed.

(** With nothing focused, a key press goes to the node under the last
    pointer position, while a text input goes nowhere. *)
Example exampleWorld_key_and_text :
  keyPressEvent Z nat exampleHandler exampleNodesUnder (exampleEvent false)
    exampleWorld =
  Some (true,
        {| ui := exampleInterface; user := 1%nat;
           calls := [ {| kind := KeyPress; data := exampleData;
                         accepted := true |} ] |}) /\
  textInputEvent Z nat exampleHandler (exampleEvent false) exampleWorld =
  Some (false, exampleWorld).
Proof. split; vm_compute; reflexivity. Qed.

End AbstractUserInterface.
